(** * zcloudpass-app: vault codec, session client and vault synchronisation

    A shallow embedding of the client core of the repository:
    - [src/lib/crypto.ts]  (deriveKey, encryptVault, decryptVault,
      generatePassword),
    - the API module       (normalizeExpiresToISO, the session store,
      createSessionForEmail, registerUser, getVault, updateVault,
      changePassword, the health checks), and the module as it was
      earlier,
    - the earlier [App.tsx] (putVaultWithVersion, handleChangePassword and
      the other handlers),
    - the handlers of the components [Vault], [Register] and [Settings],
      and the routes of [App].

    The browser platform (Web Crypto, TextEncoder, JSON, Date, fetch,
    localStorage, the limits of the engine) is not code of the repository.
    Its functions are the fields of type classes, and the laws a statement
    needs of them are its hypotheses; where the standard is short enough to
    write down (base64, PBKDF2 over HMAC over SHA-256, the rounding of a
    sum of doubles), they are definitions that compute.

    The file has three parts: the model, the notions the properties are
    stated with, and the properties. *)

From Stdlib Require Import Bool Arith NArith ZArith Lia List.
From Stdlib.Strings Require Import Ascii String Byte.
From Stdlib Require DecimalString.
Import ListNotations.

#[local] Set Warnings "-register-all".
Local Open Scope string_scope.
Local Open Scope list_scope.

(** * The model *)

(** ** Values and errors *)

(** A JavaScript value that JSON can carry.  Numbers are the integers: the
    statuses and versions of the protocol; fractions, NaN and the infinities
    are left out.  The fields of an object have distinct keys, in the order
    of insertion. *)
Inductive JsValue : Type :=
| JNull
| JBool (b : bool)
| JNum (n : Z)
| JStr (s : string)
| JArr (l : list JsValue)
| JObj (fields : list (string * JsValue)).

(** A thrown error.  Every error the code constructs is [new Error(message)],
    sometimes with a [code] property added; the platform throws errors of
    other classes, kept apart by [err_name]. *)
Record JsError : Type := mkError {
  err_name : string;
  err_message : string;
  err_code : option JsValue
}.

Inductive result (A : Type) : Type :=
| Ok (a : A)
| Err (e : JsError).
Arguments Ok {A} a.
Arguments Err {A} e.

(** [new Error(msg)] *)
Definition new_Error (msg : string) : JsError := mkError "Error" msg None.

(** ** Bytes and base64 (btoa / atob) *)

Definition byte_of_N (n : N) : byte :=
  match Byte.of_N (n mod 256) with
  | Some b => b
  | None => x00
  end.

Module Base64.

Definition b64_char (n : N) : ascii :=
  if (n <? 26)%N then ascii_of_N (n + 65)
  else if (n <? 52)%N then ascii_of_N (n + 71)
  else if (n <? 62)%N then ascii_of_N (n - 4)
  else if (n =? 62)%N then "+"%char
  else "/"%char.

Definition b64_index (c : ascii) : option N :=
  let n := N_of_ascii c in
  if ((65 <=? n) && (n <=? 90))%N then Some (n - 65)%N
  else if ((97 <=? n) && (n <=? 122))%N then Some (n - 71)%N
  else if ((48 <=? n) && (n <=? 57))%N then Some (n + 4)%N
  else if (n =? 43)%N then Some 62%N
  else if (n =? 47)%N then Some 63%N
  else None.

(** The sextets of a byte sequence, three bytes at a time; a last group of
    one or two bytes is padded with zero bits (RFC 4648, section 4). *)
Fixpoint sextets (bs : list byte) : list N :=
  match bs with
  | [] => []
  | [a] =>
      let n := (Byte.to_N a * 16)%N in
      [(n / 64)%N; (n mod 64)%N]
  | [a; b] =>
      let n := ((Byte.to_N a * 256 + Byte.to_N b) * 4)%N in
      [(n / 4096)%N; ((n / 64) mod 64)%N; (n mod 64)%N]
  | a :: b :: c :: rest =>
      let n := (Byte.to_N a * 65536 + Byte.to_N b * 256 + Byte.to_N c)%N in
      (n / 262144)%N :: ((n / 4096) mod 64)%N :: ((n / 64) mod 64)%N
        :: (n mod 64)%N :: sextets rest
  end.

Definition padding (bs : list byte) : list ascii :=
  match (List.length bs mod 3)%nat with
  | 1%nat => ["="; "="]%char
  | 2%nat => ["="]%char
  | _ => []
  end.

Definition encode (bs : list byte) : list ascii :=
  map b64_char (sextets bs) ++ padding bs.

(** Forgiving base64 decoding (WHATWG Infra), the algorithm behind [atob]. *)
Definition is_ascii_whitespace (c : ascii) : bool :=
  let n := N_of_ascii c in
  ((n =? 9) || (n =? 10) || (n =? 12) || (n =? 13) || (n =? 32))%N.

Definition is_pad (c : ascii) : bool := Ascii.eqb c "=".

(** "If data ends with one or two U+003D (=) code points, remove them." *)
Definition strip_padding (data : list ascii) : list ascii :=
  match rev data with
  | c1 :: r1 =>
      if is_pad c1 then
        match r1 with
        | c2 :: r2 => if is_pad c2 then rev r2 else rev r1
        | [] => rev r1
        end
      else data
  | [] => data
  end.

Fixpoint indices (data : list ascii) : option (list N) :=
  match data with
  | [] => Some []
  | c :: r =>
      match b64_index c, indices r with
      | Some n, Some l => Some (n :: l)
      | _, _ => None
      end
  end.

Fixpoint bytes_of_sextets (l : list N) : list byte :=
  match l with
  | a :: b :: c :: d :: rest =>
      let n := (((a * 64 + b) * 64 + c) * 64 + d)%N in
      byte_of_N (n / 65536) :: byte_of_N (n / 256) :: byte_of_N n
        :: bytes_of_sextets rest
  | [a; b; c] =>
      let n := (((a * 64 + b) * 64 + c) / 4)%N in
      [byte_of_N (n / 256); byte_of_N n]
  | [a; b] => [byte_of_N ((a * 64 + b) / 16)]
  | _ => []
  end.

Definition decode (s : list ascii) : option (list byte) :=
  let data := filter (fun c => negb (is_ascii_whitespace c)) s in
  let data :=
    if (List.length data mod 4 =? 0)%nat then strip_padding data else data in
  if (List.length data mod 4 =? 1)%nat then None
  else option_map bytes_of_sextets (indices data).

End Base64.

(** [btoa(s)] on a string whose code units are the given bytes: their
    base64 text. *)
Definition btoa (binary : list byte) : string :=
  string_of_list_ascii (Base64.encode binary).

(** [Uint8Array.from(atob(s), c => c.charCodeAt(0))]; [None] when [atob]
    throws its InvalidCharacterError. *)
Definition atob (s : string) : option (list byte) :=
  Base64.decode (list_ascii_of_string s).


(** ** SHA-256, HMAC and PBKDF2

    [crypto.subtle.deriveKey] is called with [name: "PBKDF2"] and
    [hash: "SHA-256"]: PBKDF2 of RFC 8018 over HMAC (RFC 2104) over SHA-256
    (FIPS 180-4).  Words are 32-bit numbers in [N]. *)

Module SHA256.
Local Open Scope N_scope.

Definition w32 (x : N) : N := x mod 4294967296.
Definition add32 (x y : N) : N := w32 (x + y).
Definition rotr (n x : N) : N := N.lor (N.shiftr x n) (w32 (N.shiftl x (32 - n))).
Definition shr (n x : N) : N := N.shiftr x n.
Definition not32 (x : N) : N := N.lxor x 4294967295.

Definition Ch (x y z : N) : N := N.lxor (N.land x y) (N.land (not32 x) z).
Definition Maj (x y z : N) : N :=
  N.lxor (N.lxor (N.land x y) (N.land x z)) (N.land y z).
Definition Sigma0 (x : N) : N := N.lxor (N.lxor (rotr 2 x) (rotr 13 x)) (rotr 22 x).
Definition Sigma1 (x : N) : N := N.lxor (N.lxor (rotr 6 x) (rotr 11 x)) (rotr 25 x).
Definition sigma0 (x : N) : N := N.lxor (N.lxor (rotr 7 x) (rotr 18 x)) (shr 3 x).
Definition sigma1 (x : N) : N := N.lxor (N.lxor (rotr 17 x) (rotr 19 x)) (shr 10 x).

(** The constants are defined as FIPS 180-4 defines them: the first 32 bits
    of the fractional parts of the cube roots (for [K]) and of the square
    roots (for [H0]) of the first primes. *)
Definition is_prime (n : N) : bool :=
  (2 <=? n) && forallb (fun d => negb (n mod N.of_nat d =? 0)) (seq 2 (N.to_nat n - 2)).

Fixpoint primes_from (fuel count : nat) (n : N) : list N :=
  match fuel, count with
  | S f, S c =>
      if is_prime n then n :: primes_from f c (n + 1) else primes_from f count (n + 1)
  | _, _ => []
  end.

Definition first_primes (count : nat) : list N := primes_from 400 count 2.

(** The largest [r] below [2 ^ bits] with [r ^ 3 <= x]. *)
Fixpoint cube_root (bits : nat) (x r : N) : N :=
  match bits with
  | O => r
  | S b =>
      let r' := r + 2 ^ N.of_nat b in
      cube_root b x (if r' * r' * r' <=? x then r' else r)
  end.

Definition K : list N :=
  map (fun p => w32 (cube_root 36 (p * 2 ^ 96) 0)) (first_primes 64).

Definition H0 : list N :=
  map (fun p => w32 (N.sqrt (p * 2 ^ 64))) (first_primes 8).

(** [x] as [width] bytes, most significant first. *)
Fixpoint be_bytes (width : nat) (x : N) : list byte :=
  match width with
  | O => []
  | S w => be_bytes w (x / 256) ++ [byte_of_N x]
  end.

(** Padding: a 1 bit, zero bits up to 56 modulo 64 bytes, then the bit
    length as a 64-bit integer. *)
Definition pad (msg : list byte) : list byte :=
  let len := List.length msg in
  let zeros := ((64 - (len + 9) mod 64) mod 64)%nat in
  msg ++ [x80] ++ repeat x00 zeros ++ be_bytes 8 (8 * N.of_nat len).

Fixpoint words (fuel : nat) (bs : list byte) : list N :=
  match fuel, bs with
  | S f, a :: b :: c :: d :: rest =>
      (((Byte.to_N a * 256 + Byte.to_N b) * 256 + Byte.to_N c) * 256 + Byte.to_N d)
        :: words f rest
  | _, _ => []
  end.

(** The message schedule, most recent word first. *)
Fixpoint schedule (n : nat) (w : list N) : list N :=
  match n with
  | O => w
  | S n' =>
      let w_t := add32 (add32 (sigma1 (nth 1 w 0)) (nth 6 w 0))
                       (add32 (sigma0 (nth 14 w 0)) (nth 15 w 0)) in
      schedule n' (w_t :: w)
  end.

Definition round (s : list N) (kw : N * N) : list N :=
  match s with
  | [a; b; c; d; e; f; g; h] =>
      let t1 := add32 (add32 (add32 h (Sigma1 e)) (add32 (Ch e f g) (fst kw))) (snd kw) in
      let t2 := add32 (Sigma0 a) (Maj a b c) in
      [add32 t1 t2; a; b; c; add32 d t1; e; f; g]
  | _ => s
  end.

Definition compress (h : list N) (block : list N) : list N :=
  let w := rev (schedule 48 (rev block)) in
  let s := fold_left round (combine K w) h in
  map (fun p => add32 (fst p) (snd p)) (combine h s).

Fixpoint blocks (fuel : nat) (ws : list N) : list (list N) :=
  match fuel with
  | O => []
  | S f =>
      match ws with
      | [] => []
      | _ => firstn 16 ws :: blocks f (skipn 16 ws)
      end
  end.

Definition sha256 (msg : list byte) : list byte :=
  let p := pad msg in
  let ws := words (List.length p) p in
  let h := fold_left compress (blocks (List.length ws) ws) H0 in
  flat_map (be_bytes 4) h.

End SHA256.

Module HMAC.

Definition block_size : nat := 64.

Definition xor_byte (c : N) (b : byte) : byte := byte_of_N (N.lxor (Byte.to_N b) c).

(** The key as HMAC uses it: a key longer than one block is replaced by its
    hash; the result is filled with zero bytes to one block. *)
Definition key0 (key : list byte) : list byte :=
  let k := if (block_size <? List.length key)%nat then SHA256.sha256 key else key in
  k ++ repeat x00 (block_size - List.length k).

Definition hmac_sha256 (key msg : list byte) : list byte :=
  SHA256.sha256 (map (xor_byte 0x5c) (key0 key)
                 ++ SHA256.sha256 (map (xor_byte 0x36) (key0 key) ++ msg)).

End HMAC.

Module PBKDF2.

Definition xor_bytes (a b : list byte) : list byte :=
  map (fun p => byte_of_N (N.lxor (Byte.to_N (fst p)) (Byte.to_N (snd p)))) (combine a b).

(** [F (P, S, c, i) = U_1 xor ... xor U_c], with [U_1 = PRF (P, S || INT i)]
    and [U_j = PRF (P, U_(j-1))]. *)
Definition F (prf : list byte -> list byte) (salt : list byte) (c i : N) : list byte :=
  let u1 := prf (salt ++ SHA256.be_bytes 4 i) in
  snd (N.iter (c - 1)
         (fun ut => let u := prf (fst ut) in (u, xor_bytes (snd ut) u))
         (u1, u1)).

(** A 256-bit key is one block of output: [DK = T_1]. *)
Definition pbkdf2_hmac_sha256 (password salt : list byte) (c : N) : list byte :=
  F (HMAC.hmac_sha256 password) salt c 1.

End PBKDF2.

(** ** JavaScript values and exceptions *)

(** The error monad of code that can throw. *)
Definition bind_result {A B} (r : result A) (k : A -> result B) : result B :=
  match r with
  | Ok a => k a
  | Err e => Err e
  end.

Declare Scope js_scope.
Delimit Scope js_scope with js.
Notation "x <- r ;; k" := (bind_result r (fun x => k))
  (at level 61, r at next level, right associativity) : js_scope.

(** A platform call that yields a value or throws [e]. *)
Definition or_throw {A} (o : option A) (e : JsError) : result A :=
  match o with
  | Some a => Ok a
  | None => Err e
  end.

(** [try { body } catch (error) { handler(error) }] *)
Definition try_catch {A} (body : result A) (handler : JsError -> result A) : result A :=
  match body with
  | Ok a => Ok a
  | Err e => handler e
  end.

(** Errors of the platform.  Their messages differ between engines and are
    left empty; the class names tell them apart. *)
Definition InvalidCharacterError : JsError := mkError "InvalidCharacterError" "" None.
Definition OperationError : JsError := mkError "OperationError" "" None.
Definition SyntaxError : JsError := mkError "SyntaxError" "" None.
Definition TypeError : JsError := mkError "TypeError" "" None.
Definition RangeError : JsError := mkError "RangeError" "" None.
Definition QuotaExceededError : JsError := mkError "QuotaExceededError" "" None.

(** A value that may be [undefined] is an [option JsValue]. *)
Definition JsAny : Type := option JsValue.

Fixpoint assoc (k : string) (fields : list (string * JsValue)) : JsAny :=
  match fields with
  | [] => None
  | (k', v) :: rest => if String.eqb k k' then Some v else assoc k rest
  end.

(** [v?.k] for a key that no primitive, array or function carries: the
    property of an object, [undefined] on everything else. *)
Definition get_prop (v : JsAny) (k : string) : JsAny :=
  match v with
  | Some (JObj fields) => assoc k fields
  | _ => None
  end.

(** [v.k]: as [v?.k], but a TypeError on [null] and [undefined]. *)
Definition get_member (v : JsAny) (k : string) : result JsAny :=
  match v with
  | None | Some JNull => Err TypeError
  | _ => Ok (get_prop v k)
  end.

(** ToBoolean *)
Definition truthy (v : JsAny) : bool :=
  match v with
  | None | Some JNull => false
  | Some (JBool b) => b
  | Some (JNum n) => negb (n =? 0)%Z
  | Some (JStr s) => negb (String.eqb s "")
  | Some (JArr _) | Some (JObj _) => true
  end.

(** [a || b] *)
Definition js_or (a b : JsAny) : JsAny := if truthy a then a else b.

(** [a ?? b] *)
Definition js_nullish (a b : JsAny) : JsAny :=
  match a with
  | None | Some JNull => b
  | _ => a
  end.

Definition string_of_Z (n : Z) : string :=
  DecimalString.NilZero.string_of_int (Z.to_int n).

Fixpoint join (sep : string) (l : list string) : string :=
  match l with
  | [] => ""
  | [s] => s
  | s :: rest => (s ++ sep ++ join sep rest)%string
  end.

(** ToString on a value: an array joins its elements with commas, [null]
    elements as the empty string; an object is "[object Object]". *)
Fixpoint value_to_string (v : JsValue) : string :=
  match v with
  | JNull => "null"
  | JBool true => "true"
  | JBool false => "false"
  | JNum n => string_of_Z n
  | JStr s => s
  | JArr l =>
      join "," (map (fun x => match x with
                              | JNull => ""
                              | _ => value_to_string x
                              end) l)
  | JObj _ => "[object Object]"
  end.

(** [String(v)] and the conversion of a template literal. *)
Definition js_String (v : JsAny) : string :=
  match v with
  | None => "undefined"
  | Some v => value_to_string v
  end.

(** [s.replace(pat, rep)] with a string pattern and a replacement without
    [$]: the first occurrence is replaced. *)
Fixpoint replace (pat rep s : string) : string :=
  if String.prefix pat s then
    (rep ++ String.substring (String.length pat)
                             (String.length s - String.length pat) s)%string
  else
    match s with
    | EmptyString => EmptyString
    | String c r => String c (replace pat rep r)
    end.

(** ** Numbers *)

(** A number is a double.  Of the integers, those below 2^53 in absolute
    value are doubles, and beyond them those that 53 significant bits
    write.  [round_double z] is the double nearest to the integer [z], the
    one with the even significand where two are equally near (IEEE 754,
    roundTiesToEven), for [z] short of the largest double. *)
Definition round_double (z : Z) : Z :=
  let m := Z.abs z in
  if (m <? 2 ^ 53)%Z then z
  else
    let ulp := (2 ^ (Z.log2 m - 52))%Z in
    let q := (m / ulp)%Z in
    let r := (m mod ulp)%Z in
    let q' :=
      if (2 * r <? ulp)%Z then q
      else if (ulp <? 2 * r)%Z then (q + 1)%Z
      else if Z.even q then q else (q + 1)%Z in
    (Z.sgn z * (q' * ulp))%Z.

(** [a + b] on numbers that are integers *)
Definition number_add (a b : Z) : Z := round_double (a + b).

(** ** The platform *)

(** Web Crypto, as [crypto.ts] uses it. *)
Class WebCrypto : Type := {
  Key : Type;
  (** PBKDF2 with SHA-256, deriving a 256-bit AES-GCM key: password bytes,
      salt, iteration count. *)
  pbkdf2_sha256 : list byte -> list byte -> N -> Key;
  (** AES-GCM with a 128-bit tag: key, iv, data.  Decryption verifies the
      tag and yields nothing when it does not match. *)
  aes_gcm_encrypt : Key -> list byte -> list byte -> list byte;
  aes_gcm_decrypt : Key -> list byte -> list byte -> option (list byte)
}.

(** [new TextEncoder().encode] and [new TextDecoder().decode]; the decoder
    replaces malformed input and does not throw. *)
Class TextCodec : Type := {
  utf8_encode : string -> list byte;
  utf8_decode : list byte -> string
}.

(** [JSON.stringify] on a value without [undefined], and [JSON.parse],
    which throws a SyntaxError on text that is not JSON. *)
Class Json : Type := {
  JSON_stringify : JsValue -> string;
  JSON_parse : string -> option JsValue
}.

(** The limits of the engine.  A call takes at most [max_arguments]
    arguments, as many as its stack has room for: [f(...a)] on a longer [a]
    throws a RangeError, whose message is [too_many_arguments].  A typed
    array has at most [max_byte_length] elements, and [new Uint8Array(n)]
    throws a RangeError beyond; every engine makes the 65536 bytes that one
    call of [crypto.getRandomValues] fills. *)
Class Limits : Type := {
  max_arguments : N;
  too_many_arguments : string;
  max_byte_length : Z;
  byte_length_room : (65536 <=? max_byte_length)%Z = true
}.

(** ** Text as bytes *)

(** Well-formed UTF-8 (Unicode, table 3-7): the byte sequences that are the
    encoding of a string of scalar values. *)
Fixpoint well_formed_utf8_fuel (fuel : nat) (bs : list N) : bool :=
  let tail (b : N) := ((128 <=? b) && (b <=? 191))%N in
  match fuel, bs with
  | _, [] => true
  | O, _ => false
  | S f, b0 :: r0 =>
      if (b0 <=? 127)%N then well_formed_utf8_fuel f r0
      else
        match r0 with
        | [] => false
        | b1 :: r1 =>
            if ((194 <=? b0) && (b0 <=? 223))%N then tail b1 && well_formed_utf8_fuel f r1
            else
              match r1 with
              | [] => false
              | b2 :: r2 =>
                  if (b0 =? 224)%N then
                    (160 <=? b1)%N && (b1 <=? 191)%N && tail b2 && well_formed_utf8_fuel f r2
                  else if (b0 =? 237)%N then
                    (128 <=? b1)%N && (b1 <=? 159)%N && tail b2 && well_formed_utf8_fuel f r2
                  else if ((225 <=? b0) && (b0 <=? 239))%N then
                    tail b1 && tail b2 && well_formed_utf8_fuel f r2
                  else
                    match r2 with
                    | [] => false
                    | b3 :: r3 =>
                        if (b0 =? 240)%N then
                          (144 <=? b1)%N && (b1 <=? 191)%N && tail b2 && tail b3
                          && well_formed_utf8_fuel f r3
                        else if ((241 <=? b0) && (b0 <=? 243))%N then
                          tail b1 && tail b2 && tail b3 && well_formed_utf8_fuel f r3
                        else if (b0 =? 244)%N then
                          (128 <=? b1)%N && (b1 <=? 143)%N && tail b2 && tail b3
                          && well_formed_utf8_fuel f r3
                        else false
                    end
              end
        end
  end.

Definition well_formed_utf8 (s : string) : bool :=
  let bs := map Byte.to_N (list_byte_of_string s) in
  well_formed_utf8_fuel (List.length bs) bs.

Definition hex_digit (n : N) : ascii :=
  if (n <? 10)%N then ascii_of_N (n + 48) else ascii_of_N (n + 87).

(** Bytes in hexadecimal, to read digests. *)
Fixpoint hex (bs : list byte) : string :=
  match bs with
  | [] => ""
  | b :: r =>
      String (hex_digit (Byte.to_N b / 16)) (String (hex_digit (Byte.to_N b mod 16)) (hex r))
  end.

(** ** The vault document ([src/lib/crypto.ts], lines 4-15) *)

Record VaultEntry : Type := mkEntry {
  id : string;
  name : string;
  username : option string;
  password : option string;
  url : option string;
  notes : option string
}.

Record Vault : Type := mkVault { entries : list VaultEntry }.

Definition opt_field (k : string) (o : option string) : list (string * JsValue) :=
  match o with
  | Some s => [(k, JStr s)]
  | None => []
  end.

(** The object a [VaultEntry] is at run time: an optional field that is
    absent is no property at all. *)
Definition entry_to_js (x : VaultEntry) : JsValue :=
  JObj ([("id", JStr (id x)); ("name", JStr (name x))]
        ++ opt_field "username" (username x)
        ++ opt_field "password" (password x)
        ++ opt_field "url" (url x)
        ++ opt_field "notes" (notes x)).

Definition vault_to_js (v : Vault) : JsValue :=
  JObj [("entries", JArr (map entry_to_js (entries v)))].

(** [createEmptyVault] *)
Definition createEmptyVault : Vault := mkVault [].

(** Whether [vault.entries.length] evaluates without a TypeError: [vault]
    and [vault.entries] must both be neither null nor undefined.  On an
    array, [entries] is the method of [Array.prototype], a function, whose
    [length] is defined; a boolean, number or string has no such property. *)
Definition entries_length_defined (vault : JsValue) : bool :=
  match vault with
  | JObj fields =>
      match assoc "entries" fields with
      | Some JNull => false
      | Some _ => true
      | None => false
      end
  | JArr _ => true
  | _ => false
  end.

(** ** Typed arrays *)

(** [a.slice(start, stop)] and [a.slice(start)] on a [Uint8Array], for
    [0 <= start <= stop]. *)
Definition slice (start stop : nat) (a : list byte) : list byte :=
  firstn (stop - start) (skipn start a).

Definition slice_from (start : nat) (a : list byte) : list byte := skipn start a.

(** The secure random source: an unbounded sequence of bytes, consumed from
    the front. *)
Definition Entropy : Type := nat -> byte.

(** [crypto.getRandomValues(new Uint8Array(n))] *)
Definition getRandomValues (n : nat) (e : Entropy) : list byte * Entropy :=
  (map e (seq 0 n), fun i => e (n + i)%nat).

(** ** VaultCodec ([src/lib/crypto.ts]) *)

Section VaultCodec.

Context {crypto : WebCrypto} {text : TextCodec} {json : Json} {limits : Limits}.

(** The RangeError of a call with more arguments than the engine takes. *)
Definition ArgumentsError : JsError := mkError "RangeError" too_many_arguments None.

(** [String.fromCharCode(...codes)]: the string whose code units are the
    given bytes, each of them one argument of the call. *)
Definition String_fromCharCode (codes : list byte) : result (list byte) :=
  if (N.of_nat (List.length codes) <=? max_arguments)%N then Ok codes
  else Err ArgumentsError.

(** [deriveKey], lines 20-47 *)
Definition deriveKey (masterPassword : string) (salt : list byte) : Key :=
  let passwordBuffer := utf8_encode masterPassword in
  pbkdf2_sha256 passwordBuffer salt 100000.

(** [encryptVault], lines 52-89 *)
Definition encryptVault (vault : Vault) (masterPassword : string) (e : Entropy)
  : result string :=
  let '(salt, e) := getRandomValues 16 e in
  let '(iv, _) := getRandomValues 12 e in
  let key := deriveKey masterPassword salt in
  let vaultJson := JSON_stringify (vault_to_js vault) in
  let vaultBuffer := utf8_encode vaultJson in
  let encryptedBuffer := aes_gcm_encrypt key iv vaultBuffer in
  let combined := salt ++ iv ++ encryptedBuffer in
  (binary <- String_fromCharCode combined ;;
   let base64 := btoa binary in
   Ok base64)%js.

(** The error [decryptVault] throws from its [catch] block. *)
Definition DecryptionError : JsError :=
  new_Error "Failed to decrypt vault. Wrong password?".

(** The [try] block of [decryptVault], lines 101-131 *)
Definition decryptVault_try (encryptedVault masterPassword : string)
  : result JsValue :=
  (combined <- or_throw (atob encryptedVault) InvalidCharacterError ;;
   let salt := slice 0 16 combined in
   let iv := slice 16 28 combined in
   let encryptedData := slice_from 28 combined in
   let key := deriveKey masterPassword salt in
   decryptedBuffer <- or_throw (aes_gcm_decrypt key iv encryptedData) OperationError ;;
   let vaultJson := utf8_decode decryptedBuffer in
   vault <- or_throw (JSON_parse vaultJson) SyntaxError ;;
   if entries_length_defined vault then Ok vault else Err TypeError)%js.

(** [decryptVault], lines 94-136 *)
Definition decryptVault (encryptedVault masterPassword : string) : result JsValue :=
  try_catch (decryptVault_try encryptedVault masterPassword)
            (fun error => Err DecryptionError).

(** The salt and the nonce one call of [encryptVault] draws. *)
Definition salt_of (e : Entropy) : list byte := fst (getRandomValues 16 e).
Definition iv_of (e : Entropy) : list byte :=
  fst (getRandomValues 12 (snd (getRandomValues 16 e))).

(** The data [encryptVault] hands to AES-GCM. *)
Definition plaintext_of (v : Vault) : list byte :=
  utf8_encode (JSON_stringify (vault_to_js v)).

(** The bytes [encryptVault] combines: salt, nonce and the output of
    AES-GCM. *)
Definition combined_of (v : Vault) (p : string) (e : Entropy) : list byte :=
  salt_of e ++ iv_of e
  ++ aes_gcm_encrypt (deriveKey p (salt_of e)) (iv_of e) (plaintext_of v).

End VaultCodec.

(** ** [generatePassword] ([src/lib/crypto.ts], lines 148-157) *)

Definition charset : string :=
  "abcdefghijklmnopqrstuvwxyzABCDEFGHIJKLMNOPQRSTUVWXYZ0123456789!@#$%^&*()_+-=[]{}|;:,.<>?".

(** What [password += s[i]] appends: the character at [i], and the text
    "undefined" where the string has none. *)
Definition char_at (s : string) (i : nat) : string :=
  match String.get i s with
  | Some c => String c ""
  | None => "undefined"
  end.

(** [randomValues[i] % charset.length] *)
Definition charset_index (b : byte) : nat :=
  (N.to_nat (Byte.to_N b) mod String.length charset)%nat.

(** [generatePassword(length)], for an integer [length]; without an
    argument, [length] is 16.  [new Uint8Array(length)] throws a RangeError
    on a negative length and on one beyond what the engine allocates, and
    [crypto.getRandomValues] a QuotaExceededError on an array of more than
    65536 bytes.  The loop runs over the indices of [randomValues], so that
    [randomValues[i]] is always a byte. *)
Definition generatePassword {limits : Limits} (length : option Z) (e : Entropy)
  : result string * Entropy :=
  let length := match length with Some n => n | None => 16%Z end in
  if (length <? 0)%Z || (max_byte_length <? length)%Z then (Err RangeError, e)
  else if (65536 <? length)%Z then (Err QuotaExceededError, e)
  else
    let '(randomValues, e) := getRandomValues (Z.to_nat length) e in
    let password :=
      fold_left
        (fun password i =>
           (password ++ char_at charset (charset_index (nth i randomValues x00)))%string)
        (seq 0 (Z.to_nat length)) "" in
    (Ok password, e).

(** ** The world of the client: network, clock, local storage, page state *)

Record Request : Type := mkRequest {
  req_method : string;
  req_url : string;
  req_headers : list (string * string);
  req_body : option string
}.

(** A [Response] as the code reads it: [res.status], what [res.json()]
    resolves to (nothing when it rejects), and what [res.text()] resolves to
    at the place the code calls it (nothing when it rejects, as the Fetch
    standard has it once [res.json()] has consumed the body). *)
Record Response : Type := mkResponse {
  status : Z;
  res_json : option JsValue;
  res_text : option string
}.

(** [res.ok] *)
Definition ok (res : Response) : bool :=
  ((200 <=? status res) && (status res <=? 299))%Z.

(** [fetch] resolves to a response or rejects (no response was obtained). *)
Inductive FetchOutcome : Type :=
| NetworkError
| Reply (res : Response).

Inductive Event : Type :=
| Fetched (req : Request)
| Alerted (msg : string).

(** The state of the earlier [App] component ([useState]); of its state
    variables, those the vault upload and the password change read or set. *)
Record AppState : Type := mkApp {
  email : string;
  masterPassword : string;
  vault : JsValue;
  vaultVersion : Z;
  currentPasswordForChange : string;
  newPasswordForChange : string
}.

Record World : Type := mkWorld {
  (** [localStorage] at the key "zcloudpass_session", the only one used *)
  storage : option string;
  (** what the page has done so far, oldest first *)
  log : list Event;
  (** how many answers have been drawn from the clock and from the keyed
      crypto module so far *)
  ticks : nat;
  (** the component's state *)
  ui : AppState
}.

(** The engine's [Date]: [Date.parse] (nothing for NaN) and
    [Date.prototype.toISOString] on a time value in milliseconds. *)
Class DateApi : Type := {
  Date_parse : string -> option Z;
  toISOString : Z -> string
}.

(** What the page cannot choose: the time and the answers of the network.
    The clock is read by the number of answers drawn so far; a request is
    answered in view of everything the page has done before it, so that one
    [fetch_reply] stands for one server and network behaviour, stateful or
    not. *)
Class Environment : Type := {
  clock : nat -> Z;
  fetch_reply : list Event -> Request -> FetchOutcome
}.

(** Code that reads and changes the world and can throw. *)
Definition M (A : Type) : Type := World -> result A * World.

Definition ret {A} (a : A) : M A := fun w => (Ok a, w).

Definition throw {A} (e : JsError) : M A := fun w => (Err e, w).

Definition bind {A B} (m : M A) (k : A -> M B) : M B :=
  fun w =>
    match m w with
    | (Ok a, w') => k a w'
    | (Err e, w') => (Err e, w')
    end.

(** [try { m } catch (err) { h(err) }] *)
Definition catch {A} (m : M A) (h : JsError -> M A) : M A :=
  fun w =>
    match m w with
    | (Ok a, w') => (Ok a, w')
    | (Err e, w') => h e w'
    end.

Definition lift {A} (r : result A) : M A := fun w => (r, w).

Declare Scope io_scope.
Delimit Scope io_scope with io.
Bind Scope io_scope with M.
Notation "x <- m ;; k" := (bind m (fun x => k))
  (at level 61, m at next level, right associativity) : io_scope.
Notation "m ;;; k" := (bind m (fun _ => k))
  (at level 61, right associativity) : io_scope.

Definition set_storage (s : option string) (w : World) : World :=
  mkWorld s (log w) (ticks w) (ui w).

Definition add_event (e : Event) (w : World) : World :=
  mkWorld (storage w) (log w ++ [e]) (ticks w) (ui w).

Definition tick (w : World) : World :=
  mkWorld (storage w) (log w) (S (ticks w)) (ui w).

Definition set_ui (s : AppState) (w : World) : World :=
  mkWorld (storage w) (log w) (ticks w) s.

Section Primitives.

Context {env : Environment}.

(** [Date.now()] *)
Definition Date_now : M Z := fun w => (Ok (clock (ticks w)), tick w).

(** [fetch(url, init)]: the request is recorded, then answered. *)
Definition fetch (req : Request) : M Response :=
  fun w =>
    match fetch_reply (log w) req with
    | NetworkError => (Err TypeError, add_event (Fetched req) w)
    | Reply res => (Ok res, add_event (Fetched req) w)
    end.

(** [alert(msg)] *)
Definition alert (msg : string) : M unit :=
  fun w => (Ok tt, add_event (Alerted msg) w).

Definition localStorage_getItem : M (option string) :=
  fun w => (Ok (storage w), w).

Definition localStorage_setItem (v : string) : M unit :=
  fun w => (Ok tt, set_storage (Some v) w).

Definition localStorage_removeItem : M unit :=
  fun w => (Ok tt, set_storage None w).

End Primitives.

(** ** The API module *)

Definition API_BASE : string := "http://localhost:3000/api/v1".

Record SessionInfo : Type := mkSession {
  token : JsAny;
  expires_at : string
}.

(** The object a [SessionInfo] is at run time, as [JSON.stringify] sees it: a
    property whose value is [undefined] is left out. *)
Definition session_to_js (info : SessionInfo) : JsValue :=
  JObj (match token info with
        | Some t => [("token", t)]
        | None => []
        end ++ [("expires_at", JStr (expires_at info))]).

Record ApiError : Type := mkApiError {
  code : JsAny;
  message : JsAny;
  err_status : Z
}.

Definition is_digit (c : ascii) : bool :=
  let n := N_of_ascii c in ((48 <=? n) && (n <=? 57))%N.

(** A pattern of literal characters and digits ([None] is [\d]), matched at
    the start of a string. *)
Fixpoint match_prefix (pat : list (option ascii)) (s : string) : bool :=
  match pat, s with
  | [], _ => true
  | _ :: _, EmptyString => false
  | None :: pat', String c r => is_digit c && match_prefix pat' r
  | Some k :: pat', String c r => Ascii.eqb c k && match_prefix pat' r
  end.

(** [/^\d{4}-\d{2}-\d{2} \d{2}:\d{2}:\d{2}/] *)
Definition space_form : list (option ascii) :=
  let d := @None ascii in
  let l (c : ascii) := Some c in
  [d; d; d; d; l "-"; d; d; l "-"; d; d; l " "; d; d; l ":"; d; d; l ":"; d; d]%char.

Section Api.

Context {json : Json} {date : DateApi} {env : Environment}.

Local Open Scope io_scope.

(** [normalizeExpiresToISO], lines 14-32.  [new Date(s)] does not throw, so
    the [try] of lines 25-29 catches nothing. *)
Definition normalizeExpiresToISO (expires : string) : M string :=
  if String.eqb expires "" then
    now <- Date_now ;; ret (toISOString (now + 60 * 60 * 1000))
  else
    match Date_parse expires with
    | Some t => ret (toISOString t)
    | None =>
        match (if match_prefix space_form expires
               then Date_parse (replace " " "T" expires ++ "Z")
               else None) with
        | Some t => ret (toISOString t)
        | None =>
            match Date_parse (replace " " "T" expires ++ "Z") with
            | Some t => ret (toISOString t)
            | None => now <- Date_now ;; ret (toISOString (now + 60 * 60 * 1000))
            end
        end
    end.

(** [saveSession], lines 34-40 *)
Definition saveSession (info : SessionInfo) : M unit :=
  e <- normalizeExpiresToISO (expires_at info) ;;
  let normalized := mkSession (token info) e in
  localStorage_setItem (JSON_stringify (session_to_js normalized)).

(** [loadSession], lines 42-50.  [null] is [JNull]. *)
Definition loadSession : M JsValue :=
  raw <- localStorage_getItem ;;
  match raw with
  | None => ret JNull
  | Some raw =>
      if String.eqb raw "" then ret JNull
      else
        match JSON_parse raw with
        | Some v => ret v
        | None => ret JNull
        end
  end.

(** [clearSession], lines 52-54 *)
Definition clearSession : M unit := localStorage_removeItem.

(** [isSessionExpired], lines 56-64 *)
Definition isSessionExpired (session : JsValue) : M bool :=
  catch
    (expires <- lift (get_member (Some session) "expires_at") ;;
     match Date_parse (js_String expires) with
     | None => ret true
     | Some exp => now <- Date_now ;; ret (exp <? now)%Z
     end)
    (fun _ => ret true).

(** [parseErrorResponse], lines 66-77 *)
Definition parseErrorResponse (res : Response) : ApiError :=
  match res_json res with
  | Some body =>
      let code := js_or (get_prop (Some body) "error") (get_prop (Some body) "code") in
      let message :=
        js_or (js_or (get_prop (Some body) "message") (get_prop (Some body) "error"))
              (Some (JStr (JSON_stringify body))) in
      mkApiError code message (status res)
  | None =>
      let text := match res_text res with Some t => t | None => "" end in
      mkApiError None
        (js_or (Some (JStr text)) (Some (JStr ("HTTP " ++ string_of_Z (status res)))))
        (status res)
  end.

(** [const e = new Error(msg); e.code = code; throw e].  [new Error] converts
    a message that is not [undefined] to a string. *)
Definition error_with_code (msg : JsAny) (code : JsAny) : JsError :=
  mkError "Error"
    (match msg with
     | None => ""
     | Some _ => js_String msg
     end)
    code.

(** [`http_${err.status}`] *)
Definition http_code (err : ApiError) : string :=
  "http_" ++ string_of_Z (err_status err).

Definition json_headers : list (string * string) :=
  [("Content-Type", "application/json")].

(** [tryPostJson], lines 79-86 *)
Definition tryPostJson (url : string) (body : JsValue) : M Response :=
  fetch (mkRequest "POST" url json_headers (Some (JSON_stringify body))).

(** [API_BASE.replace("/api/v1", "")] *)
Definition rootBase : string := replace "/api/v1" "" API_BASE.

(** The object [{ email }], with [master_password] when it is given and not
    empty (lines 92-93). *)
Definition session_payload (email : string) (masterPassword : option string) : JsValue :=
  JObj (("email", JStr email)
        :: match masterPassword with
           | Some p => if String.eqb p "" then [] else [("master_password", JStr p)]
           | None => []
           end).

(** Lines 111-124 of [createSessionForEmail]: what is made of the response
    the chain of requests ended with. *)
Definition session_of_response (res : Response) : M SessionInfo :=
  if negb (ok res) then
    let err := parseErrorResponse res in
    throw (error_with_code
             (js_or (message err) (Some (JStr "Failed to create session")))
             (js_or (code err) (Some (JStr (http_code err)))))
  else
    data <- lift (or_throw (res_json res) SyntaxError) ;;
    session_token <- lift (get_member (Some data) "session_token") ;;
    expires <- lift (get_member (Some data) "expires_at") ;;
    expires_at <- normalizeExpiresToISO (js_String expires) ;;
    let info := mkSession session_token expires_at in
    saveSession info ;;;
    ret info.

(** [createSessionForEmail], lines 88-125 *)
Definition createSessionForEmail (email : string) (masterPassword : option string)
  : M SessionInfo :=
  let payload := session_payload email masterPassword in
  res <- tryPostJson (API_BASE ++ "/auth/session") payload ;;
  res <- (if (status res =? 404)%Z
          then tryPostJson (API_BASE ++ "/auth/login") payload
          else ret res) ;;
  res <- (if (status res =? 404)%Z
          then tryPostJson (rootBase ++ "/auth/session") payload
          else ret res) ;;
  res <- (if (status res =? 404)%Z
          then tryPostJson (rootBase ++ "/auth/login") payload
          else ret res) ;;
  session_of_response res.

(** [ensureSession], lines 127-136 *)
Definition ensureSession (email : string) (masterPassword : option string)
  : M JsValue :=
  s <- loadSession ;;
  expired <- (if negb (truthy (Some s)) then ret true else isSessionExpired s) ;;
  if expired then
    info <- createSessionForEmail email masterPassword ;;
    ret (session_to_js info)
  else ret s.

(** [authHeadersIfAvailable], lines 138-142 *)
Definition authHeadersIfAvailable : M (list (string * string)) :=
  s <- loadSession ;;
  expired <- (if negb (truthy (Some s)) then ret true else isSessionExpired s) ;;
  if expired then ret []
  else ret [("Authorization", ("Bearer " ++ js_String (get_prop (Some s) "token"))%string)].

Fixpoint header (k : string) (headers : list (string * string)) : option string :=
  match headers with
  | [] => None
  | (k', v) :: rest => if String.eqb k k' then Some v else header k rest
  end.

(** [registerUser], lines 162-196 *)
Definition registerUser (email : string) (encryptedVault : option string)
  (masterPassword username : option string) : M JsValue :=
  if String.eqb email "" then throw (new_Error "email is required")
  else
    match masterPassword with
    | None => throw (new_Error "masterPassword is required for registration")
    | Some masterPassword =>
        if String.eqb masterPassword "" then
          throw (new_Error "masterPassword is required for registration")
        else
          let payload :=
            JObj ([("email", JStr email);
                   ("master_password", JStr masterPassword);
                   ("encrypted_vault",
                    match encryptedVault with Some v => JStr v | None => JNull end)]
                  ++ match username with
                     | Some u => if String.eqb u "" then [] else [("username", JStr u)]
                     | None => []
                     end) in
          res <- fetch (mkRequest "POST" (API_BASE ++ "/auth/register") json_headers
                          (Some (JSON_stringify payload))) ;;
          if negb (ok res) then
            let err := parseErrorResponse res in
            throw (error_with_code (message err)
                     (js_or (code err) (Some (JStr (http_code err)))))
          else
            createSessionForEmail email (Some masterPassword) ;;;
            lift (or_throw (res_json res) SyntaxError)
    end.

(** What [getVault] resolves to. *)
Record VaultData : Type := mkVaultData {
  encrypted_vault : JsValue;
  vault_version : option Z
}.

(** [typeof v === "number" ? v : undefined] *)
Definition number_or_undefined (v : JsAny) : option Z :=
  match v with
  | Some (JNum n) => Some n
  | _ => None
  end.

(** [getVault], lines 198-228 *)
Definition getVault (email : string) (masterPassword : option string) : M VaultData :=
  if String.eqb email "" then throw (new_Error "email is required to fetch vault")
  else
    ensureSession email masterPassword ;;;
    auth <- authHeadersIfAvailable ;;
    let headers := auth ++ json_headers in
    res <- fetch (mkRequest "GET" (API_BASE ++ "/vault/") headers None) ;;
    if negb (ok res) then
      let err := parseErrorResponse res in
      throw (error_with_code (message err)
               (js_or (code err) (Some (JStr (http_code err)))))
    else
      data <- lift (or_throw (res_json res) SyntaxError) ;;
      ret (mkVaultData
             (match js_nullish (get_prop (Some data) "encrypted_vault") (Some JNull) with
              | Some v => v
              | None => JNull
              end)
             (number_or_undefined (get_prop (Some data) "vault_version"))).

(** The object [updateVault] sends (lines 244-245). *)
Definition update_payload (encryptedVault : string) (vault_version : option Z)
  : list (string * JsValue) :=
  ("encrypted_vault", JStr encryptedVault)
  :: match vault_version with
     | Some n => [("vault_version", JNum n)]
     | None => []
     end.

(** [updateVault], lines 230-272.  It resolves to the parsed response body,
    or to [null] when the body is not JSON. *)
Definition updateVault (email encryptedVault : string)
  (masterPassword : option string) (vault_version : option Z) : M JsValue :=
  if String.eqb email "" then throw (new_Error "email is required to update vault")
  else
    ensureSession email masterPassword ;;;
    auth <- authHeadersIfAvailable ;;
    let headers := auth ++ json_headers in
    let payload := JObj (update_payload encryptedVault vault_version) in
    res <- fetch (mkRequest "PUT" (API_BASE ++ "/vault/") headers
                    (Some (JSON_stringify payload))) ;;
    if (status res =? 409)%Z then
      let err := parseErrorResponse res in
      throw (error_with_code
               (js_or (message err) (Some (JStr "Conflict updating vault")))
               (js_or (code err) (Some (JStr "conflict"))))
    else if negb (ok res) then
      let err := parseErrorResponse res in
      throw (error_with_code
               (js_or (message err) (Some (JStr "Failed to update vault")))
               (js_or (code err) (Some (JStr (http_code err)))))
    else
      match res_json res with
      | Some v => ret v
      | None => ret JNull
      end.

(** [login], lines 274-281 *)
Definition login (email : string) (masterPassword : option string) : M SessionInfo :=
  if String.eqb email ""
     || negb (truthy (option_map JStr masterPassword))
  then throw (new_Error "email and masterPassword required for login")
  else createSessionForEmail email masterPassword.

(** [changePassword], lines 283-311 *)
Definition changePassword (currentPassword newPassword : string) : M JsValue :=
  auth <- authHeadersIfAvailable ;;
  let headers := auth ++ json_headers in
  match header "Authorization" headers with
  | None => throw (new_Error "Not authenticated")
  | Some _ =>
      res <- fetch (mkRequest "POST" (API_BASE ++ "/auth/change-password") headers
                      (Some (JSON_stringify
                               (JObj [("current_password", JStr currentPassword);
                                      ("new_password", JStr newPassword)])))) ;;
      if negb (ok res) then
        let err := parseErrorResponse res in
        throw (error_with_code
                 (js_or (message err) (Some (JStr "Failed to change password")))
                 (js_or (code err) (Some (JStr (http_code err)))))
      else lift (or_throw (res_json res) SyntaxError)
  end.

(** [logout], lines 313-326 *)
Definition logout : M unit :=
  catch
    (auth <- authHeadersIfAvailable ;;
     let headers := auth ++ json_headers in
     match header "Authorization" headers with
     | Some _ =>
         fetch (mkRequest "POST" (API_BASE ++ "/auth/logout") headers None) ;;;
         ret tt
     | None => ret tt
     end)
    (fun _ => ret tt) ;;;
  clearSession.

(** [getSessionToken], lines 328-332: the token, or [null]. *)
Definition getSessionToken : M JsAny :=
  s <- loadSession ;;
  expired <- (if negb (truthy (Some s)) then ret true else isSessionExpired s) ;;
  if expired then ret (Some JNull) else ret (get_prop (Some s) "token").

End Api.

(** *** The health checks *)

Section Health.

Context {env : Environment}.

Local Open Scope io_scope.

(** [fetch(url)] without options: a GET with no headers of the page's own
    and no body. *)
Definition fetch_url (url : string) : M Response :=
  fetch (mkRequest "GET" url [] None).

(** [fetchHealth], lines 144-151 *)
Definition fetchHealth : M string :=
  res <- fetch_url (replace "/api/v1" "" API_BASE ++ "/health") ;;
  if negb (ok res) then
    let txt := match res_text res with Some t => t | None => "" end in
    throw (new_Error ("Health check failed: " ++ string_of_Z (status res) ++ " " ++ txt))
  else lift (or_throw (res_text res) TypeError).

(** [fetchAuthHealth], lines 153-160 *)
Definition fetchAuthHealth : M string :=
  res <- fetch_url (API_BASE ++ "/auth/health") ;;
  if negb (ok res) then
    let txt := match res_text res with Some t => t | None => "" end in
    throw (new_Error ("Auth health check failed: " ++ string_of_Z (status res) ++ " " ++ txt))
  else lift (or_throw (res_text res) TypeError).

End Health.

(** ** The earlier API module *)

(** The module as it was before sessions took a master password: one
    endpoint for session creation, no normalisation of the expiry, no codes
    on errors.  [loadSession] and [clearSession] are the ones above. *)
Module EarlierApi.

(** A session as this module stores it: the two fields of the response as
    they came, whatever they are. *)
Record SessionInfo : Type := mkSession {
  token : JsAny;
  expires_at : JsAny
}.

Definition session_to_js (info : SessionInfo) : JsValue :=
  JObj (match token info with
        | Some t => [("token", t)]
        | None => []
        end ++
        match expires_at info with
        | Some e => [("expires_at", e)]
        | None => []
        end).

Section Api.

Context {json : Json} {date : DateApi} {env : Environment}.

Local Open Scope io_scope.

(** [new Date(v).getTime()], nothing for NaN: a string is parsed; [null], a
    boolean and a number are the time value they convert to, when it is
    within 8.64e15 ms of the epoch; [undefined] is NaN; an array or object
    is parsed as the string it converts to. *)
Definition new_Date (v : JsAny) : option Z :=
  match v with
  | None => None
  | Some JNull => Some 0%Z
  | Some (JBool b) => Some (if b then 1 else 0)%Z
  | Some (JNum n) => if (Z.abs n <=? 8640000000000000)%Z then Some n else None
  | Some (JStr s) => Date_parse s
  | Some v => Date_parse (value_to_string v)
  end.

(** [saveSession], lines 8-10 *)
Definition saveSession (info : SessionInfo) : M unit :=
  localStorage_setItem (JSON_stringify (session_to_js info)).

(** [isSessionExpired], lines 26-33.  A comparison with NaN is false. *)
Definition isSessionExpired (session : JsValue) : M bool :=
  catch
    (expires <- lift (get_member (Some session) "expires_at") ;;
     let exp := new_Date expires in
     now <- Date_now ;;
     ret (match exp with
          | Some exp => (exp <? now)%Z
          | None => false
          end))
    (fun _ => ret true).

(** [createSessionForEmail], lines 35-58 *)
Definition createSessionForEmail (email : string) : M SessionInfo :=
  res <- fetch (mkRequest "POST" (API_BASE ++ "/auth/session") json_headers
                  (Some (JSON_stringify (JObj [("email", JStr email)])))) ;;
  if negb (ok res) then
    let text := match res_text res with Some t => t | None => "" end in
    throw (new_Error ("Failed to create session: " ++ string_of_Z (status res)
                      ++ " " ++ text))
  else
    data <- lift (or_throw (res_json res) SyntaxError) ;;
    session_token <- lift (get_member (Some data) "session_token") ;;
    expires <- lift (get_member (Some data) "expires_at") ;;
    let info := mkSession session_token expires in
    saveSession info ;;;
    ret info.

(** [ensureSession], lines 60-66 *)
Definition ensureSession (email : string) : M JsValue :=
  s <- loadSession ;;
  expired <- (if negb (truthy (Some s)) then ret true else isSessionExpired s) ;;
  if expired then
    info <- createSessionForEmail email ;;
    ret (session_to_js info)
  else ret s.

(** [authHeadersIfAvailable], lines 68-72 *)
Definition authHeadersIfAvailable : M (list (string * string)) :=
  s <- loadSession ;;
  expired <- (if negb (truthy (Some s)) then ret true else isSessionExpired s) ;;
  if expired then ret []
  else ret [("Authorization", ("Bearer " ++ js_String (get_prop (Some s) "token"))%string)].

(** [registerUser], lines 83-97 *)
Definition registerUser (email encryptedVault : string) : M JsValue :=
  res <- fetch (mkRequest "POST" (API_BASE ++ "/auth/register") json_headers
                  (Some (JSON_stringify
                           (JObj [("email", JStr email);
                                  ("encrypted_vault", JStr encryptedVault)])))) ;;
  if negb (ok res) then
    let txt := match res_text res with Some t => t | None => "" end in
    throw (new_Error ("Registration failed: " ++ string_of_Z (status res) ++ " " ++ txt))
  else lift (or_throw (res_json res) SyntaxError).

(** [getVault], lines 109-131: it resolves to [data.encrypted_vault], which
    may be [undefined]. *)
Definition getVault (email : string) : M JsAny :=
  ensureSession email ;;;
  auth <- authHeadersIfAvailable ;;
  let headers := auth ++ json_headers in
  res <- fetch (mkRequest "GET" (API_BASE ++ "/vault/") headers None) ;;
  if negb (ok res) then
    let txt := match res_text res with Some t => t | None => "" end in
    throw (new_Error ("Failed to get vault: " ++ string_of_Z (status res) ++ " " ++ txt))
  else
    data <- lift (or_throw (res_json res) SyntaxError) ;;
    lift (get_member (Some data) "encrypted_vault").

(** [updateVault], lines 142-160 *)
Definition updateVault (email encryptedVault : string) : M unit :=
  ensureSession email ;;;
  auth <- authHeadersIfAvailable ;;
  let headers := auth ++ json_headers in
  res <- fetch (mkRequest "PUT" (API_BASE ++ "/vault/") headers
                  (Some (JSON_stringify (JObj [("encrypted_vault", JStr encryptedVault)])))) ;;
  if negb (ok res) then
    let txt := match res_text res with Some t => t | None => "" end in
    throw (new_Error ("Failed to update vault: " ++ string_of_Z (status res) ++ " " ++ txt))
  else ret tt.

(** [login], lines 166-168 *)
Definition login (email : string) : M SessionInfo := createSessionForEmail email.

(** [logout], lines 173-175 *)
Definition logout : M unit := clearSession.

(** [getSessionToken], lines 180-184 *)
Definition getSessionToken : M JsAny :=
  s <- loadSession ;;
  expired <- (if negb (truthy (Some s)) then ret true else isSessionExpired s) ;;
  if expired then ret (Some JNull) else ret (get_prop (Some s) "token").

End Api.

End EarlierApi.

(** ** The earlier [App] component: vault upload and password change *)

(** The component imports [generateKey], [encryptVault] and [decryptVault]
    from a [./crypto] module whose functions take a key; that module is not
    among the sources ([src/lib/crypto.ts] takes the password), so the three
    functions are parameters.  Each may throw, and may answer differently
    from one call to the next: it is given the number of answers drawn so
    far. *)
Class KeyedCrypto : Type := {
  CryptoKey : Type;
  generateKey : nat -> string -> result CryptoKey;
  encryptVault_key : nat -> JsValue -> CryptoKey -> result string;
  decryptVault_key : nat -> JsValue -> CryptoKey -> result JsValue
}.

Definition BACKEND_VAULT_URL : string := "http://localhost:3000/api/v1/vault".

(** What [putVaultWithVersion] resolves to: [{ ok, conflict }]. *)
Record PutResult : Type := mkPutResult {
  put_ok : bool;
  conflict : bool
}.

Section App.

Context {json : Json} {date : DateApi} {env : Environment} {keyed : KeyedCrypto}.

Local Open Scope io_scope.

(** One answer of the keyed crypto module. *)
Definition draw {A} (f : nat -> result A) : M A :=
  fun w => (f (ticks w), tick w).

(** The setters of [useState], with a value or with an updater. *)
Definition setVault (v : JsValue) : M unit :=
  fun w =>
    let s := ui w in
    (Ok tt, set_ui (mkApp (email s) (masterPassword s) v (vaultVersion s)
                      (currentPasswordForChange s) (newPasswordForChange s)) w).

Definition setVaultVersion (f : Z -> Z) : M unit :=
  fun w =>
    let s := ui w in
    (Ok tt, set_ui (mkApp (email s) (masterPassword s) (vault s) (f (vaultVersion s))
                      (currentPasswordForChange s) (newPasswordForChange s)) w).

Definition setMasterPassword (p : string) : M unit :=
  fun w =>
    let s := ui w in
    (Ok tt, set_ui (mkApp (email s) p (vault s) (vaultVersion s)
                      (currentPasswordForChange s) (newPasswordForChange s)) w).

Definition setCurrentPasswordForChange (p : string) : M unit :=
  fun w =>
    let s := ui w in
    (Ok tt, set_ui (mkApp (email s) (masterPassword s) (vault s) (vaultVersion s)
                      p (newPasswordForChange s)) w).

Definition setNewPasswordForChange (p : string) : M unit :=
  fun w =>
    let s := ui w in
    (Ok tt, set_ui (mkApp (email s) (masterPassword s) (vault s) (vaultVersion s)
                      (currentPasswordForChange s) p) w).

(** [putVaultWithVersion], lines 166-205 of the component.  [s] is the state
    the closure was rendered with. *)
Definition putVaultWithVersion (s : AppState) (encryptedVault : string) : M PutResult :=
  token <- getSessionToken ;;
  if negb (truthy token) then
    throw (new_Error "No active session. Please login again.")
  else
    res <- fetch (mkRequest "PUT" BACKEND_VAULT_URL
                    [("Content-Type", "application/json");
                     ("Authorization", ("Bearer " ++ js_String token)%string)]
                    (Some (JSON_stringify
                             (JObj [("encrypted_vault", JStr encryptedVault);
                                    ("vault_version", JNum (vaultVersion s))])))) ;;
    if (status res =? 409)%Z then
      latestData <- getVault (email s) (Some (masterPassword s)) ;;
      alert "Conflict detected while updating vault. Reloading latest vault." ;;;
      (if truthy (Some (encrypted_vault latestData)) then
         key <- draw (fun n => generateKey n (masterPassword s)) ;;
         dec <- draw (fun n => decryptVault_key n (encrypted_vault latestData) key) ;;
         setVault dec ;;;
         match vault_version latestData with
         | Some n => setVaultVersion (fun _ => n)
         | None => ret tt
         end
       else ret tt) ;;;
      ret (mkPutResult false true)
    else if negb (ok res) then
      let txt := match res_text res with Some t => t | None => "" end in
      throw (new_Error ("Failed to update vault: " ++ string_of_Z (status res)
                        ++ " " ++ txt))
    else
      setVaultVersion (fun v => number_add v 1) ;;;
      ret (mkPutResult true false).

(** [`${err.message || err}`] *)
Definition error_text (err : JsError) : string :=
  if String.eqb (err_message err) "" then err_name err else err_message err.

(** [handleChangePassword], lines 238-273 of the component *)
Definition handleChangePassword (s : AppState) : M unit :=
  if String.eqb (currentPasswordForChange s) ""
     || String.eqb (newPasswordForChange s) ""
  then alert "Please provide both current and new passwords."
  else
    catch
      (vaultData <- getVault (email s) (Some (currentPasswordForChange s)) ;;
       let encryptedVault := encrypted_vault vaultData in
       decVault <-
         (if truthy (Some encryptedVault) then
            keyOld <- draw (fun n => generateKey n (currentPasswordForChange s)) ;;
            draw (fun n => decryptVault_key n encryptedVault keyOld)
          else ret (JObj [("passwords", JArr [])])) ;;
       keyNew <- draw (fun n => generateKey n (newPasswordForChange s)) ;;
       reEncrypted <- draw (fun n => encryptVault_key n decVault keyNew) ;;
       putResult <- putVaultWithVersion s reEncrypted ;;
       if conflict putResult then
         alert "Conflict when updating vault during password change. Aborting."
       else
         changePassword (currentPasswordForChange s) (newPasswordForChange s) ;;;
         setMasterPassword (newPasswordForChange s) ;;;
         setCurrentPasswordForChange "" ;;;
         setNewPasswordForChange "" ;;;
         alert "Password changed successfully. Vault re-encrypted locally and uploaded.")
      (fun err => alert ("Failed to change password: " ++ error_text err)).

End App.

(** ** The earlier [App] component: the other handlers *)

Module EarlierApp.

(** The state variables of the component that [AppState] leaves out. *)
Record FormState : Type := mkForm {
  loggedIn : bool;
  site : string;
  username : string;
  password : string
}.

Definition setLoggedIn (b : bool) (f : FormState) : FormState :=
  mkForm b (site f) (username f) (password f).

(** [setSite(""); setUsername(""); setPassword("")] *)
Definition clear_fields (f : FormState) : FormState := mkForm (loggedIn f) "" "" "".

(** [{ passwords: [] }] *)
Definition empty_vault : JsValue := JObj [("passwords", JArr [])].

Section Handlers.

Context {json : Json} {date : DateApi} {env : Environment} {keyed : KeyedCrypto}.

(** The strings that iterating a string yields, one for each code point: a
    function of the platform. *)
Variable code_points : string -> list string.

Local Open Scope io_scope.

(** [[...v]]: the elements of an array, the code points of a string; a
    TypeError on what is not iterable. *)
Definition spread (v : JsAny) : result (list JsValue) :=
  match v with
  | Some (JArr l) => Ok l
  | Some (JStr s) => Ok (map JStr (code_points s))
  | _ => Err TypeError
  end.

(** The handlers run on the state [s], [f] they were rendered with; what
    they set of [s] is set in the world, and what they set of [f] is in the
    form they return.

    [handleRegister], lines 130-142.  [err.message] is a string, so that
    [err?.message ?? String(err)] is the message. *)
Definition handleRegister (s : AppState) (f : FormState) : M FormState :=
  catch
    (key <- draw (fun n => generateKey n (masterPassword s)) ;;
     encryptedVault <- draw (fun n => encryptVault_key n (vault s) key) ;;
     registerUser (email s) (Some encryptedVault) (Some (masterPassword s)) None ;;;
     login (email s) (Some (masterPassword s)) ;;;
     alert "Registered successfully!" ;;;
     ret (setLoggedIn true f))
    (fun err =>
       alert ("Registration failed: " ++ err_message err) ;;;
       ret f).

(** [handleLogin], lines 144-164 *)
Definition handleLogin (s : AppState) (f : FormState) : M FormState :=
  catch
    (login (email s) (Some (masterPassword s)) ;;;
     data <- getVault (email s) (Some (masterPassword s)) ;;
     let encryptedVault :=
       match js_nullish (Some (encrypted_vault data)) (Some JNull) with
       | Some v => v
       | None => JNull
       end in
     let initialVersion :=
       match vault_version data with
       | Some n => n
       | None => 0%Z
       end in
     (if truthy (Some encryptedVault) then
        key <- draw (fun n => generateKey n (masterPassword s)) ;;
        decryptedVault <- draw (fun n => decryptVault_key n encryptedVault key) ;;
        setVault decryptedVault
      else setVault empty_vault) ;;;
     setVaultVersion (fun _ => initialVersion) ;;;
     ret (setLoggedIn true f))
    (fun err =>
       alert ("Login failed: " ++ err_message err) ;;;
       ret f).

(** [handleAddPassword], lines 207-227.  What is thrown before the [try]
    is thrown by the handler. *)
Definition handleAddPassword (s : AppState) (f : FormState) : M FormState :=
  passwords <- lift (get_member (Some (vault s)) "passwords") ;;
  items <- lift (spread passwords) ;;
  let newVault :=
    JObj [("passwords",
           JArr (items ++ [JObj [("site", JStr (site f));
                                 ("username", JStr (username f));
                                 ("password", JStr (password f))]]))] in
  setVault newVault ;;;
  key <- draw (fun n => generateKey n (masterPassword s)) ;;
  encryptedVault <- draw (fun n => encryptVault_key n newVault key) ;;
  catch
    (putVaultWithVersion s encryptedVault ;;; ret tt)
    (fun err => alert ("Failed to save vault: " ++ error_text err)) ;;;
  ret (clear_fields f).

(** [handleLogout], lines 229-236.  [apiLogout()] is not awaited: its
    request, if it sends one, goes out at once, and the stored session is
    removed when the request has settled; the world that results is the
    one after that. *)
Definition handleLogout (s : AppState) (f : FormState) : M FormState :=
  logout ;;;
  setVault empty_vault ;;;
  setMasterPassword "" ;;;
  setVaultVersion (fun _ => 0%Z) ;;;
  alert "Logged out." ;;;
  ret (setLoggedIn false f).

End Handlers.

End EarlierApp.

(** ** The [Vault] component ([src/components/Vault.tsx]) *)

(** The component calls [api.getVault] and [api.updateVault] of a module
    [lib/api] that is not among the sources: what they answer is a
    parameter of the handlers.  The vault and its entries are values of the
    types the component declares for them. *)
Module VaultComponent.

(** What code outside the sources has thrown: an [Error], or a value that
    is not one. *)
Inductive Thrown : Type :=
| ThrownError (e : JsError)
| ThrownOther.

(** How an awaited call of that code has ended. *)
Inductive Outcome (A : Type) : Type :=
| Resolved (a : A)
| Rejected (err : Thrown).
Arguments Resolved {A} a.
Arguments Rejected {A} err.

(** [err instanceof Error ? err.message : fallback] *)
Definition message_or (fallback : string) (err : Thrown) : string :=
  match err with
  | ThrownError e => err_message e
  | ThrownOther => fallback
  end.

(** [s || ""] and [s || undefined] on an optional string *)
Definition or_empty (o : option string) : string :=
  match o with
  | Some s => s
  | None => ""
  end.

Definition or_undefined (s : string) : option string :=
  if String.eqb s "" then None else Some s.

(** [entryForm], lines 68-74 *)
Module Form.

Record t : Type := mk {
  name : string;
  username : string;
  password : string;
  url : string;
  notes : string
}.

Definition empty : t := mk "" "" "" "" "".

End Form.

(** The state variables that the handlers of the entries read or set. *)
Module Edit.

Record State : Type := mkState {
  vault : option Vault;
  saving : bool;
  error : string;
  masterPassword : string;
  editingEntry : option VaultEntry;
  dialogOpen : bool;
  entryForm : Form.t
}.

Definition setVault (v : option Vault) (st : State) : State :=
  mkState v (saving st) (error st) (masterPassword st) (editingEntry st)
    (dialogOpen st) (entryForm st).

Definition setSaving (b : bool) (st : State) : State :=
  mkState (vault st) b (error st) (masterPassword st) (editingEntry st)
    (dialogOpen st) (entryForm st).

Definition setError (msg : string) (st : State) : State :=
  mkState (vault st) (saving st) msg (masterPassword st) (editingEntry st)
    (dialogOpen st) (entryForm st).

Definition setEditingEntry (x : option VaultEntry) (st : State) : State :=
  mkState (vault st) (saving st) (error st) (masterPassword st) x
    (dialogOpen st) (entryForm st).

Definition setDialogOpen (b : bool) (st : State) : State :=
  mkState (vault st) (saving st) (error st) (masterPassword st) (editingEntry st)
    b (entryForm st).

Definition setEntryForm (form : Form.t) (st : State) : State :=
  mkState (vault st) (saving st) (error st) (masterPassword st) (editingEntry st)
    (dialogOpen st) form.

End Edit.

(** The state variables that loading and unlocking read or set.  The vault
    is here the value that [decryptVault] has returned. *)
Module Lock.

Record State : Type := mkState {
  vault : option JsValue;
  loading : bool;
  error : string;
  masterPassword : string;
  unlocked : bool
}.

Definition setVault (v : option JsValue) (st : State) : State :=
  mkState v (loading st) (error st) (masterPassword st) (unlocked st).

Definition setLoading (b : bool) (st : State) : State :=
  mkState (vault st) b (error st) (masterPassword st) (unlocked st).

Definition setError (msg : string) (st : State) : State :=
  mkState (vault st) (loading st) msg (masterPassword st) (unlocked st).

Definition setUnlocked (b : bool) (st : State) : State :=
  mkState (vault st) (loading st) (error st) (masterPassword st) b.

End Lock.

(** [s.includes(sub)] *)
Fixpoint includes (sub s : string) : bool :=
  String.prefix sub s
  || match s with
     | EmptyString => false
     | String _ rest => includes sub rest
     end.

Section Handlers.

Context {crypto : WebCrypto} {text : TextCodec} {json : Json} {limits : Limits}.

(** [(await api.getVault()).encrypted_vault], and how
    [api.updateVault({ encrypted_vault })] ends for a blob. *)
Variable api_getVault : Outcome JsAny.
Variable api_updateVault : string -> Outcome unit.

(** [loadVault], lines 76-99.  The second component is whether [onLogout]
    was called. *)
Definition loadVault (st : Lock.State) : Lock.State * bool :=
  let st := Lock.setLoading true st in
  match api_getVault with
  | Resolved encrypted_vault =>
      let st :=
        if truthy encrypted_vault
        then Lock.setUnlocked false (Lock.setVault None st)
        else Lock.setUnlocked true
               (Lock.setVault (Some (vault_to_js (mkVault []))) st) in
      (Lock.setLoading false st, false)
  | Rejected err =>
      let st := Lock.setError (message_or "Failed to load vault" err) st in
      (Lock.setLoading false st,
       match err with
       | ThrownError e => includes "Session expired" (err_message e)
       | ThrownOther => false
       end)
  end.

(** [handleUnlock], lines 105-125.  [atob] converts its argument to a
    string. *)
Definition handleUnlock (st : Lock.State) : Lock.State :=
  let st1 := Lock.setError "" st in
  match api_getVault with
  | Resolved encrypted_vault =>
      if negb (truthy encrypted_vault) then Lock.setError "No vault found" st1
      else
        match decryptVault (js_String encrypted_vault) (Lock.masterPassword st) with
        | Ok decrypted => Lock.setUnlocked true (Lock.setVault (Some decrypted) st1)
        | Err _ => Lock.setError "Failed to unlock vault. Wrong password?" st1
        end
  | Rejected _ => Lock.setError "Failed to unlock vault. Wrong password?" st1
  end.

(** [saveVault], lines 127-140.  What [encryptVault] throws is an
    [Error]. *)
Definition saveVault (updatedVault : Vault) (rnd : Entropy) (st : Edit.State)
  : Edit.State :=
  let st1 := Edit.setError "" (Edit.setSaving true st) in
  Edit.setSaving false
    (match encryptVault updatedVault (Edit.masterPassword st) rnd with
     | Ok encrypted =>
         match api_updateVault encrypted with
         | Resolved _ => Edit.setVault (Some updatedVault) st1
         | Rejected err => Edit.setError (message_or "Failed to save vault" err) st1
         end
     | Err err =>
         Edit.setError (message_or "Failed to save vault" (ThrownError err)) st1
     end).

(** [handleAddEntry], lines 142-146 *)
Definition handleAddEntry (st : Edit.State) : Edit.State :=
  Edit.setDialogOpen true (Edit.setEntryForm Form.empty (Edit.setEditingEntry None st)).

(** [handleEditEntry], lines 148-158 *)
Definition handleEditEntry (entry : VaultEntry) (st : Edit.State) : Edit.State :=
  Edit.setDialogOpen true
    (Edit.setEntryForm
       (Form.mk (name entry) (or_empty (username entry)) (or_empty (password entry))
          (or_empty (url entry)) (or_empty (notes entry)))
       (Edit.setEditingEntry (Some entry) st)).

(** The entry that [handleSaveEntry] makes of the form (lines 163-170);
    [now] is what [Date.now()] answers, if it is asked. *)
Definition newEntry (now : Z) (st : Edit.State) : VaultEntry :=
  let form := Edit.entryForm st in
  mkEntry
    (match Edit.editingEntry st with
     | Some editingEntry =>
         if String.eqb (id editingEntry) "" then string_of_Z now else id editingEntry
     | None => string_of_Z now
     end)
    (Form.name form)
    (or_undefined (Form.username form))
    (or_undefined (Form.password form))
    (or_undefined (Form.url form))
    (or_undefined (Form.notes form)).

(** [handleSaveEntry], lines 160-178 *)
Definition handleSaveEntry (now : Z) (rnd : Entropy) (st : Edit.State) : Edit.State :=
  match Edit.vault st with
  | None => st
  | Some vault =>
      if String.eqb (Edit.masterPassword st) "" then st
      else
        let updatedEntries :=
          match Edit.editingEntry st with
          | Some editingEntry =>
              map (fun e => if String.eqb (id e) (id editingEntry)
                            then newEntry now st else e)
                  (entries vault)
          | None => entries vault ++ [newEntry now st]
          end in
        Edit.setDialogOpen false (saveVault (mkVault updatedEntries) rnd st)
  end.

(** [handleDeleteEntry], lines 180-184; [confirmed] is the answer to
    "Delete this entry?", if it is asked. *)
Definition handleDeleteEntry (target : string) (confirmed : bool) (rnd : Entropy)
  (st : Edit.State) : Edit.State :=
  match Edit.vault st with
  | None => st
  | Some vault =>
      if String.eqb (Edit.masterPassword st) "" || negb confirmed then st
      else
        let updatedEntries :=
          filter (fun e => negb (String.eqb (id e) target)) (entries vault) in
        saveVault (mkVault updatedEntries) rnd st
  end.

(** [handleGeneratePassword], lines 190-192 *)
Definition handleGeneratePassword (rnd : Entropy) (st : Edit.State) : result Edit.State :=
  let form := Edit.entryForm st in
  match fst (generatePassword (Some 16%Z) rnd) with
  | Ok generated =>
      Ok (Edit.setEntryForm
            (Form.mk (Form.name form) (Form.username form) generated
               (Form.url form) (Form.notes form)) st)
  | Err err => Err err
  end.

End Handlers.

End VaultComponent.

(** ** The [Register] component *)

(** Strings are taken by their code units, which the characters of a
    [string] stand for: [pwd.length] is their number, and a character class
    of a regular expression is tested on each of them. *)
Module RegisterComponent.

Import VaultComponent.

Definition code (c : ascii) : N := N_of_ascii c.

(** [/[A-Z]/], [/[0-9]/] and [/[^A-Za-z0-9]/] on one code unit *)
Definition upper (c : ascii) : bool := ((65 <=? code c) && (code c <=? 90))%N.
Definition lower (c : ascii) : bool := ((97 <=? code c) && (code c <=? 122))%N.
Definition digit (c : ascii) : bool := ((48 <=? code c) && (code c <=? 57))%N.
Definition other (c : ascii) : bool := negb (upper c || lower c || digit c).

(** [re.test(s)] for a regular expression that is one character class *)
Definition test (class : ascii -> bool) (s : string) : bool :=
  existsb class (list_ascii_of_string s).

Record Strength : Type := mkStrength {
  strength : string;
  color : string
}.

(** [getPasswordStrength], lines 31-46 *)
Definition getPasswordStrength (pwd : string) : Strength :=
  if (String.length pwd <? 8)%nat then mkStrength "Weak" "text-red-500"
  else if (String.length pwd <? 12)%nat then mkStrength "Medium" "text-yellow-500"
  else if (16 <=? String.length pwd)%nat && test upper pwd && test digit pwd
          && test other pwd
  then mkStrength "Strong" "text-green-500"
  else mkStrength "Medium" "text-yellow-500".

Record State : Type := mkState {
  username : string;
  email : string;
  password : string;
  confirmPassword : string;
  loading : bool;
  error : string
}.

Definition setLoading (b : bool) (st : State) : State :=
  mkState (username st) (email st) (password st) (confirmPassword st) b (error st).

Definition setError (msg : string) (st : State) : State :=
  mkState (username st) (email st) (password st) (confirmPassword st) (loading st) msg.

(** What [api.register] is called with. *)
Record Registration : Type := mkRegistration {
  reg_username : option string;
  reg_email : string;
  master_password : string;
  encrypted_vault : string
}.

Section Handlers.

Context {crypto : WebCrypto} {text : TextCodec} {json : Json} {limits : Limits}.

(** How [api.register] and [api.login], of the module that is not among
    the sources, end. *)
Variable api_register : Registration -> Outcome unit.
Variable api_login : string -> string -> Outcome unit.

(** [handleSubmit], lines 48-90.  The second component is whether
    [onRegisterSuccess] was called. *)
Definition handleSubmit (rnd : Entropy) (st : State) : State * bool :=
  let st1 := setError "" st in
  if negb (String.eqb (password st) (confirmPassword st)) then
    (setError "Passwords do not match" st1, false)
  else if (String.length (password st) <? 8)%nat then
    (setError "Password must be at least 8 characters long" st1, false)
  else
    let st2 := setLoading true st1 in
    let emptyVault := createEmptyVault in
    let failed (err : Thrown) :=
      (setLoading false (setError (message_or "Registration failed" err) st2), false) in
    match encryptVault emptyVault (password st) rnd with
    | Err err => failed (ThrownError err)
    | Ok encryptedVault =>
        match api_register (mkRegistration (or_undefined (username st)) (email st)
                              (password st) encryptedVault) with
        | Rejected err => failed err
        | Resolved _ =>
            match api_login (email st) (password st) with
            | Rejected err => failed err
            | Resolved _ => (setLoading false st2, true)
            end
        end
    end.

End Handlers.

End RegisterComponent.

(** ** The [Settings] component *)

Module SettingsComponent.

Import VaultComponent.

Record State : Type := mkState {
  currentPassword : string;
  newPassword : string;
  confirmPassword : string;
  loading : bool;
  error : string;
  success : string
}.

Definition setError (msg : string) (st : State) : State :=
  mkState (currentPassword st) (newPassword st) (confirmPassword st) (loading st)
    msg (success st).

Definition setSuccess (msg : string) (st : State) : State :=
  mkState (currentPassword st) (newPassword st) (confirmPassword st) (loading st)
    (error st) msg.

Definition setLoading (b : bool) (st : State) : State :=
  mkState (currentPassword st) (newPassword st) (confirmPassword st) b
    (error st) (success st).

(** [setCurrentPassword(""); setNewPassword(""); setConfirmPassword("")] *)
Definition clear_passwords (st : State) : State :=
  mkState "" "" "" (loading st) (error st) (success st).

Section Handlers.

(** How [api.changePassword({ current_password, new_password })] ends. *)
Variable api_changePassword : string -> string -> Outcome unit.

(** [handleChangePassword] of the component ([src/components/Vault.tsx],
    lines 527-567).  The second component is whether the logout was
    scheduled, two seconds ahead. *)
Definition handleChangePassword (st : State) : State * bool :=
  let st1 := setSuccess "" (setError "" st) in
  if negb (String.eqb (newPassword st) (confirmPassword st)) then
    (setError "New passwords do not match" st1, false)
  else if (String.length (newPassword st) <? 8)%nat then
    (setError "New password must be at least 8 characters long" st1, false)
  else
    let st2 := setLoading true st1 in
    match api_changePassword (currentPassword st) (newPassword st) with
    | Resolved _ =>
        (setLoading false
           (clear_passwords
              (setSuccess "Password changed successfully! Please log in again." st2)),
         true)
    | Rejected err =>
        (setLoading false (setError (message_or "Failed to change password" err) st2),
         false)
    end.

End Handlers.

End SettingsComponent.

(** ** The routes of [App] ([src/App.tsx]) *)

Module AppRoutes.

Inductive Page : Type := LoginPage | RegisterPage | VaultPage | SettingsPage.

(** What a route renders: a page, or [<Navigate to=... replace />]. *)
Inductive Element : Type :=
| Show (page : Page)
| Navigate (to : string).

(** The routes, lines 37-84, for a location that is the path of one of
    them as it is written. *)
Definition routes (isAuthenticated : bool) : list (string * Element) :=
  [("/login", if isAuthenticated then Navigate "/vault" else Show LoginPage);
   ("/register", if isAuthenticated then Navigate "/vault" else Show RegisterPage);
   ("/vault", if isAuthenticated then Show VaultPage else Navigate "/login");
   ("/settings", if isAuthenticated then Show SettingsPage else Navigate "/login");
   ("/", Navigate (if isAuthenticated then "/vault" else "/login"))].

Fixpoint element_at (path : string) (rs : list (string * Element)) : option Element :=
  match rs with
  | [] => None
  | (p, el) :: rest => if String.eqb p path then Some el else element_at path rest
  end.

(** The page that is shown in the end, and where, after at most [fuel]
    steps of rendering, a redirection being the step to its target. *)
Fixpoint settle (fuel : nat) (isAuthenticated : bool) (path : string)
  : option (string * Page) :=
  match fuel with
  | O => None
  | S fuel' =>
      match element_at path (routes isAuthenticated) with
      | Some (Show page) => Some (path, page)
      | Some (Navigate to) => settle fuel' isAuthenticated to
      | None => None
      end
  end.

(** [handleLoginSuccess] and [handleLogout], lines 24-33, on the state
    [isAuthenticated] and the location; [api.logout()] is a call of the
    module that is not among the sources. *)
Definition handleLoginSuccess (st : bool * string) : bool * string := (true, "/vault").

Definition handleLogout (st : bool * string) : bool * string := (false, "/login").

End AppRoutes.

(** ** Platforms to compute with *)

Module Demo.

Fixpoint bytes_eqb (a b : list byte) : bool :=
  match a, b with
  | [], [] => true
  | x :: a', y :: b' => Byte.eqb x y && bytes_eqb a' b'
  | _, _ => false
  end.

(** An authenticated cipher with the interface of AES-GCM: the data is left
    as it is and followed by a 16-byte tag, the first 16 bytes of an HMAC of
    iv and data under the key; decryption recomputes the tag. *)
Definition tag (k iv data : list byte) : list byte :=
  let digest := HMAC.hmac_sha256 k (iv ++ data) in
  map (fun i => nth i digest x00) (seq 0 16).

Definition seal (k iv data : list byte) : list byte := data ++ tag k iv data.

Definition unseal (k iv sealed : list byte) : option (list byte) :=
  let n := (List.length sealed - 16)%nat in
  let data := firstn n sealed in
  if (16 <=? List.length sealed)%nat && bytes_eqb (skipn n sealed) (tag k iv data)
  then Some data
  else None.

(** Web Crypto with PBKDF2 over HMAC-SHA-256 as the standards define it,
    and the cipher above. *)
Definition pbkdf2_crypto : WebCrypto :=
  Build_WebCrypto (list byte) PBKDF2.pbkdf2_hmac_sha256 seal unseal.

(** The same with a key derivation that is cheap to run: the password
    followed by the salt. *)
Definition plain_crypto : WebCrypto :=
  Build_WebCrypto (list byte) (fun password salt _ => password ++ salt) seal unseal.

(** A string stands for the text whose UTF-8 encoding its bytes are. *)
Definition byte_text : TextCodec :=
  Build_TextCodec list_byte_of_string string_of_list_byte.

(** The limits of an engine: a call takes 120000 arguments, of the order of
    what V8 takes with its default stack, and throws with the message of V8
    beyond; a typed array has at most 2^32 elements. *)
Definition v8 : Limits :=
  Build_Limits 120000 "Maximum call stack size exceeded" 4294967296 eq_refl.

(** JSON without white space, with integers for numbers and with strings
    that need no escapes. *)
Definition dquote : ascii := ascii_of_N 34.

Definition quoted (s : string) : string :=
  (String dquote s ++ String dquote "")%string.

Fixpoint print_json (v : JsValue) : string :=
  match v with
  | JNull => "null"
  | JBool true => "true"
  | JBool false => "false"
  | JNum n => string_of_Z n
  | JStr s => quoted s
  | JArr l => ("[" ++ join "," (map print_json l) ++ "]")%string
  | JObj fields =>
      ("{" ++ join "," (map (fun kv => (quoted (fst kv) ++ ":" ++ print_json (snd kv))%string)
                            fields) ++ "}")%string
  end.

(** The characters up to the next double quote, and what follows it. *)
Fixpoint read_string (s : string) : option (string * string) :=
  match s with
  | EmptyString => None
  | String c r =>
      if Ascii.eqb c dquote then Some (EmptyString, r)
      else match read_string r with
           | Some (str, rest) => Some (String c str, rest)
           | None => None
           end
  end.

Fixpoint read_digits (s : string) (acc : Z) : Z * string :=
  match s with
  | String c r =>
      if is_digit c then read_digits r (10 * acc + (Z.of_N (N_of_ascii c) - 48))%Z
      else (acc, s)
  | EmptyString => (acc, s)
  end.

Definition drop (n : nat) (s : string) : string :=
  String.substring n (String.length s - n) s.

Fixpoint parse_value (fuel : nat) (s : string) : option (JsValue * string) :=
  match fuel with
  | O => None
  | S f =>
      match s with
      | EmptyString => None
      | String c r =>
          if Ascii.eqb c "n" then
            if String.prefix "ull" r then Some (JNull, drop 3 r) else None
          else if Ascii.eqb c "t" then
            if String.prefix "rue" r then Some (JBool true, drop 3 r) else None
          else if Ascii.eqb c "f" then
            if String.prefix "alse" r then Some (JBool false, drop 4 r) else None
          else if Ascii.eqb c dquote then
            match read_string r with
            | Some (str, rest) => Some (JStr str, rest)
            | None => None
            end
          else if Ascii.eqb c "[" then
            match r with
            | String "]" rest => Some (JArr [], rest)
            | _ => parse_elements f r []
            end
          else if Ascii.eqb c "{" then
            match r with
            | String "}" rest => Some (JObj [], rest)
            | _ => parse_members f r []
            end
          else if Ascii.eqb c "-" then
            match r with
            | String d _ =>
                if is_digit d then
                  let '(n, rest) := read_digits r 0 in Some (JNum (- n), rest)
                else None
            | EmptyString => None
            end
          else if is_digit c then
            let '(n, rest) := read_digits s 0 in Some (JNum n, rest)
          else None
      end
  end
with parse_elements (fuel : nat) (s : string) (acc : list JsValue)
  : option (JsValue * string) :=
  match fuel with
  | O => None
  | S f =>
      match parse_value f s with
      | Some (v, String "," rest) => parse_elements f rest (v :: acc)
      | Some (v, String "]" rest) => Some (JArr (rev (v :: acc)), rest)
      | _ => None
      end
  end
with parse_members (fuel : nat) (s : string) (acc : list (string * JsValue))
  : option (JsValue * string) :=
  match fuel with
  | O => None
  | S f =>
      match s with
      | String c r =>
          if Ascii.eqb c dquote then
            match read_string r with
            | Some (k, String ":" rest) =>
                match parse_value f rest with
                | Some (v, String "," rest') => parse_members f rest' ((k, v) :: acc)
                | Some (v, String "}" rest') => Some (JObj (rev ((k, v) :: acc)), rest')
                | _ => None
                end
            | _ => None
            end
          else None
      | EmptyString => None
      end
  end.

Definition parse_json (s : string) : option JsValue :=
  match parse_value (S (String.length s)) s with
  | Some (v, EmptyString) => Some v
  | _ => None
  end.

Definition compact_json : Json := Build_Json print_json parse_json.

(** The vault of the end-to-end scenario: one entry. *)
Definition mail_vault : Vault :=
  mkVault [mkEntry "1" "Mail" (Some "a@b.com") (Some "x") None None].

(** A vault with one entry, whose notes are 123470 characters. *)
Fixpoint filler (n : nat) : string :=
  match n with
  | O => ""
  | S n' => String "a" (filler n')
  end.

Definition long_notes : string := filler (N.to_nat 123470).

Definition archive_vault : Vault :=
  mkVault [mkEntry "1" "Archive" None None None (Some long_notes)].

(** An entropy source: the bytes 0, 1, 2, ... *)
Definition counting : Entropy := fun i => byte_of_N (N.of_nat i).

(** Two passwords.  The first is 71 ASCII characters; the bytes of the
    second are the SHA-256 digest of the first, and are well-formed UTF-8:
    U+004D U+5D1F U+0004 U+001F U+0072 U+0635 U+0052 U+000F U+0035 U+225D
    U+0058 U+0068 U+01EE U+0022 U+0075 U+0079 U+0075 U+006A U+0049 U+003A
    U+001A U+006D U+0043 U+0042 U+006F U+0000. *)
Definition long_password : string :=
  "correct horse battery staple correct horse battery staple 2024 #4357148".

Definition digest_password : string :=
  string_of_list_byte
    [x4d; xe5; xb4; x9f; x04; x1f; x72; xd8; xb5; x52; x0f; x35; xe2; x89; x9d; x58;
     x68; xc7; xae; x22; x75; x79; x75; x6a; x49; x3a; x1a; x6d; x43; x42; x6f; x00].

(** An engine's [Date] for the proleptic Gregorian calendar.  It reads
    [YYYY-MM-DDTHH:MM:SSZ] as UTC, as ECMAScript requires, and, by its own
    heuristics, as V8 and SpiderMonkey do, [YYYY-MM-DD HH:MM:SS] as local
    time; it reads nothing else.  [offset] is the local zone, in minutes
    east of UTC. *)
Definition days_from_civil (y m d : Z) : Z :=
  let y := if (m <=? 2)%Z then (y - 1)%Z else y in
  let era := (y / 400)%Z in
  let yoe := (y - era * 400)%Z in
  let mp := ((m + 9) mod 12)%Z in
  let doy := ((153 * mp + 2) / 5 + d - 1)%Z in
  let doe := (yoe * 365 + yoe / 4 - yoe / 100 + doy)%Z in
  (era * 146097 + doe - 719468)%Z.

Definition civil_from_days (days : Z) : Z * Z * Z :=
  let z := (days + 719468)%Z in
  let era := (z / 146097)%Z in
  let doe := (z - era * 146097)%Z in
  let yoe := ((doe - doe / 1460 + doe / 36524 - doe / 146096) / 365)%Z in
  let doy := (doe - (365 * yoe + yoe / 4 - yoe / 100))%Z in
  let mp := ((5 * doy + 2) / 153)%Z in
  let d := (doy - (153 * mp + 2) / 5 + 1)%Z in
  let m := if (mp <? 10)%Z then (mp + 3)%Z else (mp - 9)%Z in
  let y := (yoe + era * 400)%Z in
  (if (m <=? 2)%Z then (y + 1)%Z else y, m, d).

(** The number two digits at [i] denote. *)
Definition two_digits (i : nat) (s : string) : Z :=
  fst (read_digits (String.substring i 2 s) 0).

Definition date_time_pattern (sep : ascii) : list (option ascii) :=
  let d := @None ascii in
  let l (c : ascii) := Some c in
  [d; d; d; d; l "-"; d; d; l "-"; d; d; l sep; d; d; l ":"; d; d; l ":"; d; d]%char.

Definition civil_time (s : string) : option Z :=
  let y := fst (read_digits (String.substring 0 4 s) 0) in
  let mo := two_digits 5 s in
  let d := two_digits 8 s in
  let h := two_digits 11 s in
  let mi := two_digits 14 s in
  let sec := two_digits 17 s in
  if ((1 <=? mo) && (mo <=? 12) && (1 <=? d) && (d <=? 31)
      && (h <=? 23) && (mi <=? 59) && (sec <=? 59))%Z
  then Some ((((days_from_civil y mo d * 24 + h) * 60 + mi) * 60 + sec) * 1000)%Z
  else None.

Definition parse_date (offset : Z) (s : string) : option Z :=
  if match_prefix (date_time_pattern "T") s && String.eqb (drop 19 s) "Z"
  then civil_time s
  else if match_prefix (date_time_pattern " ") s && String.eqb (drop 19 s) ""
  then option_map (fun t => (t - offset * 60000)%Z) (civil_time s)
  else None.

Fixpoint zeros (n : nat) : string :=
  match n with
  | O => ""
  | S n' => String "0" (zeros n')
  end.

Definition pad (width : nat) (s : string) : string :=
  (zeros (width - String.length s) ++ s)%string.

Definition iso_string (t : Z) : string :=
  let days := (t / 86400000)%Z in
  let ms := (t mod 86400000)%Z in
  let '(y, m, d) := civil_from_days days in
  (pad 4 (string_of_Z y) ++ "-" ++ pad 2 (string_of_Z m) ++ "-" ++ pad 2 (string_of_Z d)
   ++ "T" ++ pad 2 (string_of_Z (ms / 3600000))
   ++ ":" ++ pad 2 (string_of_Z ((ms / 60000) mod 60))
   ++ ":" ++ pad 2 (string_of_Z ((ms / 1000) mod 60))
   ++ "." ++ pad 3 (string_of_Z (ms mod 1000)) ++ "Z")%string.

Definition engine (offset : Z) : DateApi := Build_DateApi (parse_date offset) iso_string.

(** A server that answers by method and path alone, with 404 and no body
    for what it does not know, and a clock that stands still. *)
Definition not_found : Response := mkResponse 404 None None.

Fixpoint lookup (method url : string) (routes : list (string * string * Response))
  : Response :=
  match routes with
  | [] => not_found
  | (m, u, res) :: rest =>
      if String.eqb m method && String.eqb u url then res else lookup method url rest
  end.

Definition static (now : Z) (routes : list (string * string * Response)) : Environment :=
  Build_Environment (fun _ => now)
    (fun _ req => Reply (lookup (req_method req) (req_url req) routes)).

(** Noon of 1 January 2024, UTC. *)
Definition noon : Z := 1704110400000.

Definition no_state : AppState := mkApp "a@b.com" "CorrectHorse9!" JNull 0 "" "".

(** A page with no session, and one with a session that is still valid at
    [noon]. *)
Definition fresh : World := mkWorld None [] 0 no_state.

Definition session_text : string :=
  print_json (JObj [("token", JStr "t0"); ("expires_at", JStr "2099-01-01T00:00:00Z")]).

Definition signed_in : World := mkWorld (Some session_text) [] 0 no_state.

(** Servers.  One knows the legacy login path only, and registration; the
    others answer the vault update with a conflict, with a conflict under a
    code of the service, with a failure that the service calls a conflict,
    and with a success that echoes a version. *)
Definition vault_url : string := (API_BASE ++ "/vault/")%string.

Definition legacy_server : Environment :=
  static noon
    [("POST", (API_BASE ++ "/auth/register")%string,
      mkResponse 201 (Some (JObj [("id", JNum 7)])) None);
     ("POST", (API_BASE ++ "/auth/login")%string,
      mkResponse 200
        (Some (JObj [("session_token", JStr "t1");
                     ("expires_at", JStr "2024-01-01T13:00:00Z")])) None)].

Definition conflict_server : Environment :=
  static noon
    [("PUT", vault_url, mkResponse 409 (Some (JObj [("message", JStr "stale")])) None)].

Definition coded_conflict_server : Environment :=
  static noon
    [("PUT", vault_url,
      mkResponse 409 (Some (JObj [("error", JStr "version_mismatch")])) None)].

Definition confused_server : Environment :=
  static noon
    [("PUT", vault_url,
      mkResponse 500
        (Some (JObj [("error", JStr "conflict"); ("message", JStr "stale")])) None)].

Definition echo_server : Environment :=
  static noon
    [("PUT", BACKEND_VAULT_URL, mkResponse 200 (Some (JObj [("vault_version", JNum 7)])) None);
     ("PUT", vault_url, mkResponse 200 (Some (JObj [("vault_version", JNum 7)])) None)].

(** A keyed crypto module: the key is the password, and a blob is the key,
    a colon and the JSON text of the vault. *)
Definition keyed : KeyedCrypto :=
  Build_KeyedCrypto string
    (fun _ p => Ok p)
    (fun _ v k => Ok (k ++ ":" ++ print_json v)%string)
    (fun _ blob k =>
       match blob with
       | JStr b =>
           if String.prefix (k ++ ":") b
           then or_throw (parse_json (drop (S (String.length k)) b)) SyntaxError
           else Err OperationError
       | _ => Err TypeError
       end).

(** The component at version 3, asked to change the master password, in a
    page with a valid session. *)
Definition rotating : AppState :=
  mkApp "a@b.com" "CorrectHorse9!" (JObj [("passwords", JArr [])]) 3
    "CorrectHorse9!" "Tr0ub4dor&3".

Definition at_version_3 : World := mkWorld (Some session_text) [] 0 rotating.

Definition stored_vault : Response :=
  mkResponse 200
    (Some (JObj [("encrypted_vault",
                  JStr ("CorrectHorse9!:" ++ print_json (JObj [("passwords", JArr [])])));
                 ("vault_version", JNum 3)])) None.

(** A server on which the upload of the component meets a conflict, and one
    on which the upload and the credential change succeed. *)
Definition racing_server : Environment :=
  static noon
    [("GET", vault_url, stored_vault);
     ("PUT", BACKEND_VAULT_URL, mkResponse 409 None (Some "version mismatch"))].

Definition willing_server : Environment :=
  static noon
    [("GET", vault_url, stored_vault);
     ("PUT", BACKEND_VAULT_URL, mkResponse 200 (Some (JObj [("vault_version", JNum 7)])) None);
     ("POST", (API_BASE ++ "/auth/change-password")%string,
      mkResponse 200 (Some (JObj [])) None)].

(** Method and path of what was sent, and the alerts, in order. *)
Definition summary (w : World) : list string :=
  map (fun ev => match ev with
                 | Fetched req => (req_method req ++ " " ++ req_url req)%string
                 | Alerted msg => msg
                 end) (log w).

(** An engine that reads, besides, what [toISOString] writes: the UTC form
    with milliseconds, [YYYY-MM-DDTHH:MM:SS.sssZ]. *)
Definition parse_iso (offset : Z) (s : string) : option Z :=
  if match_prefix (date_time_pattern "T") s
     && match_prefix [Some "."%char; None; None; None] (drop 19 s)
     && String.eqb (drop 23 s) "Z"
  then option_map (fun t => (t + fst (read_digits (String.substring 20 3 s) 0))%Z)
                  (civil_time s)
  else parse_date offset s.

Definition iso_engine (offset : Z) : DateApi := Build_DateApi (parse_iso offset) iso_string.

(** The first instant of the year 2099, UTC, at which the session of
    [signed_in] expires, and a clock that is a second past it. *)
Definition year_2099 : Z := 4070908800000.

Definition late_server : Environment := static (year_2099 + 1000) [].

(** A session as a server grants it. *)
Definition granted : SessionInfo := mkSession (Some (JStr "t1")) "2024-01-01T13:00:00Z".

(** A page whose stored session has an expiry that no engine reads. *)
Definition undated : World :=
  mkWorld (Some (print_json (JObj [("token", JStr "t0"); ("expires_at", JStr "soon")])))
    [] 0 no_state.

(** The form of the earlier component, logged in, with an entry typed. *)
Definition typed_entry : EarlierApp.FormState :=
  EarlierApp.mkForm true "example.org" "ann" "s3cret".

(** Strings of ASCII characters are iterated character by character. *)
Definition ascii_code_points (s : string) : list string :=
  map (fun c => String c "") (list_ascii_of_string s).

(** A server that registers, grants sessions at the primary path, and has
    the vault of [stored_vault]. *)
Definition full_server : Environment :=
  static noon
    [("POST", (API_BASE ++ "/auth/register")%string,
      mkResponse 201 (Some (JObj [("id", JNum 7)])) None);
     ("POST", (API_BASE ++ "/auth/session")%string,
      mkResponse 200
        (Some (JObj [("session_token", JStr "t1");
                     ("expires_at", JStr "2024-01-01T13:00:00Z")])) None);
     ("GET", vault_url, stored_vault);
     ("PUT", BACKEND_VAULT_URL, mkResponse 200 None None)].

(** The [Vault] component with two entries, unlocked with the master
    password, and servers that accept and refuse an upload. *)
Definition bank : VaultEntry :=
  mkEntry "2" "Bank" None (Some "y") (Some "https://bank.example") None.

Definition two_entries : Vault :=
  mkVault [mkEntry "1" "Mail" (Some "a@b.com") (Some "x") None None; bank].

Definition unlocked_page : VaultComponent.Edit.State :=
  VaultComponent.Edit.mkState (Some two_entries) false "" "CorrectHorse9!" None false
    VaultComponent.Form.empty.

Definition accepting (blob : string) : VaultComponent.Outcome unit :=
  VaultComponent.Resolved tt.

Definition refusing (blob : string) : VaultComponent.Outcome unit :=
  VaultComponent.Rejected (VaultComponent.ThrownError (new_Error "Session expired")).

Definition locked_page : VaultComponent.Lock.State :=
  VaultComponent.Lock.mkState None false "" "CorrectHorse9!" false.

End Demo.

(** * Notions the properties are stated with *)

(** Two worlds that differ in the number of answers drawn at most: nothing
    was sent, shown, stored or set between them. *)
Definition quiet (w w' : World) : Prop :=
  log w' = log w /\ storage w' = storage w /\ ui w' = ui w.

(** Nothing was sent, shown or set between two worlds; the stored session
    may have changed. *)
Definition silent (w w' : World) : Prop :=
  log w' = log w /\ ui w' = ui w.

(** The request that changes the credential on the server, the upload of
    the vault by the component, and the events that are neither. *)
Definition credential_change (ev : Event) : bool :=
  match ev with
  | Fetched req => String.eqb (req_url req) (API_BASE ++ "/auth/change-password")
  | Alerted _ => false
  end.

Definition vault_upload (ev : Event) : bool :=
  match ev with
  | Fetched req =>
      String.eqb (req_method req) "PUT" && String.eqb (req_url req) BACKEND_VAULT_URL
  | Alerted _ => false
  end.

Definition harmless (ev : Event) : bool :=
  negb (credential_change ev) && negb (vault_upload ev).

(** A computation sends and shows only events that satisfy [P]. *)
Definition emits {A} (P : Event -> bool) (m : M A) : Prop :=
  forall w r w', m w = (r, w') ->
  exists evs, log w' = log w ++ evs /\ forallb P evs = true.

(** A computation leaves the master password of the component as it is. *)
Definition keeps_password {A} (m : M A) : Prop :=
  forall w r w', m w = (r, w') -> masterPassword (ui w') = masterPassword (ui w).

(** A computation sends and shows nothing and leaves the component as it is. *)
Definition still {A} (m : M A) : Prop :=
  forall w r w', m w = (r, w') -> log w' = log w /\ ui w' = ui w.

Section Notions.

Context {json : Json} {date : DateApi} {env : Environment}.

(** The instant one hour after the reading of the clock. *)
Definition in_one_hour (w : World) : Z := (clock (ticks w) + 60 * 60 * 1000)%Z.

(** The endpoint shapes of session creation, in the order of the
    specification: the primary path, the legacy path, and both without the
    [/api/v1] prefix. *)
Definition session_endpoints : list string :=
  [(API_BASE ++ "/auth/session")%string; (API_BASE ++ "/auth/login")%string;
   (rootBase ++ "/auth/session")%string; (rootBase ++ "/auth/login")%string].

(** The request [tryPostJson url payload] sends, and a run of them. *)
Definition post_request (payload : JsValue) (url : string) : Request :=
  mkRequest "POST" url json_headers (Some (JSON_stringify payload)).

Definition sent (payload : JsValue) (urls : list string) : list Event :=
  map (fun u => Fetched (post_request payload u)) urls.

(** The world after some events, with nothing else changed. *)
Definition after (evs : list Event) (w : World) : World :=
  mkWorld (storage w) (log w ++ evs) (ticks w) (ui w).

(** The fallback chain as the specification words it: post to the first
    shape; on "not found", and while shapes are left, go on to the next;
    stop at the first other response. *)
Fixpoint first_found (payload : JsValue) (u : string) (rest : list string)
  : M Response :=
  bind (tryPostJson u payload)
    (fun res =>
       match rest with
       | [] => ret res
       | u' :: rest' =>
           if (status res =? 404)%Z then first_found payload u' rest' else ret res
       end).

(** The request [registerUser] sends. *)
Definition register_request (email : string) (encryptedVault : option string)
  (masterPassword : string) (username : option string) : Request :=
  mkRequest "POST" (API_BASE ++ "/auth/register") json_headers
    (Some (JSON_stringify
             (JObj ([("email", JStr email);
                     ("master_password", JStr masterPassword);
                     ("encrypted_vault",
                      match encryptedVault with Some v => JStr v | None => JNull end)]
                    ++ match username with
                       | Some u => if String.eqb u "" then [] else [("username", JStr u)]
                       | None => []
                       end)))).

(** The request [updateVault] sends, under the headers it has. *)
Definition update_request (headers : list (string * string))
  (encryptedVault : string) (vault_version : option Z) : Request :=
  mkRequest "PUT" (API_BASE ++ "/vault/") headers
    (Some (JSON_stringify (JObj (update_payload encryptedVault vault_version)))).

(** The error a refused request is turned into: the message and the code of
    the service where its body has them, the given ones where it has not. *)
Definition refusal (res : Response) (fallback : JsAny) (dflt : string) : JsError :=
  error_with_code
    (match fallback with
     | Some _ => js_or (message (parseErrorResponse res)) fallback
     | None => message (parseErrorResponse res)
     end)
    (js_or (code (parseErrorResponse res)) (Some (JStr dflt))).

(** [updateVault] gets as far as its request: the session was found or
    created, and the headers [auth] were made of it, in the world [w']. *)
Definition session_ready (email : string) (masterPassword : option string)
  (w : World) (auth : list (string * string)) (w' : World) : Prop :=
  exists s w1,
    ensureSession email masterPassword w = (Ok s, w1) /\
    authHeadersIfAvailable w1 = (Ok auth, w').

(** The request [putVaultWithVersion] sends, under the token it has read. *)
Definition upload_request (tok : JsAny) (s : AppState) (encryptedVault : string)
  : Request :=
  mkRequest "PUT" BACKEND_VAULT_URL
    [("Content-Type", "application/json");
     ("Authorization", ("Bearer " ++ js_String tok)%string)]
    (Some (JSON_stringify
             (JObj [("encrypted_vault", JStr encryptedVault);
                    ("vault_version", JNum (vaultVersion s))]))).

(** The two shapes of what the password change has sent and shown between
    [w] and [w']: nothing of weight, the master password of the component
    kept; or one upload, with nothing of weight before it, no second upload
    after it and, unless the upload was answered with a success, nothing of
    weight after it and the master password kept. *)
Definition rotation_shape (s : AppState) (w w' : World) (evs : list Event) : Prop :=
  (forallb harmless evs = true /\ masterPassword (ui w') = masterPassword (ui w)) \/
  exists pre tok enc post,
    evs = pre ++ Fetched (upload_request tok s enc) :: post /\
    forallb harmless pre = true /\
    forallb (fun ev => negb (vault_upload ev)) post = true /\
    match fetch_reply (log w ++ pre) (upload_request tok s enc) with
    | Reply res =>
        ok res = true \/
        (forallb harmless post = true /\ masterPassword (ui w') = masterPassword (ui w))
    | NetworkError =>
        forallb harmless post = true /\ masterPassword (ui w') = masterPassword (ui w)
    end.

End Notions.

(** *** Generated passwords *)

(** The 256 values of a byte. *)
Definition all_bytes : list byte := map (fun i => byte_of_N (N.of_nat i)) (seq 0 256).

(** The character [generatePassword] makes of one random byte. *)
Definition password_char (b : byte) : ascii :=
  match String.get (charset_index b) charset with
  | Some c => c
  | None => " "%char
  end.

(** Of the 256 values of a random byte, how many make the password of
    length one that is the character [c]. *)
Definition draws {limits : Limits} (c : ascii) : nat :=
  List.length
    (filter (fun b => match fst (generatePassword (Some 1%Z) (fun _ => b)) with
                      | Ok s => String.eqb s (String c "")
                      | Err _ => false
                      end)
            all_bytes).

Definition in_string (c : ascii) (s : string) : bool :=
  existsb (Ascii.eqb c) (list_ascii_of_string s).

(** *** The handlers of the component *)

(** A computation leaves the component as it is. *)
Definition keeps_ui {A} (m : M A) : Prop :=
  forall w r w', m w = (r, w') -> ui w' = ui w.

(** Any event at all. *)
Definition any_event (ev : Event) : bool := true.

(** The alert that reports a conflict on upload. *)
Definition conflict_alert : Event :=
  Alerted "Conflict detected while updating vault. Reloading latest vault.".

(** The passwords the component holds: the master password and the two
    fields of the password change. *)
Definition secrets (s : AppState) : string * string * string :=
  (masterPassword s, currentPasswordForChange s, newPasswordForChange s).

(** A computation leaves them as they are. *)
Definition keeps_secrets {A} (m : M A) : Prop :=
  forall w r w', m w = (r, w') -> secrets (ui w') = secrets (ui w).

(** The alert that reports a password change. *)
Definition changed_alert : string :=
  "Password changed successfully. Vault re-encrypted locally and uploaded.".

(** *** The entries of the vault *)

(** An entry that the form of the dialog gives back as it took it: its id
    is not empty, and none of its optional fields is present and empty. *)
Definition tidy (x : VaultEntry) : Prop :=
  id x <> "" /\ username x <> Some "" /\ password x <> Some "" /\
  url x <> Some "" /\ notes x <> Some "".

(** *** Password strength *)

(** The ratings in their order. *)
Definition rank (s : RegisterComponent.Strength) : nat :=
  if String.eqb (RegisterComponent.strength s) "Strong" then 2
  else if String.eqb (RegisterComponent.strength s) "Medium" then 1
  else 0.

(** *** Routes *)

(** The pages that show the vault or the settings of an account. *)
Definition protected (page : AppRoutes.Page) : bool :=
  match page with
  | AppRoutes.VaultPage | AppRoutes.SettingsPage => true
  | AppRoutes.LoginPage | AppRoutes.RegisterPage => false
  end.

(** The paths of the routes. *)
Definition route_paths : list string := map fst (AppRoutes.routes true).

(** * The properties *)

(** ** Base64 *)

Example btoa_Man : btoa [x4d; x61; x6e] = "TWFu".
Proof. reflexivity. Qed.

Example btoa_Ma : btoa [x4d; x61] = "TWE=".
Proof. reflexivity. Qed.

Example atob_M : atob "TQ==" = Some [x4d].
Proof. reflexivity. Qed.

Example atob_unpadded_with_space : atob "TW E" = Some [x4d; x61].
Proof. reflexivity. Qed.

Example atob_bad_length : atob "TWFuT" = None.
Proof. reflexivity. Qed.


Ltac Zify.zify_post_hook ::= Z.to_euclidean_division_equations.

Lemma byte_of_N_to_N (b : byte) : byte_of_N (Byte.to_N b) = b.
Proof.
  unfold byte_of_N.
  pose proof (Byte.to_N_bounded b) as Hb.
  rewrite N.mod_small by lia.
  now rewrite Byte.of_to_N.
Qed.

Lemma byte_of_N_eq (n : N) (b : byte) :
  (n mod 256 = Byte.to_N b)%N -> byte_of_N n = b.
Proof.
  intros H. unfold byte_of_N. rewrite H. now rewrite Byte.of_to_N.
Qed.

Lemma list_ind3 {A} (P : list A -> Prop) :
  P [] -> (forall a, P [a]) -> (forall a b, P [a; b]) ->
  (forall a b c r, P r -> P (a :: b :: c :: r)) ->
  forall l, P l.
Proof.
  intros H0 H1 H2 H3.
  assert (H : forall l, P l /\ (forall a, P (a :: l)) /\ (forall a b, P (a :: b :: l))).
  { induction l as [|x l (IH0 & IH1 & IH2)]; repeat split; auto. }
  intros l. apply H.
Qed.

Module Base64Facts.
Import Base64.

Ltac small_N n :=
  destruct n as [|n]; [|do 7 (try destruct n as [n|n|])]; try lia.

Lemma b64_index_char (n : N) : (n < 64)%N -> b64_index (b64_char n) = Some n.
Proof. intros H. small_N n; reflexivity. Qed.

Lemma b64_char_not_whitespace (n : N) : is_ascii_whitespace (b64_char n) = false.
Proof.
  destruct (N.ltb_spec n 64) as [H|H].
  - small_N n; reflexivity.
  - unfold b64_char.
    destruct (N.ltb_spec n 26); [lia|]. destruct (N.ltb_spec n 52); [lia|].
    destruct (N.ltb_spec n 62); [lia|]. destruct (N.eqb_spec n 62); [lia|].
    reflexivity.
Qed.

Lemma b64_char_not_pad (n : N) : is_pad (b64_char n) = false.
Proof.
  destruct (N.ltb_spec n 64) as [H|H].
  - small_N n; reflexivity.
  - unfold b64_char.
    destruct (N.ltb_spec n 26); [lia|]. destruct (N.ltb_spec n 52); [lia|].
    destruct (N.ltb_spec n 62); [lia|]. destruct (N.eqb_spec n 62); [lia|].
    reflexivity.
Qed.

Lemma sextets_bounded (bs : list byte) : Forall (fun n => (n < 64)%N) (sextets bs).
Proof.
  induction bs as [|a|a b|a b c r IH] using list_ind3; cbn [sextets].
  - constructor.
  - pose proof (Byte.to_N_bounded a). repeat constructor; lia.
  - pose proof (Byte.to_N_bounded a). pose proof (Byte.to_N_bounded b).
    repeat constructor; lia.
  - pose proof (Byte.to_N_bounded a). pose proof (Byte.to_N_bounded b).
    pose proof (Byte.to_N_bounded c).
    repeat (constructor; [lia|]). exact IH.
Qed.

Lemma indices_chars (l : list N) :
  Forall (fun n => (n < 64)%N) l -> indices (map b64_char l) = Some l.
Proof.
  induction 1 as [|n l Hn _ IH]; cbn [map indices]; [reflexivity|].
  now rewrite b64_index_char, IH.
Qed.

Lemma bytes_of_sextets_sextets (bs : list byte) : bytes_of_sextets (sextets bs) = bs.
Proof.
  induction bs as [|a|a b|a b c r IH] using list_ind3;
    cbn [sextets bytes_of_sextets].
  - reflexivity.
  - pose proof (Byte.to_N_bounded a).
    f_equal. apply byte_of_N_eq. lia.
  - pose proof (Byte.to_N_bounded a). pose proof (Byte.to_N_bounded b).
    f_equal; [|f_equal]; apply byte_of_N_eq; lia.
  - pose proof (Byte.to_N_bounded a). pose proof (Byte.to_N_bounded b).
    pose proof (Byte.to_N_bounded c).
    rewrite IH.
    f_equal; [|f_equal; [|f_equal]]; apply byte_of_N_eq; lia.
Qed.

Lemma sextets_length (bs : list byte) :
  exists q r : nat,
    List.length (sextets bs) = (4 * q + r)%nat /\
    ((r = 0 /\ padding bs = []) \/
     (r = 2 /\ padding bs = ["="; "="]%char) \/
     (r = 3 /\ padding bs = ["="]%char))%nat.
Proof.
  induction bs as [|a|a b|a b c r IH] using list_ind3.
  - exists 0%nat, 0%nat. cbn. auto.
  - exists 0%nat, 2%nat. cbn. auto.
  - exists 0%nat, 3%nat. cbn. auto.
  - destruct IH as (q & k & Hlen & Hk).
    exists (S q), k. split.
    + cbn [sextets List.length]. lia.
    + replace (padding (a :: b :: c :: r)) with (padding r); [exact Hk|].
      unfold padding. cbn [List.length].
      change (S (S (S (List.length r)))) with (3 + List.length r)%nat.
      replace (3 + List.length r)%nat with (List.length r + 1 * 3)%nat by lia.
      now rewrite Nat.Div0.mod_add.
Qed.

Lemma mod4_add (q r : nat) : ((4 * q + r) mod 4 = r mod 4)%nat.
Proof.
  replace (4 * q + r)%nat with (r + q * 4)%nat by lia.
  apply Nat.Div0.mod_add.
Qed.

Lemma filter_chars (l : list N) :
  filter (fun c => negb (is_ascii_whitespace c)) (map b64_char l) = map b64_char l.
Proof.
  induction l as [|n l IH]; cbn [map filter]; [reflexivity|].
  now rewrite b64_char_not_whitespace, IH.
Qed.

Lemma strip_padding_chars (l : list N) (pad : list ascii) :
  pad = [] \/ pad = ["="]%char \/ pad = ["="; "="]%char ->
  strip_padding (map b64_char l ++ pad) = map b64_char l.
Proof.
  intros [-> | [-> | ->]]; unfold strip_padding.
  - rewrite app_nil_r, <- map_rev.
    destruct (rev l) as [|n r]; cbn [map]; [reflexivity|].
    now rewrite b64_char_not_pad.
  - rewrite rev_app_distr. cbn [rev app]. change (is_pad "=") with true. cbv iota.
    pose proof (rev_involutive (map b64_char l)) as Hinv.
    remember (rev (map b64_char l)) as r1 eqn:E1.
    rewrite <- map_rev in E1.
    destruct r1 as [|c2 r2]; [exact Hinv|].
    destruct (rev l) as [|n r]; [discriminate|].
    injection E1 as -> _. now rewrite b64_char_not_pad.
  - rewrite rev_app_distr. cbn [rev app]. change (is_pad "=") with true. cbv iota.
    apply rev_involutive.
Qed.

Theorem decode_encode (bs : list byte) : decode (encode bs) = Some bs.
Proof.
  unfold decode, encode.
  destruct (sextets_length bs) as (q & r & Hlen & Hr).
  assert (Hpad : padding bs = [] \/ padding bs = ["="]%char
                 \/ padding bs = ["="; "="]%char) by intuition.
  assert (Hws : filter (fun c => negb (is_ascii_whitespace c)) (padding bs)
                = padding bs).
  { destruct Hpad as [-> | [-> | ->]]; reflexivity. }
  rewrite filter_app, filter_chars, Hws.
  assert (Hfull : (List.length (map b64_char (sextets bs) ++ padding bs) mod 4 = 0)%nat).
  { rewrite length_app, length_map, Hlen.
    destruct Hr as [(-> & ->) | [(-> & ->) | (-> & ->)]]; cbn [List.length].
    - rewrite Nat.add_0_r. now rewrite mod4_add.
    - replace (4 * q + 2 + 2)%nat with (4 * S q + 0)%nat by lia. now rewrite mod4_add.
    - replace (4 * q + 3 + 1)%nat with (4 * S q + 0)%nat by lia. now rewrite mod4_add. }
  rewrite Hfull. cbn [Nat.eqb].
  rewrite strip_padding_chars by exact Hpad.
  rewrite length_map.
  assert (Hrem : (List.length (sextets bs) mod 4 <> 1)%nat).
  { rewrite Hlen, mod4_add.
    destruct Hr as [(-> & _) | [(-> & _) | (-> & _)]]; cbn; discriminate. }
  destruct (Nat.eqb_spec (List.length (sextets bs) mod 4) 1); [contradiction|].
  rewrite indices_chars by apply sextets_bounded.
  cbn [option_map]. now rewrite bytes_of_sextets_sextets.
Qed.

End Base64Facts.

(** [atob] undoes [btoa] on every byte sequence. *)
Lemma atob_btoa (bs : list byte) : atob (btoa bs) = Some bs.
Proof.
  unfold atob, btoa.
  rewrite list_ascii_of_string_of_list_ascii.
  apply Base64Facts.decode_encode.
Qed.


(** * Properties of the vault codec *)

Lemma length_append (a b : string) :
  String.length (a ++ b) = (String.length a + String.length b)%nat.
Proof. induction a as [|c a IH]; [reflexivity|]. cbn. now rewrite IH. Qed.

Lemma getRandomValues_length (n : nat) (e : Entropy) :
  List.length (fst (getRandomValues n e)) = n.
Proof. cbn. now rewrite length_map, length_seq. Qed.

(** The fixed-offset layout: what [decryptVault] slices out of
    [salt ++ iv ++ data] is what [encryptVault] put there. *)
Lemma layout (salt iv data : list byte) :
  List.length salt = 16%nat -> List.length iv = 12%nat ->
  slice 0 16 (salt ++ iv ++ data) = salt /\
  slice 16 28 (salt ++ iv ++ data) = iv /\
  slice_from 28 (salt ++ iv ++ data) = data.
Proof.
  intros Hs Hi. unfold slice, slice_from. repeat split.
  - cbn [skipn Nat.sub].
    rewrite firstn_app, Hs, Nat.sub_diag, firstn_O, app_nil_r.
    apply firstn_all2. lia.
  - rewrite skipn_app, Hs, Nat.sub_diag.
    rewrite (skipn_all2 salt) by lia. cbn [app skipn].
    change (28 - 16)%nat with 12%nat.
    rewrite firstn_app, Hi, Nat.sub_diag, firstn_O, app_nil_r.
    apply firstn_all2. lia.
  - rewrite app_assoc, skipn_app, length_app, Hs, Hi. cbn [Nat.add Nat.sub].
    rewrite skipn_all2 by (rewrite length_app; lia). reflexivity.
Qed.

Section VaultCodecFacts.

Context {crypto : WebCrypto} {text : TextCodec} {json : Json} {limits : Limits}.

Lemma combined_of_length (v : Vault) (p : string) (e : Entropy) :
  List.length (combined_of v p e)
  = (28 + List.length (aes_gcm_encrypt (deriveKey p (salt_of e)) (iv_of e)
                         (plaintext_of v)))%nat.
Proof.
  assert (Hs : List.length (salt_of e) = 16%nat) by apply getRandomValues_length.
  assert (Hi : List.length (iv_of e) = 12%nat) by apply getRandomValues_length.
  unfold combined_of. rewrite !length_app, Hs, Hi. lia.
Qed.

(** [encryptVault] by the size of what it combines: the base64 text of the
    bytes where the engine takes them as the arguments of one call, the
    RangeError of the call where it does not. *)
Lemma encryptVault_runs (v : Vault) (p : string) (e : Entropy) :
  encryptVault v p e
  = if (N.of_nat (List.length (combined_of v p e)) <=? max_arguments)%N
    then Ok (btoa (combined_of v p e))
    else Err ArgumentsError.
Proof.
  unfold encryptVault.
  change (getRandomValues 16 e) with (salt_of e, snd (getRandomValues 16 e)).
  cbv iota beta.
  change (getRandomValues 12 (snd (getRandomValues 16 e)))
    with (iv_of e, snd (getRandomValues 12 (snd (getRandomValues 16 e)))).
  cbv iota beta zeta.
  fold (plaintext_of v). fold (combined_of v p e).
  unfold String_fromCharCode.
  now destruct (_ <=? _)%N.
Qed.

Lemma encryptVault_blob (v : Vault) (p : string) (e : Entropy) (blob : string) :
  encryptVault v p e = Ok blob ->
  blob = btoa (combined_of v p e) /\
  (N.of_nat (List.length (combined_of v p e)) <= max_arguments)%N.
Proof.
  rewrite encryptVault_runs.
  destruct (N.leb_spec (N.of_nat (List.length (combined_of v p e))) max_arguments)
    as [Hfit|Hfit]; [|discriminate].
  intros Hblob. injection Hblob as <-. now split.
Qed.

(** Decrypting a blob of [encryptVault]: the [try] block reaches AES-GCM
    with the key of the second password under the salt of the blob, the
    nonce of the blob and the ciphertext as it was produced. *)
Lemma decryptVault_try_encryptVault
  (v : Vault) (p1 p2 : string) (e : Entropy) (blob : string) :
  encryptVault v p1 e = Ok blob ->
  decryptVault_try blob p2 =
  (decryptedBuffer <-
     or_throw (aes_gcm_decrypt (deriveKey p2 (salt_of e)) (iv_of e)
                 (aes_gcm_encrypt (deriveKey p1 (salt_of e)) (iv_of e) (plaintext_of v)))
              OperationError ;;
   vault <- or_throw (JSON_parse (utf8_decode decryptedBuffer)) SyntaxError ;;
   if entries_length_defined vault then Ok vault else Err TypeError)%js.
Proof.
  intros Hblob. apply encryptVault_blob in Hblob. destruct Hblob as [-> _].
  unfold decryptVault_try, combined_of.
  rewrite atob_btoa. cbn [or_throw bind_result].
  destruct (layout (salt_of e) (iv_of e)
              (aes_gcm_encrypt (deriveKey p1 (salt_of e)) (iv_of e) (plaintext_of v)))
    as (-> & -> & ->); try apply getRandomValues_length.
  reflexivity.
Qed.

Lemma entries_length_defined_vault (v : Vault) :
  entries_length_defined (vault_to_js v) = true.
Proof. reflexivity. Qed.

(** With the same key on both sides the vault comes back. *)
Lemma same_key_accepted (v : Vault) (p1 p2 : string) (e : Entropy) (blob : string) :
  (forall k iv data, aes_gcm_decrypt k iv (aes_gcm_encrypt k iv data) = Some data) ->
  utf8_decode (plaintext_of v) = JSON_stringify (vault_to_js v) ->
  JSON_parse (JSON_stringify (vault_to_js v)) = Some (vault_to_js v) ->
  deriveKey p1 (salt_of e) = deriveKey p2 (salt_of e) ->
  encryptVault v p1 e = Ok blob ->
  decryptVault blob p2 = Ok (vault_to_js v).
Proof.
  intros Haead Htext Hjson Hkey Hblob.
  unfold decryptVault. rewrite (decryptVault_try_encryptVault v p1 p2 e blob Hblob).
  rewrite Hkey, Haead. cbn [or_throw bind_result].
  rewrite Htext, Hjson. cbn [or_throw bind_result].
  now rewrite entries_length_defined_vault.
Qed.


(** C2.  [decryptVault] fails closed.  When it returns a value, the blob
    decoded, the tag verified under the key of the given password and the
    salt of the blob, the plaintext parsed, and the value is the parsed
    plaintext whole; in every other case it throws the one
    [DecryptionError], so that two failures, whatever their causes, throw
    equal errors. *)
Theorem decryptVault_fails_closed (blob p : string) :
  match decryptVault blob p with
  | Ok v =>
      exists combined data,
        atob blob = Some combined /\
        aes_gcm_decrypt (deriveKey p (slice 0 16 combined)) (slice 16 28 combined)
          (slice_from 28 combined) = Some data /\
        JSON_parse (utf8_decode data) = Some v /\
        entries_length_defined v = true
  | Err e =>
      e = DecryptionError /\
      forall blob' p' e', decryptVault blob' p' = Err e' -> e' = e
  end.
Proof.
  assert (Herr : forall b q e, decryptVault b q = Err e -> e = DecryptionError).
  { intros b q e. unfold decryptVault, try_catch.
    destruct (decryptVault_try b q); congruence. }
  destruct (decryptVault blob p) as [v|e] eqn:E.
  - unfold decryptVault, try_catch, decryptVault_try in E.
    destruct (atob blob) as [combined|]; cbn [or_throw bind_result] in E;
      [|discriminate].
    destruct (aes_gcm_decrypt _ _ _) as [data|] eqn:Ed;
      cbn [or_throw bind_result] in E; [|discriminate].
    destruct (JSON_parse _) as [parsed|] eqn:Ep;
      cbn [or_throw bind_result] in E; [|discriminate].
    destruct (entries_length_defined parsed) eqn:El; [|discriminate].
    injection E as <-. exists combined, data. auto.
  - split; [now apply (Herr blob p)|].
    intros blob' p' e' E'. rewrite (Herr _ _ _ E'). symmetry. now apply (Herr blob p).
Qed.

(** C3, as amended.  Decrypting with a second password the blob that
    [encryptVault] made under a first one throws [DecryptionError] whenever
    AES-GCM, under the key the second password derives with the salt of the
    blob, rejects the ciphertext. *)
Theorem wrong_key_rejected (v : Vault) (p1 p2 : string) (e : Entropy) (blob : string) :
  encryptVault v p1 e = Ok blob ->
  aes_gcm_decrypt (deriveKey p2 (salt_of e)) (iv_of e)
    (aes_gcm_encrypt (deriveKey p1 (salt_of e)) (iv_of e) (plaintext_of v)) = None ->
  decryptVault blob p2 = Err DecryptionError.
Proof.
  intros Hblob Hreject.
  unfold decryptVault.
  rewrite (decryptVault_try_encryptVault v p1 p2 e blob Hblob), Hreject.
  reflexivity.
Qed.

(** The blob of [encryptVault] is the base64 text of the salt, the nonce and
    the output of AES-GCM, in this order: 28 bytes and the ciphertext with
    its tag.  It is returned where the engine takes these bytes as the
    arguments of one call; there is no other blob, and the only error is
    the RangeError of that call. *)
Theorem encryptVault_layout (v : Vault) (p : string) (e : Entropy) :
  let sealed := aes_gcm_encrypt (deriveKey p (salt_of e)) (iv_of e) (plaintext_of v) in
  match encryptVault v p e with
  | Ok blob =>
      atob blob = Some (salt_of e ++ iv_of e ++ sealed) /\
      (N.of_nat (28 + List.length sealed) <= max_arguments)%N
  | Err err =>
      err = ArgumentsError /\ (max_arguments < N.of_nat (28 + List.length sealed))%N
  end /\
  List.length (salt_of e) = 16%nat /\ List.length (iv_of e) = 12%nat /\
  List.length (salt_of e ++ iv_of e ++ sealed) = (28 + List.length sealed)%nat.
Proof.
  intros sealed.
  assert (Hs : List.length (salt_of e) = 16%nat) by apply getRandomValues_length.
  assert (Hi : List.length (iv_of e) = 12%nat) by apply getRandomValues_length.
  split; [|split; [exact Hs|split; [exact Hi|]]].
  - rewrite encryptVault_runs, combined_of_length. fold sealed.
    destruct (N.leb_spec (N.of_nat (28 + List.length sealed)) max_arguments).
    + split; [apply atob_btoa|assumption].
    + now split.
  - rewrite !length_app, Hs, Hi. lia.
Qed.

End VaultCodecFacts.

(** * The standards, checked on test vectors *)

Example sha256_constants :
  hd 0%N SHA256.K = 0x428a2f98%N /\ last SHA256.K 0%N = 0xc67178f2%N /\
  hd 0%N SHA256.H0 = 0x6a09e667%N /\ last SHA256.H0 0%N = 0x5be0cd19%N /\
  List.length SHA256.K = 64%nat.
Proof. vm_compute. repeat split. Qed.

Example sha256_abc :
  hex (SHA256.sha256 (list_byte_of_string "abc"))
  = "ba7816bf8f01cfea414140de5dae2223b00361a396177a9cb410ff61f20015ad".
Proof. vm_compute. reflexivity. Qed.

(** RFC 4231, test case 2 *)
Example hmac_sha256_rfc4231 :
  hex (HMAC.hmac_sha256 (list_byte_of_string "Jefe")
         (list_byte_of_string "what do ya want for nothing?"))
  = "5bdcc146bf60754e6a042426089575c75a003f089d2739839dec58b964ec3843".
Proof. vm_compute. reflexivity. Qed.

Example pbkdf2_one_iteration :
  hex (PBKDF2.pbkdf2_hmac_sha256 (list_byte_of_string "password")
         (list_byte_of_string "salt") 1)
  = "120fb6cffcf8b32c43e7225256c4f837a86548c92ccc35480805987cb70be17b".
Proof. vm_compute. reflexivity. Qed.

Example pbkdf2_two_iterations :
  hex (PBKDF2.pbkdf2_hmac_sha256 (list_byte_of_string "password")
         (list_byte_of_string "salt") 2)
  = "ae4d0c95af6b46d32d0adff928f06dd02a303f8ef3c251dfd6e2d85a95474c43".
Proof. vm_compute. reflexivity. Qed.

(** PBKDF2 reads the password through the HMAC key only. *)
Lemma pbkdf2_key0 (P1 P2 salt : list byte) (c : N) :
  HMAC.key0 P1 = HMAC.key0 P2 ->
  PBKDF2.pbkdf2_hmac_sha256 P1 salt c = PBKDF2.pbkdf2_hmac_sha256 P2 salt c.
Proof.
  intros H. unfold PBKDF2.pbkdf2_hmac_sha256, HMAC.hmac_sha256.
  now rewrite H.
Qed.

(** * The platforms to compute with *)

Lemma bytes_eqb_refl (a : list byte) : Demo.bytes_eqb a a = true.
Proof.
  induction a as [|x a IH]; [reflexivity|].
  cbn [Demo.bytes_eqb]. rewrite IH, andb_true_r.
  now apply Byte.byte_dec_lb.
Qed.

Lemma tag_length (k iv data : list byte) : List.length (Demo.tag k iv data) = 16%nat.
Proof. unfold Demo.tag. cbv zeta. now rewrite length_map, length_seq. Qed.

Lemma unseal_seal (k iv data : list byte) :
  Demo.unseal k iv (Demo.seal k iv data) = Some data.
Proof.
  unfold Demo.unseal, Demo.seal.
  rewrite length_app, tag_length.
  replace (List.length data + 16 - 16)%nat with (List.length data) by lia.
  rewrite firstn_app, Nat.sub_diag, firstn_O, app_nil_r, firstn_all.
  rewrite skipn_app, Nat.sub_diag, skipn_all. cbn [skipn app].
  rewrite bytes_eqb_refl, andb_true_r.
  destruct (Nat.leb_spec 16 (List.length data + 16)); [reflexivity|lia].
Qed.

(** The two passwords of [Demo] are different strings with the same HMAC
    key, the second being the digest of the first. *)
Lemma digest_password_is_digest :
  list_byte_of_string Demo.digest_password
  = SHA256.sha256 (list_byte_of_string Demo.long_password).
Proof. vm_compute. reflexivity. Qed.

Lemma key0_collision :
  HMAC.key0 (list_byte_of_string Demo.long_password)
  = HMAC.key0 (list_byte_of_string Demo.digest_password).
Proof. vm_compute. reflexivity. Qed.

Lemma seal_length (k iv data : list byte) :
  List.length (Demo.seal k iv data) = (List.length data + 16)%nat.
Proof. unfold Demo.seal. now rewrite length_app, tag_length. Qed.

Lemma length_list_byte_of_string (s : string) :
  List.length (list_byte_of_string s) = String.length s.
Proof.
  unfold list_byte_of_string. rewrite length_map.
  induction s as [|c s IH]; [reflexivity|]. cbn. now rewrite IH.
Qed.

Lemma length_filler (n : nat) : String.length (Demo.filler n) = n.
Proof. induction n as [|n IH]; [reflexivity|]. cbn. now rewrite IH. Qed.

(** The JSON text of a vault with one entry that has notes: the notes and
    52 characters around them. *)
Lemma archive_text_length (s : string) :
  String.length
    (Demo.print_json
       (vault_to_js (mkVault [mkEntry "1" "Archive" None None None (Some s)])))
  = (String.length s + 52)%nat.
Proof.
  cbn. unfold Demo.quoted. cbn. rewrite !length_append. cbn. lia.
Qed.

(** On the platforms to compute with, a vault whose JSON text has at most
    119956 characters is encrypted: with 28 bytes before it and the 16 of
    the tag after it, the text fits the 120000 arguments of a call. *)
Lemma sealed_vault_fits
  (kdf : list byte -> list byte -> N -> list byte) (v : Vault) (p : string) (e : Entropy) :
  let crypto := Build_WebCrypto (list byte) kdf Demo.seal Demo.unseal in
  (N.of_nat (String.length (Demo.print_json (vault_to_js v))) <=? 119956)%N = true ->
  encryptVault (crypto := crypto) (text := Demo.byte_text) (json := Demo.compact_json)
    (limits := Demo.v8) v p e
  = Ok (btoa (combined_of (crypto := crypto) (text := Demo.byte_text)
                (json := Demo.compact_json) v p e)).
Proof.
  intros crypto Hsize. apply N.leb_le in Hsize.
  rewrite encryptVault_runs, combined_of_length.
  cbn [aes_gcm_encrypt crypto]. rewrite seal_length.
  unfold plaintext_of. cbn [utf8_encode Demo.byte_text JSON_stringify Demo.compact_json].
  rewrite length_list_byte_of_string. cbn [max_arguments Demo.v8].
  destruct (N.leb_spec
              (N.of_nat (28 + (String.length (Demo.print_json (vault_to_js v)) + 16)))
              120000); [reflexivity|lia].
Qed.

Lemma small_vault_encrypted (v : Vault) (p : string) :
  (N.of_nat (String.length (Demo.print_json (vault_to_js v))) <=? 119956)%N = true ->
  exists blob,
    encryptVault (crypto := Demo.plain_crypto) (text := Demo.byte_text)
      (json := Demo.compact_json) (limits := Demo.v8) v p Demo.counting = Ok blob.
Proof.
  intros Hsize. eexists.
  exact (sealed_vault_fits (fun password salt _ => password ++ salt) v p Demo.counting
           Hsize).
Qed.


(** A vault with notes of 123470 characters: what [encryptVault] combines
    is 28 bytes, the 123522 bytes of the JSON text and the 16 bytes of the
    tag, more than the 120000 arguments the engine takes. *)
Lemma archive_vault_refused :
  encryptVault (crypto := Demo.plain_crypto) (text := Demo.byte_text)
    (json := Demo.compact_json) (limits := Demo.v8)
    Demo.archive_vault "CorrectHorse9!" Demo.counting
  = Err (mkError "RangeError" "Maximum call stack size exceeded" None).
Proof.
  rewrite encryptVault_runs, combined_of_length.
  cbn [aes_gcm_encrypt Demo.plain_crypto]. rewrite seal_length.
  unfold plaintext_of. cbn [utf8_encode Demo.byte_text JSON_stringify Demo.compact_json].
  rewrite length_list_byte_of_string.
  unfold Demo.archive_vault. rewrite archive_text_length.
  unfold Demo.long_notes. rewrite length_filler.
  cbn [max_arguments Demo.v8].
  destruct (N.leb_spec (N.of_nat (28 + (N.to_nat 123470 + 52 + 16))) 120000); [lia|].
  reflexivity.
Qed.

(** What [encryptVault] makes of the empty vault on that platform: base64
    text of 16 bytes of salt, 12 of nonce, the data and 16 of tag. *)
Example encryptVault_empty_vault :
  match encryptVault (crypto := Demo.plain_crypto) (text := Demo.byte_text)
          (json := Demo.compact_json) (limits := Demo.v8)
          createEmptyVault "CorrectHorse9!" Demo.counting with
  | Ok blob => option_map (@List.length byte) (atob blob)
  | Err _ => None
  end = Some (16 + 12 + 14 + 16)%nat.
Proof. vm_compute. reflexivity. Qed.

(** C3, as amended, at a concrete input: two passwords with different keys. *)
Lemma wrong_key_rejected_witness :
  exists blob,
    encryptVault (crypto := Demo.plain_crypto) (text := Demo.byte_text)
      (json := Demo.compact_json) (limits := Demo.v8)
      createEmptyVault "CorrectHorse9!" Demo.counting = Ok blob /\
    decryptVault (crypto := Demo.plain_crypto) (text := Demo.byte_text)
      (json := Demo.compact_json) blob "Tr0ub4dor&3"
    = Err DecryptionError.
Proof.
  destruct (small_vault_encrypted createEmptyVault "CorrectHorse9!" eq_refl)
    as [blob Hblob].
  exists blob. split; [exact Hblob|].
  apply (@wrong_key_rejected Demo.plain_crypto Demo.byte_text
           Demo.compact_json Demo.v8 createEmptyVault "CorrectHorse9!" "Tr0ub4dor&3"
           Demo.counting).
  - exact Hblob.
  - vm_compute. reflexivity.
Defined.

(** C3 as the specification states it fails.  Where Web Crypto derives keys
    by PBKDF2 over HMAC-SHA-256, a password longer than the 64-byte block of
    the hash and the password whose bytes are its digest derive the same
    key under every salt; so the second password, a different and
    well-formed string, decrypts what was encrypted under the first. *)
Lemma wrong_password_accepted :
  Demo.long_password <> Demo.digest_password /\
  well_formed_utf8 Demo.long_password = true /\
  well_formed_utf8 Demo.digest_password = true /\
  forall e : Entropy,
  exists blob,
    encryptVault (crypto := Demo.pbkdf2_crypto) (text := Demo.byte_text)
      (json := Demo.compact_json) (limits := Demo.v8)
      createEmptyVault Demo.long_password e = Ok blob /\
    decryptVault (crypto := Demo.pbkdf2_crypto) (text := Demo.byte_text)
      (json := Demo.compact_json) blob Demo.digest_password
    = Ok (vault_to_js createEmptyVault).
Proof.
  split; [discriminate|].
  split; [vm_compute; reflexivity|].
  split; [vm_compute; reflexivity|].
  intros e.
  pose proof (sealed_vault_fits PBKDF2.pbkdf2_hmac_sha256
                createEmptyVault Demo.long_password e eq_refl) as Hblob.
  eexists. split; [exact Hblob|].
  apply (@same_key_accepted Demo.pbkdf2_crypto Demo.byte_text Demo.compact_json Demo.v8
           createEmptyVault Demo.long_password Demo.digest_password e).
  - exact unseal_seal.
  - reflexivity.
  - reflexivity.
  - unfold deriveKey.
    cbn [pbkdf2_sha256 Demo.pbkdf2_crypto utf8_encode Demo.byte_text].
    apply pbkdf2_key0, key0_collision.
  - exact Hblob.
Qed.

(** * Properties of the API module *)

(** ** Running the monad *)

Lemma run_bind {A B} (m : M A) (k : A -> M B) (w : World) :
  bind m k w = match m w with
               | (Ok a, w1) => k a w1
               | (Err e, w1) => (Err e, w1)
               end.
Proof. reflexivity. Qed.

Lemma bind_ok {A B} (m : M A) (k : A -> M B) (w w1 : World) (a : A) :
  m w = (Ok a, w1) -> bind m k w = k a w1.
Proof. intros H. now rewrite run_bind, H. Qed.

Lemma bind_err {A B} (m : M A) (k : A -> M B) (w w1 : World) (e : JsError) :
  m w = (Err e, w1) -> bind m k w = (Err e, w1).
Proof. intros H. now rewrite run_bind, H. Qed.

Lemma run_lift {A} (r : result A) (w : World) : lift r w = (r, w).
Proof. reflexivity. Qed.

Lemma run_ret {A} (a : A) (w : World) : ret a w = (Ok a, w).
Proof. reflexivity. Qed.

Lemma run_throw {A} (e : JsError) (w : World) : @throw A e w = (Err e, w).
Proof. reflexivity. Qed.

Lemma run_catch {A} (m : M A) (h : JsError -> M A) (w : World) :
  catch m h w = match m w with
                | (Ok a, w1) => (Ok a, w1)
                | (Err e, w1) => h e w1
                end.
Proof. reflexivity. Qed.

(** One step of a run that is known by its outcome [E]. *)
Tactic Notation "step" hyp(E) :=
  rewrite run_bind in E;
  match type of E with
  | context [match ?m ?w with (r, w1) => _ end] =>
      let Em := fresh "Em" in
      let a := fresh "a" in
      let e := fresh "e" in
      let w1 := fresh "w" in
      destruct (m w) as [[a|e] w1] eqn:Em
  end.

Tactic Notation "step" hyp(E) "as" ident(a) ident(w1) ident(Em) :=
  rewrite run_bind in E;
  match type of E with
  | context [match ?m ?w with (r, w0) => _ end] =>
      let e := fresh "e" in
      destruct (m w) as [[a|e] w1] eqn:Em
  end.

Ltac done_run E := injection E as <- <-.

Lemma quiet_refl (w : World) : quiet w w.
Proof. repeat split. Qed.

Lemma quiet_trans (w1 w2 w3 : World) : quiet w1 w2 -> quiet w2 w3 -> quiet w1 w3.
Proof. unfold quiet. intros (? & ? & ?) (? & ? & ?). repeat split; congruence. Qed.

Lemma quiet_tick (w : World) : quiet w (tick w).
Proof. repeat split. Qed.

Lemma quiet_silent (w w' : World) : quiet w w' -> silent w w'.
Proof. intros (? & ? & ?). now split. Qed.

Lemma silent_refl (w : World) : silent w w.
Proof. now split. Qed.

Lemma silent_trans (w1 w2 w3 : World) : silent w1 w2 -> silent w2 w3 -> silent w1 w3.
Proof. unfold silent. intros (? & ?) (? & ?). split; congruence. Qed.

#[local] Hint Resolve quiet_refl quiet_tick quiet_silent silent_refl : core.

Section ApiFacts.

Context {json : Json} {date : DateApi} {env : Environment}.

(** ** Expiry normalisation *)

Lemma normalize_empty (w : World) :
  normalizeExpiresToISO "" w = (Ok (toISOString (in_one_hour w)), tick w).
Proof. reflexivity. Qed.

(** Whatever the engine's own parser makes of a string is the result: the
    branch that reads the space-separated form as UTC is reached only when
    the engine reads nothing from the string as it is. *)
Lemma normalize_engine_reading (expires : string) (t : Z) (w : World) :
  expires <> "" -> Date_parse expires = Some t ->
  normalizeExpiresToISO expires w = (Ok (toISOString t), w).
Proof.
  intros Hne Hp. unfold normalizeExpiresToISO.
  destruct (String.eqb_spec expires ""); [contradiction|].
  now rewrite Hp.
Qed.

Lemma normalize_repaired (expires : string) (t : Z) (w : World) :
  expires <> "" -> Date_parse expires = None ->
  Date_parse (replace " " "T" expires ++ "Z") = Some t ->
  normalizeExpiresToISO expires w = (Ok (toISOString t), w).
Proof.
  intros Hne Hp Hr. unfold normalizeExpiresToISO.
  destruct (String.eqb_spec expires ""); [contradiction|].
  rewrite Hp, Hr. now destruct (match_prefix space_form expires).
Qed.

Lemma normalize_fallback (expires : string) (w : World) :
  expires <> "" -> Date_parse expires = None ->
  Date_parse (replace " " "T" expires ++ "Z") = None ->
  normalizeExpiresToISO expires w = (Ok (toISOString (in_one_hour w)), tick w).
Proof.
  intros Hne Hp Hr. unfold normalizeExpiresToISO.
  destruct (String.eqb_spec expires ""); [contradiction|].
  rewrite Hp, Hr. now destruct (match_prefix space_form expires).
Qed.

(** [normalizeExpiresToISO] does not throw, and draws at most the time. *)
Lemma normalize_runs (expires : string) (w : World) :
  exists iso w', normalizeExpiresToISO expires w = (Ok iso, w') /\ quiet w w'.
Proof.
  unfold normalizeExpiresToISO.
  destruct (String.eqb expires ""); [eexists _, _; split; [reflexivity|auto]|].
  destruct (Date_parse expires); [eexists _, _; split; [reflexivity|auto]|].
  destruct (if match_prefix space_form expires then _ else None);
    [eexists _, _; split; [reflexivity|auto]|].
  destruct (Date_parse _); eexists _, _; (split; [reflexivity|auto]).
Qed.

(** The empty string, and a string of which the engine reads nothing, as
    it is or repaired to [...T...Z], are normalised to the instant one hour
    after the clock is read. *)
Theorem normalize_unparseable_in_one_hour (expires : string) (w : World) :
  expires = "" \/
  (Date_parse expires = None /\ Date_parse (replace " " "T" expires ++ "Z") = None) ->
  normalizeExpiresToISO expires w
  = (Ok (toISOString (clock (ticks w) + 3600000)), tick w).
Proof.
  intros [->|[Hraw Hrepaired]]; [apply normalize_empty|].
  destruct (String.eqb_spec expires "") as [->|Hne]; [apply normalize_empty|].
  now apply normalize_fallback.
Qed.

(** A string the engine's [Date] reads is normalised to the instant the
    engine reads from it. *)
Theorem normalize_keeps_parsed_instant (expires : string) (t : Z) (w : World) :
  expires <> "" -> Date_parse expires = Some t ->
  fst (normalizeExpiresToISO expires w) = Ok (toISOString t).
Proof.
  intros Hne Hp. now rewrite (normalize_engine_reading expires t w Hne Hp).
Qed.

End ApiFacts.

(** C7, where the code departs from it: on an engine whose own parser reads
    the space-separated form, as local time, in a zone one hour east of
    UTC, "2024-01-01 12:00:00" is normalised to 11:00 UTC, not to 12:00 UTC,
    and the clock is not consulted. *)
Theorem normalize_space_form_read_as_local_time (env : Environment) (w : World) :
  normalizeExpiresToISO (date := Demo.engine 60) "2024-01-01 12:00:00" w
  = (Ok "2024-01-01T11:00:00.000Z", w).
Proof.
  apply (normalize_engine_reading (date := Demo.engine 60)
           "2024-01-01 12:00:00" 1704106800000 w).
  - discriminate.
  - vm_compute. reflexivity.
Qed.

(** On an engine that reads ISO strings only, the same input is read as UTC. *)
Lemma normalize_space_form_strict_engine
  {date : DateApi} {env : Environment} (w : World) :
  Date_parse "2024-01-01 12:00:00" = None ->
  Date_parse "2024-01-01T12:00:00Z" = Some 1704110400000%Z ->
  normalizeExpiresToISO "2024-01-01 12:00:00" w = (Ok (toISOString 1704110400000), w).
Proof.
  intros Hraw Hiso.
  apply normalize_repaired; [discriminate|exact Hraw|exact Hiso].
Qed.

(** ** The fallback chain of session creation *)

Example session_endpoints_in_order :
  session_endpoints
  = ["http://localhost:3000/api/v1/auth/session";
     "http://localhost:3000/api/v1/auth/login";
     "http://localhost:3000/auth/session";
     "http://localhost:3000/auth/login"].
Proof. reflexivity. Qed.

Section ChainFacts.

Context {json : Json} {date : DateApi} {env : Environment}.

Lemma run_tryPostJson (url : string) (payload : JsValue) (w : World) :
  tryPostJson url payload w =
  (match fetch_reply (log w) (post_request payload url) with
   | NetworkError => Err TypeError
   | Reply res => Ok res
   end, after [Fetched (post_request payload url)] w).
Proof.
  unfold tryPostJson, fetch, post_request, after, add_event.
  now destruct (fetch_reply _ _).
Qed.

Lemma after_after (evs evs' : list Event) (w : World) :
  after evs' (after evs w) = after (evs ++ evs') w.
Proof. unfold after. cbn. now rewrite app_assoc. Qed.

Lemma after_nil (w : World) : after [] w = w.
Proof. unfold after. rewrite app_nil_r. now destruct w. Qed.

(** The four conditionals of the code are the traversal of the list. *)
Lemma createSessionForEmail_first_found
  (email : string) (masterPassword : option string) (w : World) :
  createSessionForEmail email masterPassword w =
  bind (first_found (session_payload email masterPassword)
          (API_BASE ++ "/auth/session")
          [(API_BASE ++ "/auth/login")%string; (rootBase ++ "/auth/session")%string;
           (rootBase ++ "/auth/login")%string])
       session_of_response w.
Proof.
  unfold createSessionForEmail. cbn [first_found].
  rewrite !run_bind, !run_tryPostJson.
  destruct (fetch_reply _ _) as [|r1]; [reflexivity|].
  destruct (status r1 =? 404)%Z eqn:E1.
  2:{ cbn [ret]. rewrite !run_bind. cbn [ret]. rewrite E1. cbn [ret].
      rewrite !run_bind. cbn [ret]. now rewrite E1. }
  rewrite !run_bind, !run_tryPostJson.
  destruct (fetch_reply _ _) as [|r2]; [reflexivity|].
  destruct (status r2 =? 404)%Z eqn:E2.
  2:{ cbn [ret]. rewrite !run_bind. cbn [ret]. now rewrite E2. }
  rewrite !run_bind, !run_tryPostJson.
  destruct (fetch_reply _ _) as [|r3]; [reflexivity|].
  destruct (status r3 =? 404)%Z eqn:E3; [|reflexivity].
  rewrite !run_bind, !run_tryPostJson.
  now destruct (fetch_reply _ _).
Qed.

(** What a traversal sends and how it ends. *)
Lemma first_found_trace (payload : JsValue) (rest : list string) :
  forall (u : string) (w : World),
  exists k : nat,
    (1 <= k <= S (List.length rest))%nat /\
    snd (first_found payload u rest w) = after (sent payload (firstn k (u :: rest))) w /\
    (forall i, (i < k - 1)%nat ->
       exists res,
         fetch_reply (log w ++ sent payload (firstn i (u :: rest)))
           (post_request payload (nth i (u :: rest) "")) = Reply res /\
         status res = 404%Z) /\
    match fetch_reply (log w ++ sent payload (firstn (k - 1) (u :: rest)))
            (post_request payload (nth (k - 1) (u :: rest) "")) with
    | NetworkError => fst (first_found payload u rest w) = Err TypeError
    | Reply res =>
        fst (first_found payload u rest w) = Ok res /\
        ((k < S (List.length rest))%nat -> status res <> 404%Z)
    end.
Proof.
  induction rest as [|u' rest' IH]; intros u w.
  - exists 1%nat. cbn [first_found]. rewrite run_bind, run_tryPostJson.
    cbn [firstn sent map Nat.sub nth List.length]. rewrite app_nil_r.
    split; [lia|]. split; [now destruct (fetch_reply _ _)|].
    split; [intros i Hi; lia|].
    destruct (fetch_reply _ _); [reflexivity|]. split; [reflexivity|lia].
  - cbn [first_found]. rewrite run_bind, run_tryPostJson.
    destruct (fetch_reply (log w) (post_request payload u)) as [|r] eqn:Er.
    + exists 1%nat. cbn [firstn sent map Nat.sub nth List.length]. rewrite app_nil_r, Er.
      split; [lia|]. split; [reflexivity|]. split; [intros i Hi; lia|]. reflexivity.
    + destruct (status r =? 404)%Z eqn:E404.
      * destruct (IH u' (after [Fetched (post_request payload u)] w))
          as (k & Hk & Hw & Hbefore & Hlast).
        exists (S k). cbn [List.length]. split; [lia|].
        split; [rewrite Hw, after_after; reflexivity|].
        split.
        -- intros [|i] Hi.
           ++ exists r. cbn [firstn sent map nth]. rewrite app_nil_r.
              split; [exact Er|]. now apply Z.eqb_eq.
           ++ destruct (Hbefore i) as (res & Hres & H404); [lia|].
              exists res. split; [|exact H404].
              cbn [after log] in Hres. rewrite <- app_assoc in Hres. exact Hres.
        -- replace (S k - 1)%nat with (S (k - 1)) by lia.
           assert (Hhist : log w ++ sent payload (firstn (S (k - 1)) (u :: u' :: rest'))
                           = log (after [Fetched (post_request payload u)] w)
                               ++ sent payload (firstn (k - 1) (u' :: rest'))).
           { cbn [after log firstn sent map]. now rewrite <- app_assoc. }
           rewrite Hhist.
           change (nth (S (k - 1)) (u :: u' :: rest') "")
             with (nth (k - 1) (u' :: rest') "").
           revert Hlast.
           match goal with
           | |- match ?x with NetworkError => _ | Reply _ => _ end -> _ => destruct x
           end; intros Hlast; [exact Hlast|].
           destruct Hlast as [Hfst Hstop]. split; [exact Hfst|].
           intros Hlt. apply Hstop. lia.
      * exists 1%nat. cbn [firstn sent map Nat.sub nth List.length ret fst snd].
        rewrite app_nil_r, Er.
        split; [lia|]. split; [reflexivity|]. split; [intros i Hi; lia|].
        split; [reflexivity|]. intros _. now apply Z.eqb_neq.
Qed.

End ChainFacts.

(** ** Reading the response that ended the chain *)

Section SessionFacts.

Context {json : Json} {date : DateApi} {env : Environment}.

Lemma err_status_parse (res : Response) :
  err_status (parseErrorResponse res) = status res.
Proof. unfold parseErrorResponse. now destruct (res_json res). Qed.

Lemma saveSession_runs (info : SessionInfo) (w : World) :
  exists e w',
    saveSession info w = (Ok tt, w') /\ silent w w' /\
    storage w' = Some (JSON_stringify (session_to_js (mkSession (token info) e))).
Proof.
  unfold saveSession.
  destruct (normalize_runs (expires_at info) w) as (e & w1 & Hn & Hq).
  rewrite (bind_ok _ _ _ _ _ Hn).
  exists e, (set_storage (Some (JSON_stringify (session_to_js (mkSession (token info) e)))) w1).
  split; [reflexivity|]. split; [|reflexivity].
  destruct Hq as (Hl & _ & Hu). now split.
Qed.

(** A response that is not a success ends in an error that carries the
    code of the service, or [http_<status>], and leaves the world as it is. *)
Lemma session_of_response_refused (res : Response) (w : World) :
  ok res = false ->
  session_of_response res w =
  (Err (error_with_code
          (js_or (message (parseErrorResponse res)) (Some (JStr "Failed to create session")))
          (js_or (code (parseErrorResponse res))
                 (Some (JStr ("http_" ++ string_of_Z (status res)))))), w).
Proof.
  intros Hok. unfold session_of_response. rewrite Hok. cbn [negb].
  unfold http_code. now rewrite err_status_parse.
Qed.

(** Otherwise nothing is sent; a session that is returned was stored. *)
Lemma session_of_response_runs
  (res : Response) (w : World) (r : result SessionInfo) (w' : World) :
  session_of_response res w = (r, w') ->
  silent w w' /\
  match r with
  | Ok info =>
      ok res = true /\
      exists e, storage w'
                = Some (JSON_stringify (session_to_js (mkSession (token info) e)))
  | Err _ => storage w' = storage w
  end.
Proof.
  intros E. unfold session_of_response in E.
  destruct (ok res); cbn [negb] in E;
    [|rewrite run_throw in E; done_run E; split; [apply silent_refl|reflexivity]].
  step E; rewrite run_lift in Em; injection Em as Em <-;
    [|done_run E; split; [apply silent_refl|reflexivity]].
  step E; rewrite run_lift in Em0; injection Em0 as Em0 <-;
    [|done_run E; split; [apply silent_refl|reflexivity]].
  step E; rewrite run_lift in Em1; injection Em1 as Em1 <-;
    [|done_run E; split; [apply silent_refl|reflexivity]].
  destruct (normalize_runs (js_String a1) w) as (iso & w1 & Hn & Hq).
  rewrite (bind_ok _ _ _ _ _ Hn) in E.
  destruct (saveSession_runs (mkSession a0 iso) w1) as (e & w2 & Hs & Hsil & Hst).
  rewrite (bind_ok _ _ _ _ _ Hs), run_ret in E. done_run E.
  split; [eapply silent_trans; [apply quiet_silent; exact Hq|exact Hsil]|].
  split; [reflexivity|]. exists e. exact Hst.
Qed.

(** C8.  Session creation posts the same payload to the endpoint shapes in
    the fixed order versioned [/auth/session], versioned [/auth/login],
    unversioned [/auth/session], unversioned [/auth/login]: to the first [k]
    of them, for some [k] from 1 to 4, and to nothing else.  Every reply
    before the last was a 404.  The last reply ends the chain: a request
    that got no response throws; a response is a 404 only if it is the
    fourth, and is what the session is read from; when it is not a success
    an error with the code of the service, or [http_<status>], is thrown. *)
Theorem createSessionForEmail_fallback_chain
  (email : string) (masterPassword : option string) (w : World) :
  let payload := session_payload email masterPassword in
  let run := createSessionForEmail email masterPassword w in
  exists k : nat,
    (1 <= k <= 4)%nat /\
    log (snd run) = log w ++ sent payload (firstn k session_endpoints) /\
    (forall i, (i < k - 1)%nat ->
       exists res,
         fetch_reply (log w ++ sent payload (firstn i session_endpoints))
           (post_request payload (nth i session_endpoints "")) = Reply res /\
         status res = 404%Z) /\
    match fetch_reply (log w ++ sent payload (firstn (k - 1) session_endpoints))
            (post_request payload (nth (k - 1) session_endpoints "")) with
    | NetworkError => fst run = Err TypeError
    | Reply res =>
        ((k < 4)%nat -> status res <> 404%Z) /\
        run = session_of_response res
                (after (sent payload (firstn k session_endpoints)) w) /\
        (ok res = false ->
         fst run =
         Err (error_with_code
                (js_or (message (parseErrorResponse res))
                       (Some (JStr "Failed to create session")))
                (js_or (code (parseErrorResponse res))
                       (Some (JStr ("http_" ++ string_of_Z (status res)))))))
    end.
Proof.
  intros payload run. subst run.
  rewrite createSessionForEmail_first_found. fold payload.
  unfold session_endpoints.
  destruct (first_found_trace payload
              [(API_BASE ++ "/auth/login")%string; (rootBase ++ "/auth/session")%string;
               (rootBase ++ "/auth/login")%string]
              (API_BASE ++ "/auth/session")%string w)
    as (k & Hk & Hw & Hbefore & Hlast).
  exists k. cbn [List.length] in Hk, Hlast.
  split; [exact Hk|].
  rewrite run_bind.
  destruct (first_found payload _ _ w) as [r w1] eqn:Erun.
  cbn [fst snd] in Hw, Hlast. subst w1.
  split.
  { destruct r as [res|e]; [|reflexivity].
    destruct (session_of_response res _) as [r' w'] eqn:Es.
    apply session_of_response_runs in Es. destruct Es as [[Hl _] _].
    exact Hl. }
  split; [exact Hbefore|].
  revert Hlast.
  match goal with
  | |- match ?x with NetworkError => _ | Reply _ => _ end -> _ => destruct x
  end.
  - intros ->. reflexivity.
  - intros [-> Hstop]. split; [exact Hstop|]. split; [reflexivity|].
    intros Hok. now rewrite session_of_response_refused.
Qed.

End SessionFacts.

(** ** The session store and the session a request needs *)

Section StoreFacts.

Context {json : Json} {date : DateApi} {env : Environment}.

Lemma loadSession_runs (w : World) : exists s, loadSession w = (Ok s, w).
Proof.
  unfold loadSession, localStorage_getItem. rewrite run_bind.
  destruct (storage w) as [raw|]; [|eexists; reflexivity].
  destruct (String.eqb raw ""); [eexists; reflexivity|].
  destruct (JSON_parse raw); eexists; reflexivity.
Qed.

Lemma isSessionExpired_runs (s : JsValue) (w : World) :
  exists b w', isSessionExpired s w = (Ok b, w') /\ quiet w w'.
Proof.
  unfold isSessionExpired. rewrite run_catch, run_bind, run_lift.
  destruct (get_member (Some s) "expires_at") as [expires|];
    [|eexists _, _; split; [reflexivity|auto]].
  destruct (Date_parse (js_String expires));
    eexists _, _; (split; [reflexivity|auto]).
Qed.

(** Whether a session is missing or expired: an answer, and no effect. *)
Lemma session_check_runs (s : JsValue) (w : World) :
  exists b w',
    (if negb (truthy (Some s)) then ret true else isSessionExpired s) w = (Ok b, w')
    /\ quiet w w'.
Proof.
  destruct (negb (truthy (Some s))); [eexists _, _; split; [reflexivity|auto]|].
  apply isSessionExpired_runs.
Qed.

Lemma authHeadersIfAvailable_runs (w : World) :
  exists auth w', authHeadersIfAvailable w = (Ok auth, w') /\ quiet w w'.
Proof.
  unfold authHeadersIfAvailable.
  destruct (loadSession_runs w) as (s & Hl). rewrite (bind_ok _ _ _ _ _ Hl).
  destruct (session_check_runs s w) as (b & w1 & Hc & Hq).
  rewrite (bind_ok _ _ _ _ _ Hc).
  destruct b; eexists _, _; (split; [reflexivity|exact Hq]).
Qed.

Lemma getSessionToken_runs (w : World) :
  exists tok w', getSessionToken w = (Ok tok, w') /\ quiet w w'.
Proof.
  unfold getSessionToken.
  destruct (loadSession_runs w) as (s & Hl). rewrite (bind_ok _ _ _ _ _ Hl).
  destruct (session_check_runs s w) as (b & w1 & Hc & Hq).
  rewrite (bind_ok _ _ _ _ _ Hc).
  destruct b; eexists _, _; (split; [reflexivity|exact Hq]).
Qed.

(** What session creation sends and leaves behind. *)
Lemma createSessionForEmail_runs
  (email : string) (masterPassword : option string) (w : World)
  (r : result SessionInfo) (w' : World) :
  createSessionForEmail email masterPassword w = (r, w') ->
  ui w' = ui w /\
  (exists posts,
     incl posts session_endpoints /\
     log w' = log w ++ sent (session_payload email masterPassword) posts) /\
  match r with
  | Ok info =>
      exists e, storage w'
                = Some (JSON_stringify (session_to_js (mkSession (token info) e)))
  | Err _ => storage w' = storage w
  end.
Proof.
  intros E. rewrite createSessionForEmail_first_found in E.
  assert (Hincl : forall k, incl (firstn k session_endpoints) session_endpoints).
  { intros k x Hx. rewrite <- (firstn_skipn k session_endpoints).
    apply in_or_app. now left. }
  destruct (first_found_trace (session_payload email masterPassword)
              [(API_BASE ++ "/auth/login")%string; (rootBase ++ "/auth/session")%string;
               (rootBase ++ "/auth/login")%string]
              (API_BASE ++ "/auth/session")%string w)
    as (k & _ & Hw & _ & _).
  rewrite run_bind in E.
  destruct (first_found _ _ _ w) as [[res|e] w1]; cbn [snd] in Hw; subst w1.
  - apply session_of_response_runs in E. destruct E as [[Hl Hu] Hr].
    split; [exact Hu|]. split; [eexists; split; [apply (Hincl k)|exact Hl]|].
    destruct r as [info|e]; [exact (proj2 Hr)|exact Hr].
  - done_run E. split; [reflexivity|].
    split; [eexists; split; [apply (Hincl k)|reflexivity]|reflexivity].
Qed.

Lemma ensureSession_runs
  (email : string) (masterPassword : option string) (w : World)
  (r : result JsValue) (w' : World) :
  ensureSession email masterPassword w = (r, w') ->
  ui w' = ui w /\
  exists posts,
    incl posts session_endpoints /\
    log w' = log w ++ sent (session_payload email masterPassword) posts.
Proof.
  intros E. unfold ensureSession in E.
  destruct (loadSession_runs w) as (s & Hl). rewrite (bind_ok _ _ _ _ _ Hl) in E.
  destruct (session_check_runs s w) as (b & w1 & Hc & (Hql & _ & Hqu)).
  rewrite (bind_ok _ _ _ _ _ Hc) in E.
  destruct b.
  - step E.
    + apply createSessionForEmail_runs in Em.
      destruct Em as (Hu & (posts & Hi & Hp) & _).
      rewrite run_ret in E. done_run E.
      split; [congruence|]. exists posts. split; [exact Hi|congruence].
    + apply createSessionForEmail_runs in Em.
      destruct Em as (Hu & (posts & Hi & Hp) & _).
      done_run E. split; [congruence|]. exists posts. split; [exact Hi|congruence].
  - rewrite run_ret in E. done_run E. split; [exact Hqu|].
    exists []. split; [intros x []|]. cbn [sent map]. now rewrite app_nil_r.
Qed.

(** [logout] leaves no stored session, whether or not its request was sent
    and whatever became of it. *)
Theorem logout_clears_session (w : World) :
  fst (logout w) = Ok tt /\ storage (snd (logout w)) = None.
Proof.
  unfold logout. rewrite run_bind, run_catch.
  destruct (authHeadersIfAvailable_runs w) as (auth & w1 & Ha & _).
  rewrite (bind_ok _ _ _ _ _ Ha).
  destruct (header "Authorization" (auth ++ json_headers)); [|now split].
  rewrite run_bind. unfold fetch.
  destruct (fetch_reply _ _); now split.
Qed.

End StoreFacts.

(** ** Registration *)

Section RegisterFacts.

Context {json : Json} {date : DateApi} {env : Environment}.

Lemma run_fetch (req : Request) (w : World) :
  fetch req w =
  (match fetch_reply (log w) req with
   | NetworkError => Err TypeError
   | Reply res => Ok res
   end, after [Fetched req] w).
Proof. unfold fetch, after, add_event. now destruct (fetch_reply _ _). Qed.


End RegisterFacts.

(** ** Vault update *)

Section UpdateFacts.

Context {json : Json} {date : DateApi} {env : Environment}.

(** [updateVault] after its guard: the session, the headers, the request
    and the reading of the response. *)
Lemma updateVault_unfold
  (email encryptedVault : string) (masterPassword : option string)
  (vault_version : option Z) (w : World) :
  email <> "" ->
  updateVault email encryptedVault masterPassword vault_version w =
  bind (ensureSession email masterPassword)
    (fun _ =>
       bind authHeadersIfAvailable
         (fun auth =>
            bind (fetch (update_request (auth ++ json_headers) encryptedVault
                           vault_version))
              (fun res =>
                 if (status res =? 409)%Z then
                   throw (refusal res (Some (JStr "Conflict updating vault")) "conflict")
                 else if negb (ok res) then
                   throw (refusal res (Some (JStr "Failed to update vault"))
                            (http_code (parseErrorResponse res)))
                 else
                   match res_json res with
                   | Some v => ret v
                   | None => ret JNull
                   end))) w.
Proof.
  intros Hemail. unfold updateVault.
  destruct (String.eqb_spec email ""); [contradiction|]. reflexivity.
Qed.

(** C10.  What [updateVault] sends: the requests of session creation, if a
    session had to be created, which are POSTs to the session endpoints, and
    then the PUT.  The PUT is sent, once, in every call that has an email
    and has found or created its session, whatever the server answers to
    it, a conflict and a failure included; a call that has thrown before
    sends none.  The body of the PUT is [JSON.stringify] of an object that
    has [vault_version] exactly when a version was passed, with that version
    as its value; when none was passed the object has the one property
    [encrypted_vault]. *)
Theorem updateVault_request_body
  (email encryptedVault : string) (masterPassword : option string)
  (vault_version : option Z) (w : World) :
  let run := updateVault email encryptedVault masterPassword vault_version w in
  let payload := update_payload encryptedVault vault_version in
  let session :=
    if String.eqb email "" then None
    else match ensureSession email masterPassword w with
         | (Ok _, w1) => Some w1
         | (Err _, _) => None
         end in
  exists (posts : list string) (puts : list Event),
    incl posts session_endpoints /\
    log (snd run) = log w ++ sent (session_payload email masterPassword) posts ++ puts /\
    match session with
    | Some w1 =>
        exists auth w2,
          authHeadersIfAvailable w1 = (Ok auth, w2) /\
          puts = [Fetched (mkRequest "PUT" (API_BASE ++ "/vault/") (auth ++ json_headers)
                             (Some (JSON_stringify (JObj payload))))]
    | None => puts = [] /\ exists e, fst run = Err e
    end /\
    assoc "encrypted_vault" payload = Some (JStr encryptedVault) /\
    assoc "vault_version" payload = option_map JNum vault_version /\
    map fst payload
    = "encrypted_vault" :: match vault_version with
                           | Some _ => ["vault_version"]
                           | None => []
                           end /\
    (vault_version = None -> payload = [("encrypted_vault", JStr encryptedVault)]).
Proof.
  intros run payload session.
  assert (Hpayload :
            assoc "encrypted_vault" payload = Some (JStr encryptedVault) /\
            assoc "vault_version" payload = option_map JNum vault_version /\
            map fst payload
            = "encrypted_vault" :: match vault_version with
                                   | Some _ => ["vault_version"]
                                   | None => []
                                   end /\
            (vault_version = None -> payload = [("encrypted_vault", JStr encryptedVault)])).
  { subst payload. destruct vault_version; repeat split; intros; try reflexivity;
      discriminate. }
  subst run session.
  destruct (String.eqb_spec email "") as [->|Hemail].
  { exists [], []. cbn. rewrite app_nil_r.
    split; [intros x []|].
    split; [reflexivity|]. split; [split; [reflexivity|eexists; reflexivity]|].
    exact Hpayload. }
  rewrite updateVault_unfold by exact Hemail.
  rewrite run_bind.
  destruct (ensureSession email masterPassword w) as [[s|e] w1] eqn:Es;
    apply ensureSession_runs in Es; destruct Es as (_ & posts & Hincl & Hposts).
  2:{ exists posts, []. cbn [fst snd]. rewrite app_nil_r.
      split; [exact Hincl|].
      split; [exact Hposts|]. split; [split; [reflexivity|eexists; reflexivity]|].
      exact Hpayload. }
  destruct (authHeadersIfAvailable_runs w1) as (auth & w2 & Ha & (Hl & _)).
  rewrite (bind_ok _ _ _ _ _ Ha), run_bind, run_fetch.
  exists posts, [Fetched (update_request (auth ++ json_headers) encryptedVault vault_version)].
  split; [exact Hincl|].
  split.
  { destruct (fetch_reply (log w2) _) as [|res]; cbn [fst snd after log].
    - rewrite Hl, Hposts. now rewrite app_assoc.
    - destruct (status res =? 409)%Z; [cbn; rewrite Hl, Hposts; now rewrite app_assoc|].
      destruct (negb (ok res)); [cbn; rewrite Hl, Hposts; now rewrite app_assoc|].
      destruct (res_json res); cbn; rewrite Hl, Hposts; now rewrite app_assoc. }
  split; [exists auth, w2; split; [exact Ha|reflexivity]|].
  exact Hpayload.
Qed.
(** C6, as amended.  Where [updateVault] gets as far as its request and the
    request is answered: a 409 throws an error whose code is the code of the
    service, if the body of the response has one, and "conflict" if not; any
    other status that is not a success throws an error whose code is the
    code of the service, or [http_<status>]; a success throws nothing.  So
    where the body has no code, the code "conflict" is thrown for the status
    409 and for no other. *)
Theorem updateVault_conflict_code
  (email encryptedVault : string) (masterPassword : option string)
  (vault_version : option Z) (w w' : World) (auth : list (string * string))
  (res : Response) :
  email <> "" ->
  session_ready email masterPassword w auth w' ->
  fetch_reply (log w')
    (update_request (auth ++ json_headers) encryptedVault vault_version) = Reply res ->
  let run := updateVault email encryptedVault masterPassword vault_version w in
  let service_code := code (parseErrorResponse res) in
  (status res = 409%Z ->
   exists e, fst run = Err e /\
             err_code e = js_or service_code (Some (JStr "conflict"))) /\
  (status res <> 409%Z -> ok res = false ->
   exists e, fst run = Err e /\
             err_code e = js_or service_code
                            (Some (JStr ("http_" ++ string_of_Z (status res))))) /\
  (ok res = true -> exists v, fst run = Ok v) /\
  (truthy service_code = false ->
   forall e, fst run = Err e ->
             (err_code e = Some (JStr "conflict") <-> status res = 409%Z)).
Proof.
  intros Hemail (s & w1 & Hs & Ha) Hreply run service_code. subst run.
  rewrite updateVault_unfold by exact Hemail.
  rewrite (bind_ok _ _ _ _ _ Hs), (bind_ok _ _ _ _ _ Ha), run_bind, run_fetch, Hreply.
  assert (H409ok : status res = 409%Z -> ok res = false).
  { intros H. unfold ok. rewrite H. reflexivity. }
  destruct (Z.eqb_spec (status res) 409) as [H409|H409].
  - rewrite run_throw. cbn [fst]. unfold refusal, error_with_code. cbn [err_code].
    fold service_code.
    split; [intros _; eexists; split; reflexivity|].
    split; [intros Hn; contradiction|].
    split; [intros Hok; rewrite H409ok in Hok by exact H409; discriminate|].
    intros Hcode e He. injection He as <-. cbn [err_code].
    unfold js_or. rewrite Hcode. split; [intros _; exact H409|reflexivity].
  - destruct (ok res) eqn:Hok; cbn [negb].
    + split; [intros H; contradiction|].
      split; [intros _ Hf; discriminate|].
      split; [intros _; destruct (res_json res); eexists; reflexivity|].
      intros _ e He. destruct (res_json res); discriminate.
    + rewrite run_throw. cbn [fst]. unfold refusal, error_with_code, http_code.
      rewrite err_status_parse. cbn [err_code]. fold service_code.
      split; [intros H; contradiction|].
      split; [intros _ _; eexists; split; reflexivity|].
      split; [intros Hf; discriminate|].
      intros Hcode e He. injection He as <-. cbn [err_code].
      unfold js_or. rewrite Hcode.
      split; [intros Hc; discriminate|intros H; contradiction].
Qed.

End UpdateFacts.

(** * The API module on the platforms to compute with *)

(** C8 on a server that knows the legacy login path: two requests, the
    second answered with a session, which is stored. *)
Example createSession_legacy_server :
  let run := createSessionForEmail (json := Demo.compact_json) (date := Demo.engine 0)
               (env := Demo.legacy_server) "a@b.com" (Some "CorrectHorse9!") Demo.fresh in
  map (fun ev => match ev with Fetched req => req_url req | Alerted _ => "" end)
      (log (snd run))
  = ["http://localhost:3000/api/v1/auth/session"; "http://localhost:3000/api/v1/auth/login"]
  /\ fst run = Ok (mkSession (Some (JStr "t1")) "2024-01-01T13:00:00.000Z")
  /\ storage (snd run)
     = Some (Demo.print_json (JObj [("token", JStr "t1");
                                    ("expires_at", JStr "2024-01-01T13:00:00.000Z")])).
Proof. vm_compute. repeat split. Qed.


(** C6, as amended, at a concrete input: a 409 without a code of the
    service is thrown with the code "conflict". *)
Lemma updateVault_conflict_code_witness :
  exists e,
    fst (updateVault (json := Demo.compact_json) (date := Demo.engine 0)
           (env := Demo.conflict_server) "a@b.com" "blob" (Some "CorrectHorse9!")
           (Some 3%Z) Demo.signed_in) = Err e /\
    err_code e = Some (JStr "conflict").
Proof.
  destruct (@updateVault_conflict_code Demo.compact_json (Demo.engine 0)
              Demo.conflict_server "a@b.com" "blob" (Some "CorrectHorse9!") (Some 3%Z)
              Demo.signed_in (mkWorld (Some Demo.session_text) [] 2 Demo.no_state)
              [("Authorization", "Bearer t0")]
              (mkResponse 409 (Some (JObj [("message", JStr "stale")])) None))
    as (H409 & _).
  - discriminate.
  - exists (JObj [("token", JStr "t0"); ("expires_at", JStr "2099-01-01T00:00:00Z")]),
      (mkWorld (Some Demo.session_text) [] 1 Demo.no_state).
    split; vm_compute; reflexivity.
  - vm_compute. reflexivity.
  - exact (H409 eq_refl).
Defined.

(** C6 as the specification states it fails: the code "conflict" is not
    kept for the status 409.  A failure with another status whose body
    names the code "conflict" throws the very error a conflict throws; and a
    conflict whose body names another code is thrown under that code. *)
Lemma conflict_code_not_distinct :
  let update (server : Environment) :=
    fst (updateVault (json := Demo.compact_json) (date := Demo.engine 0) (env := server)
           "a@b.com" "blob" (Some "CorrectHorse9!") (Some 3%Z) Demo.signed_in) in
  update Demo.conflict_server = Err (mkError "Error" "stale" (Some (JStr "conflict"))) /\
  update Demo.confused_server = Err (mkError "Error" "stale" (Some (JStr "conflict"))) /\
  update Demo.coded_conflict_server
  = Err (mkError "Error" "version_mismatch" (Some (JStr "version_mismatch"))).
Proof. vm_compute. repeat split. Qed.

(** C10 on a server that accepts the update: the body with and without a
    version, and what [updateVault] resolves to. *)
Example updateVault_bodies :
  let update (version : option Z) :=
    updateVault (json := Demo.compact_json) (date := Demo.engine 0)
      (env := Demo.echo_server) "a@b.com" "blob" (Some "CorrectHorse9!") version
      Demo.signed_in in
  let bodies (w : World) :=
    map (fun ev => match ev with Fetched req => req_body req | Alerted _ => None end) (log w) in
  bodies (snd (update (Some 3%Z)))
  = [Some (Demo.print_json (JObj [("encrypted_vault", JStr "blob"); ("vault_version", JNum 3)]))]
  /\ bodies (snd (update None))
     = [Some (Demo.print_json (JObj [("encrypted_vault", JStr "blob")]))]
  /\ fst (update (Some 3%Z)) = Ok (JObj [("vault_version", JNum 7)]).
Proof. vm_compute. repeat split. Qed.

(** C10 on servers that answer the update with a conflict and with a
    failure: the PUT has gone out, with its body, before the error is
    thrown. *)
Example updateVault_body_sent_before_refusal :
  let update (server : Environment) :=
    updateVault (json := Demo.compact_json) (date := Demo.engine 0) (env := server)
      "a@b.com" "blob" (Some "CorrectHorse9!") (Some 3%Z) Demo.signed_in in
  let sent_body :=
    Some (Demo.print_json (JObj [("encrypted_vault", JStr "blob");
                                 ("vault_version", JNum 3)])) in
  map (fun server =>
         map (fun ev => match ev with
                        | Fetched req => (req_method req, req_body req)
                        | Alerted _ => ("", None)
                        end) (log (snd (update server))))
      [Demo.conflict_server; Demo.confused_server]
  = [[("PUT", sent_body)]; [("PUT", sent_body)]].
Proof. vm_compute. reflexivity. Qed.

(** Expiry normalisation at concrete inputs, on an engine in UTC at noon of
    1 January 2024. *)
Lemma normalize_unparseable_in_one_hour_witness :
  normalizeExpiresToISO (date := Demo.engine 0) (env := Demo.static Demo.noon [])
    "next week" Demo.fresh
  = (Ok "2024-01-01T13:00:00.000Z", tick Demo.fresh).
Proof.
  apply (@normalize_unparseable_in_one_hour (Demo.engine 0) (Demo.static Demo.noon [])
           "next week" Demo.fresh).
  right. split; reflexivity.
Defined.

Lemma normalize_keeps_parsed_instant_witness :
  fst (normalizeExpiresToISO (date := Demo.engine 0) (env := Demo.static Demo.noon [])
         "2024-01-01T12:00:00Z" Demo.fresh)
  = Ok "2024-01-01T12:00:00.000Z".
Proof.
  apply (@normalize_keeps_parsed_instant (Demo.engine 0) (Demo.static Demo.noon [])
           "2024-01-01T12:00:00Z" 1704110400000 Demo.fresh).
  - discriminate.
  - reflexivity.
Defined.

(** * Properties of the component *)

(** ** What a computation sends *)

Lemma emits_weaken {A} (P Q : Event -> bool) (m : M A) :
  (forall ev, P ev = true -> Q ev = true) -> emits P m -> emits Q m.
Proof.
  intros HPQ Hm w r w' E. destruct (Hm w r w' E) as (evs & Hl & Hp).
  exists evs. split; [exact Hl|].
  apply forallb_forall. intros ev Hin. apply HPQ.
  now apply (proj1 (forallb_forall P evs) Hp).
Qed.

Lemma emits_ret {A} (P : Event -> bool) (a : A) : emits P (ret a).
Proof.
  intros w r w' E. rewrite run_ret in E. done_run E.
  exists []. now rewrite app_nil_r.
Qed.

Lemma emits_throw {A} (P : Event -> bool) (e : JsError) : emits P (@throw A e).
Proof.
  intros w r w' E. rewrite run_throw in E. done_run E.
  exists []. now rewrite app_nil_r.
Qed.

Lemma emits_lift {A} (P : Event -> bool) (x : result A) : emits P (lift x).
Proof.
  intros w r w' E. rewrite run_lift in E. done_run E.
  exists []. now rewrite app_nil_r.
Qed.

Lemma emits_bind {A B} (P : Event -> bool) (m : M A) (k : A -> M B) :
  emits P m -> (forall a, emits P (k a)) -> emits P (bind m k).
Proof.
  intros Hm Hk w r w' E. step E.
  - destruct (Hm _ _ _ Em) as (evs1 & Hl1 & Hp1).
    destruct (Hk _ _ _ _ E) as (evs2 & Hl2 & Hp2).
    exists (evs1 ++ evs2). rewrite Hl2, Hl1, app_assoc, forallb_app, Hp1, Hp2.
    now split.
  - done_run E. exact (Hm _ _ _ Em).
Qed.

Lemma emits_catch {A} (P : Event -> bool) (m : M A) (h : JsError -> M A) :
  emits P m -> (forall e, emits P (h e)) -> emits P (catch m h).
Proof.
  intros Hm Hh w r w' E. rewrite run_catch in E.
  destruct (m w) as [[a|e] w1] eqn:Em.
  - done_run E. exact (Hm _ _ _ Em).
  - destruct (Hm _ _ _ Em) as (evs1 & Hl1 & Hp1).
    destruct (Hh _ _ _ _ E) as (evs2 & Hl2 & Hp2).
    exists (evs1 ++ evs2). rewrite Hl2, Hl1, app_assoc, forallb_app, Hp1, Hp2.
    now split.
Qed.

Lemma emits_quiet {A} (P : Event -> bool) (m : M A) :
  (forall w r w', m w = (r, w') -> log w' = log w) -> emits P m.
Proof.
  intros H w r w' E. exists []. rewrite app_nil_r. split; [exact (H _ _ _ E)|reflexivity].
Qed.

Lemma keeps_password_ret {A} (a : A) : keeps_password (ret a).
Proof. intros w r w' E. rewrite run_ret in E. now done_run E. Qed.

Lemma keeps_password_throw {A} (e : JsError) : keeps_password (@throw A e).
Proof. intros w r w' E. rewrite run_throw in E. now done_run E. Qed.

Lemma keeps_password_bind {A B} (m : M A) (k : A -> M B) :
  keeps_password m -> (forall a, keeps_password (k a)) -> keeps_password (bind m k).
Proof.
  intros Hm Hk w r w' E. step E.
  - rewrite (Hk _ _ _ _ E). exact (Hm _ _ _ Em).
  - done_run E. exact (Hm _ _ _ Em).
Qed.

Lemma keeps_password_same_ui {A} (m : M A) :
  (forall w r w', m w = (r, w') -> ui w' = ui w) -> keeps_password m.
Proof. intros H w r w' E. now rewrite (H _ _ _ E). Qed.

Section AppFacts.

Context {json : Json} {date : DateApi} {env : Environment} {keyed : KeyedCrypto}.

Lemma emits_fetch (P : Event -> bool) (req : Request) :
  P (Fetched req) = true -> emits P (fetch req).
Proof.
  intros HP w r w' E. rewrite run_fetch in E. injection E as _ <-.
  exists [Fetched req]. split; [reflexivity|]. cbn. now rewrite HP.
Qed.

Lemma emits_alert (P : Event -> bool) (msg : string) :
  P (Alerted msg) = true -> emits P (alert msg).
Proof.
  intros HP w r w' E. unfold alert in E. done_run E.
  exists [Alerted msg]. split; [reflexivity|]. cbn. now rewrite HP.
Qed.

Lemma emits_draw {A} (P : Event -> bool) (f : nat -> result A) : emits P (draw f).
Proof. apply emits_quiet. intros w r w' E. unfold draw in E. now done_run E. Qed.

Lemma sent_harmless (payload : JsValue) (posts : list string) :
  incl posts session_endpoints -> forallb harmless (sent payload posts) = true.
Proof.
  induction posts as [|u posts IH]; intros Hincl; [reflexivity|].
  cbn [sent map forallb]. fold (sent payload posts).
  rewrite IH by (intros x Hx; apply Hincl; now right).
  rewrite andb_true_r.
  assert (Hu : In u session_endpoints) by (apply Hincl; now left).
  unfold session_endpoints in Hu. cbn [In] in Hu.
  destruct Hu as [<-|[<-|[<-|[<-|[]]]]]; reflexivity.
Qed.

Lemma emits_ensureSession (email : string) (masterPassword : option string) :
  emits harmless (ensureSession email masterPassword).
Proof.
  intros w r w' E. apply ensureSession_runs in E.
  destruct E as (_ & posts & Hi & Hl).
  exists (sent (session_payload email masterPassword) posts).
  split; [exact Hl|]. now apply sent_harmless.
Qed.

Lemma emits_authHeadersIfAvailable (P : Event -> bool) : emits P authHeadersIfAvailable.
Proof.
  apply emits_quiet. intros w r w' E.
  destruct (authHeadersIfAvailable_runs w) as (auth & w1 & Ha & (Hl & _)).
  rewrite Ha in E. now done_run E.
Qed.

Lemma emits_getSessionToken (P : Event -> bool) : emits P getSessionToken.
Proof.
  apply emits_quiet. intros w r w' E.
  destruct (getSessionToken_runs w) as (tok & w1 & Ha & (Hl & _)).
  rewrite Ha in E. now done_run E.
Qed.

Lemma emits_getVault (email : string) (masterPassword : option string) :
  emits harmless (getVault email masterPassword).
Proof.
  unfold getVault. destruct (String.eqb email ""); [apply emits_throw|].
  apply emits_bind; [apply emits_ensureSession|intros _].
  apply emits_bind; [apply emits_authHeadersIfAvailable|intros auth].
  apply emits_bind; [apply emits_fetch; reflexivity|intros res].
  destruct (negb (ok res)); [apply emits_throw|].
  apply emits_bind; [apply emits_lift|intros data]. apply emits_ret.
Qed.

Lemma emits_changePassword (currentPassword newPassword : string) :
  emits (fun ev => negb (vault_upload ev)) (changePassword currentPassword newPassword).
Proof.
  unfold changePassword.
  apply emits_bind; [apply emits_authHeadersIfAvailable|intros auth].
  destruct (header "Authorization" (auth ++ json_headers)); [|apply emits_throw].
  apply emits_bind; [apply emits_fetch; reflexivity|intros res].
  destruct (negb (ok res)); [apply emits_throw|apply emits_lift].
Qed.

End AppFacts.

(** ** The upload of the vault *)

Section UploadFacts.

Context {json : Json} {date : DateApi} {env : Environment} {keyed : KeyedCrypto}.

Lemma keeps_password_lift {A} (x : result A) : keeps_password (lift x).
Proof. intros w r w' E. rewrite run_lift in E. now done_run E. Qed.

Lemma keeps_password_fetch (req : Request) : keeps_password (fetch req).
Proof. intros w r w' E. rewrite run_fetch in E. now injection E as _ <-. Qed.

Lemma keeps_password_alert (msg : string) : keeps_password (alert msg).
Proof. intros w r w' E. unfold alert in E. now done_run E. Qed.

Lemma keeps_password_draw {A} (f : nat -> result A) : keeps_password (draw f).
Proof. intros w r w' E. unfold draw in E. now done_run E. Qed.

Lemma keeps_password_setVault (v : JsValue) : keeps_password (setVault v).
Proof. intros w r w' E. unfold setVault in E. now done_run E. Qed.

Lemma keeps_password_setVaultVersion (f : Z -> Z) : keeps_password (setVaultVersion f).
Proof. intros w r w' E. unfold setVaultVersion in E. now done_run E. Qed.

Lemma keeps_password_ensureSession (email : string) (masterPassword : option string) :
  keeps_password (ensureSession email masterPassword).
Proof.
  apply keeps_password_same_ui. intros w r w' E.
  now apply ensureSession_runs in E.
Qed.

Lemma keeps_password_authHeadersIfAvailable : keeps_password authHeadersIfAvailable.
Proof.
  apply keeps_password_same_ui. intros w r w' E.
  destruct (authHeadersIfAvailable_runs w) as (auth & w1 & Ha & (_ & _ & Hu)).
  rewrite Ha in E. now done_run E.
Qed.

Lemma keeps_password_getVault (email : string) (masterPassword : option string) :
  keeps_password (getVault email masterPassword).
Proof.
  unfold getVault. destruct (String.eqb email ""); [apply keeps_password_throw|].
  apply keeps_password_bind; [apply keeps_password_ensureSession|intros _].
  apply keeps_password_bind; [apply keeps_password_authHeadersIfAvailable|intros auth].
  apply keeps_password_bind; [apply keeps_password_fetch|intros res].
  destruct (negb (ok res)); [apply keeps_password_throw|].
  apply keeps_password_bind; [apply keeps_password_lift|intros data].
  apply keeps_password_ret.
Qed.

(** The branch of [putVaultWithVersion] that follows a conflict (lines
    185-195 of the component). *)
Lemma conflict_branch_runs (s : AppState) :
  let branch : M PutResult :=
    bind (getVault (email s) (Some (masterPassword s)))
      (fun latestData =>
         bind (alert "Conflict detected while updating vault. Reloading latest vault.")
           (fun _ =>
              bind (if truthy (Some (encrypted_vault latestData)) then
                      bind (draw (fun n => generateKey n (masterPassword s)))
                        (fun key =>
                           bind (draw (fun n => decryptVault_key n
                                                  (encrypted_vault latestData) key))
                             (fun dec =>
                                bind (setVault dec)
                                  (fun _ =>
                                     match vault_version latestData with
                                     | Some n => setVaultVersion (fun _ => n)
                                     | None => ret tt
                                     end)))
                    else ret tt)
                (fun _ => ret (mkPutResult false true)))) in
  emits harmless branch /\ keeps_password branch /\
  forall w r w', branch w = (r, w') -> r = Ok (mkPutResult false true) \/ exists e, r = Err e.
Proof.
  intros branch. subst branch. split; [|split].
  - apply emits_bind; [apply emits_getVault|intros latest].
    apply emits_bind; [apply emits_alert; reflexivity|intros _].
    apply emits_bind; [|intros _; apply emits_ret].
    destruct (truthy _); [|apply emits_ret].
    apply emits_bind; [apply emits_draw|intros key].
    apply emits_bind; [apply emits_draw|intros dec].
    apply emits_bind;
      [apply emits_quiet; intros w r w' E; unfold setVault in E; now done_run E|intros _].
    destruct (vault_version latest); [|apply emits_ret].
    apply emits_quiet. intros w r w' E. unfold setVaultVersion in E. now done_run E.
  - apply keeps_password_bind; [apply keeps_password_getVault|intros latest].
    apply keeps_password_bind; [apply keeps_password_alert|intros _].
    apply keeps_password_bind; [|intros _; apply keeps_password_ret].
    destruct (truthy _); [|apply keeps_password_ret].
    apply keeps_password_bind; [apply keeps_password_draw|intros key].
    apply keeps_password_bind; [apply keeps_password_draw|intros dec].
    apply keeps_password_bind; [apply keeps_password_setVault|intros _].
    destruct (vault_version latest);
      [apply keeps_password_setVaultVersion|apply keeps_password_ret].
  - intros w r w' E.
    step E; [|right; eexists; now done_run E].
    step E; [|right; eexists; now done_run E].
    step E; [|right; eexists; now done_run E].
    rewrite run_ret in E. left. now done_run E.
Qed.

(** What [putVaultWithVersion] does: without a token it throws and sends
    nothing; with one it sends the upload first, with the version the
    closure holds, and what follows sends nothing of weight.  A conflict is
    reported or an error thrown; a success advances the version of the
    component by one, whatever the body of the response; another status
    throws. *)
Lemma putVaultWithVersion_runs
  (s : AppState) (encryptedVault : string) (w : World) (r : result PutResult) (w' : World) :
  putVaultWithVersion s encryptedVault w = (r, w') ->
  masterPassword (ui w') = masterPassword (ui w) /\
  ((log w' = log w /\ exists e, r = Err e) \/
   exists tok post,
     log w' = log w ++ Fetched (upload_request tok s encryptedVault) :: post /\
     forallb harmless post = true /\
     match fetch_reply (log w) (upload_request tok s encryptedVault) with
     | NetworkError => exists e, r = Err e
     | Reply res =>
         if (status res =? 409)%Z then
           r = Ok (mkPutResult false true) \/ exists e, r = Err e
         else if ok res then
           r = Ok (mkPutResult true false) /\ post = [] /\
           vaultVersion (ui w') = number_add (vaultVersion (ui w)) 1
         else exists e, r = Err e
     end).
Proof.
  intros E. unfold putVaultWithVersion in E.
  destruct (getSessionToken_runs w) as (tok & w1 & Ht & (Hl1 & _ & Hu1)).
  rewrite (bind_ok _ _ _ _ _ Ht) in E.
  destruct (truthy tok); cbn [negb] in E.
  2:{ rewrite run_throw in E. done_run E.
      split; [now rewrite Hu1|]. left. split; [exact Hl1|]. eexists; reflexivity. }
  fold (upload_request tok s encryptedVault) in E.
  rewrite run_bind, run_fetch, Hl1 in E.
  destruct (fetch_reply (log w) (upload_request tok s encryptedVault)) as [|res] eqn:Er.
  { done_run E. split; [cbn; now rewrite Hu1|]. right. exists tok, []. rewrite Er.
    split; [cbn; now rewrite Hl1|]. split; [reflexivity|]. eexists; reflexivity. }
  destruct (status res =? 409)%Z eqn:E409.
  - destruct (conflict_branch_runs s) as (Hemits & Hkeeps & Hresult).
    cbv zeta in Hemits, Hkeeps, Hresult.
    destruct (Hemits _ _ _ E) as (post & Hpost & Hharmless).
    split; [rewrite (Hkeeps _ _ _ E); cbn; now rewrite Hu1|].
    right. exists tok, post. rewrite Er, E409.
    split; [rewrite Hpost; cbn; rewrite Hl1, <- app_assoc; reflexivity|].
    split; [exact Hharmless|]. exact (Hresult _ _ _ E).
  - destruct (ok res) eqn:Hok; cbn [negb] in E.
    + unfold setVaultVersion in E. rewrite run_bind in E. cbn in E. done_run E.
      split; [cbn; now rewrite Hu1|]. right. exists tok, []. rewrite Er, E409, Hok.
      split; [cbn; now rewrite Hl1|]. split; [reflexivity|].
      split; [reflexivity|]. split; [reflexivity|]. cbn. now rewrite Hu1.
    + rewrite run_throw in E. done_run E.
      split; [cbn; now rewrite Hu1|]. right. exists tok, []. rewrite Er, E409, Hok.
      split; [cbn; now rewrite Hl1|]. split; [reflexivity|]. eexists; reflexivity.
Qed.

End UploadFacts.

(** ** The password change *)

Lemma app_cons_split {A} (pre post pre' post' : list A) (x y : A) :
  pre ++ x :: post = pre' ++ y :: post' ->
  (exists mid, pre = pre' ++ y :: mid /\ post' = mid ++ x :: post) \/
  (pre = pre' /\ x = y /\ post = post') \/
  (exists mid, pre' = pre ++ x :: mid /\ post = mid ++ y :: post').
Proof.
  revert pre'. induction pre as [|a pre IH]; intros [|b pre'] H; cbn in H.
  - injection H as -> ->. right. left. auto.
  - injection H as -> ->. right. right. exists pre'. auto.
  - injection H as -> <-. left. exists pre. auto.
  - injection H as -> H. destruct (IH _ H) as [(mid & -> & ->)|[(-> & -> & ->)|(mid & -> & ->)]].
    + left. exists mid. auto.
    + right. left. auto.
    + right. right. exists mid. auto.
Qed.

Lemma harmless_split (ev : Event) :
  harmless ev = true -> credential_change ev = false /\ vault_upload ev = false.
Proof.
  unfold harmless. intros H. apply andb_true_iff in H. destruct H as [H1 H2].
  split; now apply negb_true_iff.
Qed.

Lemma forallb_harmless (evs : list Event) :
  forallb harmless evs = true ->
  forallb (fun ev => negb (credential_change ev)) evs = true /\
  forallb (fun ev => negb (vault_upload ev)) evs = true.
Proof.
  induction evs as [|ev evs IH]; [auto|].
  cbn [forallb]. intros H. apply andb_true_iff in H. destruct H as [Hev Hevs].
  destruct (harmless_split _ Hev) as [-> ->]. cbn [negb andb]. auto.
Qed.

Lemma still_ret {A} (a : A) : still (ret a).
Proof. intros w r w' E. rewrite run_ret in E. now done_run E. Qed.

Lemma still_bind {A B} (m : M A) (k : A -> M B) :
  still m -> (forall a, still (k a)) -> still (bind m k).
Proof.
  intros Hm Hk w r w' E. step E as a w1 Em.
  - destruct (Hm _ _ _ Em) as [Hl Hu]. destruct (Hk _ _ _ _ E) as [Hl' Hu'].
    split; congruence.
  - done_run E. exact (Hm _ _ _ Em).
Qed.

Section RotationFacts.

Context {json : Json} {date : DateApi} {env : Environment} {keyed : KeyedCrypto}.

Lemma still_draw {A} (f : nat -> result A) : still (draw f).
Proof. intros w r w' E. unfold draw in E. now done_run E. Qed.

(** Lines 262-269 of the component: the credential change and what follows
    it send no upload. *)
Lemma after_upload_runs (s : AppState) :
  emits (fun ev => negb (vault_upload ev))
    (bind (changePassword (currentPasswordForChange s) (newPasswordForChange s))
       (fun _ =>
          bind (setMasterPassword (newPasswordForChange s))
            (fun _ =>
               bind (setCurrentPasswordForChange "")
                 (fun _ =>
                    bind (setNewPasswordForChange "")
                      (fun _ =>
                         alert "Password changed successfully. Vault re-encrypted locally and uploaded."))))).
Proof.
  apply emits_bind; [apply emits_changePassword|intros _].
  apply emits_bind;
    [apply emits_quiet; intros w r w' E; unfold setMasterPassword in E; now done_run E
    |intros _].
  apply emits_bind;
    [apply emits_quiet; intros w r w' E; unfold setCurrentPasswordForChange in E;
     now done_run E
    |intros _].
  apply emits_bind;
    [apply emits_quiet; intros w r w' E; unfold setNewPasswordForChange in E;
     now done_run E
    |intros _].
  apply emits_alert. reflexivity.
Qed.

End RotationFacts.

Section RotationRuns.

Context {json : Json} {date : DateApi} {env : Environment} {keyed : KeyedCrypto}.

Lemma rotation_shape_alert (s : AppState) (w w' : World) (evs : list Event) (msg : string) :
  rotation_shape s w w' evs ->
  rotation_shape s w (add_event (Alerted msg) w') (evs ++ [Alerted msg]).
Proof.
  intros [[Hh Hp]|(pre & tok & enc & post & -> & Hpre & Hpost & Hreply)].
  - left. rewrite forallb_app, Hh. now split.
  - right. exists pre, tok, enc, (post ++ [Alerted msg]).
    split; [now rewrite <- app_assoc|]. split; [exact Hpre|].
    split; [now rewrite forallb_app, Hpost|].
    destruct (fetch_reply _ _) as [|res].
    + destruct Hreply as [Hh Hp]. now rewrite forallb_app, Hh.
    + destruct Hreply as [Hok|[Hh Hp]]; [now left|right].
      now rewrite forallb_app, Hh.
Qed.

(** The [try] block of [handleChangePassword], by its outcome. *)
Lemma rotation_try_runs (s : AppState) (w : World) (r : result unit) (w' : World) :
  bind (getVault (email s) (Some (currentPasswordForChange s)))
    (fun vaultData =>
       bind (if truthy (Some (encrypted_vault vaultData)) then
               bind (draw (fun n => generateKey n (currentPasswordForChange s)))
                 (fun keyOld =>
                    draw (fun n => decryptVault_key n (encrypted_vault vaultData) keyOld))
             else ret (JObj [("passwords", JArr [])]))
         (fun decVault =>
            bind (draw (fun n => generateKey n (newPasswordForChange s)))
              (fun keyNew =>
                 bind (draw (fun n => encryptVault_key n decVault keyNew))
                   (fun reEncrypted =>
                      bind (putVaultWithVersion s reEncrypted)
                        (fun putResult =>
                           if conflict putResult then
                             alert "Conflict when updating vault during password change. Aborting."
                           else
                             bind (changePassword (currentPasswordForChange s)
                                     (newPasswordForChange s))
                               (fun _ =>
                                  bind (setMasterPassword (newPasswordForChange s))
                                    (fun _ =>
                                       bind (setCurrentPasswordForChange "")
                                         (fun _ =>
                                            bind (setNewPasswordForChange "")
                                              (fun _ =>
                                                 alert "Password changed successfully. Vault re-encrypted locally and uploaded.")))))))))
    w = (r, w') ->
  exists evs, log w' = log w ++ evs /\ rotation_shape s w w' evs.
Proof.
  intros E.
  step E as vaultData w1 Eg.
  2:{ done_run E. destruct (emits_getVault _ _ _ _ _ Eg) as (evs & Hl & Hh).
      exists evs. split; [exact Hl|]. left. split; [exact Hh|].
      exact (keeps_password_getVault _ _ _ _ _ Eg). }
  destruct (emits_getVault _ _ _ _ _ Eg) as (evs1 & Hl1 & Hh1).
  pose proof (keeps_password_getVault _ _ _ _ _ Eg) as Hp1.
  assert (Hstill : still (if truthy (Some (encrypted_vault vaultData)) then
                            bind (draw (fun n => generateKey n (currentPasswordForChange s)))
                              (fun keyOld =>
                                 draw (fun n => decryptVault_key n
                                                  (encrypted_vault vaultData) keyOld))
                          else ret (JObj [("passwords", JArr [])]))).
  { destruct (truthy _); [|apply still_ret].
    apply still_bind; [apply still_draw|intros k; apply still_draw]. }
  step E as decVault w2 Ed; destruct (Hstill _ _ _ Ed) as [Hl2 Hu2].
  2:{ done_run E. exists evs1. split; [congruence|]. left. split; [exact Hh1|congruence]. }
  step E as keyNew w3 Ek; destruct (still_draw _ _ _ _ Ek) as [Hl3 Hu3].
  2:{ done_run E. exists evs1. split; [congruence|]. left. split; [exact Hh1|congruence]. }
  step E as reEncrypted w4 Ee; destruct (still_draw _ _ _ _ Ee) as [Hl4 Hu4].
  2:{ done_run E. exists evs1. split; [congruence|]. left. split; [exact Hh1|congruence]. }
  assert (Hlog4 : log w4 = log w ++ evs1) by congruence.
  assert (Hpw4 : masterPassword (ui w4) = masterPassword (ui w)) by congruence.
  step E as putResult w5 Eput;
    destruct (putVaultWithVersion_runs _ _ _ _ _ Eput)
      as [Hp5 [[Hl5 (e0 & He0)]|(tok & post & Hl5 & Hpost & Hreply)]].
  - (* a result without an upload: [putVaultWithVersion] would have thrown *)
    discriminate.
  - (* the upload was sent *)
    rewrite Hlog4 in Hreply.
    assert (Hupload : forall tail wz,
              log wz = log w5 ++ tail ->
              forallb (fun ev => negb (vault_upload ev)) tail = true ->
              (match fetch_reply (log w ++ evs1) (upload_request tok s reEncrypted) with
               | Reply res =>
                   ok res = true \/
                   (forallb harmless tail = true /\ masterPassword (ui wz) = masterPassword (ui w5))
               | NetworkError => False
               end) ->
              exists evs, log wz = log w ++ evs /\ rotation_shape s w wz evs).
    { intros tail wz Hz Htail Hcase.
      exists (evs1 ++ Fetched (upload_request tok s reEncrypted) :: post ++ tail).
      split; [rewrite Hz, Hl5, Hlog4, <- !app_assoc; reflexivity|].
      right. exists evs1, tok, reEncrypted, (post ++ tail).
      split; [reflexivity|]. split; [exact Hh1|].
      split; [rewrite forallb_app, Htail, andb_true_r;
              exact (proj2 (forallb_harmless _ Hpost))|].
      destruct (fetch_reply _ _) as [|res]; [contradiction|].
      destruct Hcase as [Hok|[Hh Hp]]; [now left|right].
      split; [now rewrite forallb_app, Hpost, Hh|congruence]. }
    destruct (fetch_reply (log w ++ evs1) (upload_request tok s reEncrypted))
      as [|res] eqn:Er.
    { destruct Hreply as (e & He). discriminate. }
    destruct (status res =? 409)%Z eqn:E409.
    + destruct Hreply as [Hr|(e & He)]; [injection Hr as ->|discriminate].
      cbn [conflict] in E.
      unfold alert in E. done_run E.
      apply (Hupload [Alerted "Conflict when updating vault during password change. Aborting."]);
        [reflexivity|reflexivity|]. right. now split.
    + destruct (ok res) eqn:Hok; [|destruct Hreply as (e & He); discriminate].
      destruct Hreply as (Hr & -> & _). injection Hr as ->. cbn [conflict] in E.
      destruct (after_upload_runs s _ _ _ E) as (tail & Htail & Hno).
      apply (Hupload tail); [exact Htail|exact Hno|now left].
  - (* [putVaultWithVersion] has thrown without an upload *)
    done_run E. exists evs1. split; [congruence|]. left. split; [exact Hh1|congruence].
  - (* it has thrown after the upload *)
    done_run E. rewrite Hlog4 in Hreply.
    exists (evs1 ++ Fetched (upload_request tok s reEncrypted) :: post).
    split; [rewrite Hl5, Hlog4, <- app_assoc; reflexivity|].
    right. exists evs1, tok, reEncrypted, post.
    split; [reflexivity|]. split; [exact Hh1|].
    split; [exact (proj2 (forallb_harmless _ Hpost))|].
    destruct (fetch_reply _ _) as [|res]; [split; [exact Hpost|congruence]|].
    destruct (status res =? 409)%Z; [right; split; [exact Hpost|congruence]|].
    destruct (ok res); [destruct Hreply as (Hr & _); discriminate|].
    right. split; [exact Hpost|congruence].
Qed.

End RotationRuns.

Section RotationTheorems.

Context {json : Json} {date : DateApi} {env : Environment} {keyed : KeyedCrypto}.

Lemma handleChangePassword_runs (s : AppState) (w : World) :
  exists evs,
    log (snd (handleChangePassword s w)) = log w ++ evs /\
    rotation_shape s w (snd (handleChangePassword s w)) evs.
Proof.
  unfold handleChangePassword.
  destruct (_ || _).
  { exists [Alerted "Please provide both current and new passwords."].
    split; [reflexivity|]. left. now split. }
  rewrite run_catch.
  match goal with
  | |- context [match ?body w with (r, w1) => _ end] =>
      destruct (body w) as [[u|e] w1] eqn:E
  end; apply rotation_try_runs in E; destruct E as (evs & Hl & Hshape).
  - exists evs. now split.
  - exists (evs ++ [Alerted ("Failed to change password: " ++ error_text e)]).
    split; [cbn; now rewrite Hl, app_assoc|].
    now apply rotation_shape_alert.
Qed.

Lemma forallb_In {A} (P : A -> bool) (pre post : list A) (x : A) :
  forallb P (pre ++ x :: post) = true -> P x = true.
Proof.
  intros H. apply (proj1 (forallb_forall P _) H). apply in_or_app. right. now left.
Qed.

Lemma ok_409 (res : Response) : status res = 409%Z -> ok res = false.
Proof. intros H. unfold ok. now rewrite H. Qed.

(** C4.  What one password change sends and shows, [evs].  A request to the
    credential-change endpoint is among it only after an upload of the vault
    that was answered with a success.  And if an upload was answered with
    the status 409, no request to the credential-change endpoint is among
    it, and the master password of the component is the one it was. *)
Theorem rotation_aborts_on_conflict (s : AppState) (w : World) :
  let w' := snd (handleChangePassword s w) in
  exists evs,
    log w' = log w ++ evs /\
    (forall pre ev post,
       evs = pre ++ ev :: post -> credential_change ev = true ->
       exists pre1 put mid res,
         pre = pre1 ++ Fetched put :: mid /\
         vault_upload (Fetched put) = true /\
         fetch_reply (log w ++ pre1) put = Reply res /\
         ok res = true) /\
    (forall pre put post res,
       evs = pre ++ Fetched put :: post -> vault_upload (Fetched put) = true ->
       fetch_reply (log w ++ pre) put = Reply res -> status res = 409%Z ->
       forallb (fun ev => negb (credential_change ev)) evs = true /\
       masterPassword (ui w') = masterPassword (ui w)).
Proof.
  intros w'. subst w'.
  destruct (handleChangePassword_runs s w) as (evs & Hl & Hshape).
  exists evs. split; [exact Hl|].
  destruct Hshape as [[Hh Hp]|(pre & tok & enc & post & -> & Hpre & Hpost & Hreply)].
  - (* no upload *)
    split.
    + intros pre' ev post' -> Hcc.
      apply forallb_In in Hh. apply harmless_split in Hh. destruct Hh as [Hh _].
      congruence.
    + intros pre' put post' res -> Hvu _ _.
      apply forallb_In in Hh. apply harmless_split in Hh. destruct Hh as [_ Hh].
      congruence.
  - (* one upload *)
    split.
    + intros pre' ev post' Hsplit Hcc.
      apply app_cons_split in Hsplit.
      destruct Hsplit as [(mid & -> & _)|[(<- & <- & _)|(mid & -> & ->)]].
      * apply forallb_In in Hpre. apply harmless_split in Hpre. destruct Hpre as [Hpre _].
        congruence.
      * discriminate Hcc.
      * destruct (fetch_reply (log w ++ pre) (upload_request tok s enc)) as [|res] eqn:Er.
        -- destruct Hreply as [Hh _]. apply forallb_In in Hh.
           apply harmless_split in Hh. destruct Hh as [Hh _]. congruence.
        -- destruct Hreply as [Hok|[Hh _]].
           ++ exists pre, (upload_request tok s enc), mid, res. auto.
           ++ apply forallb_In in Hh. apply harmless_split in Hh. destruct Hh as [Hh _].
              congruence.
    + intros pre' put post' res Hsplit Hvu Hr H409.
      apply app_cons_split in Hsplit.
      destruct Hsplit as [(mid & -> & _)|[(<- & Hput & <-)|(mid & -> & ->)]].
      * apply forallb_In in Hpre. apply harmless_split in Hpre. destruct Hpre as [_ Hpre].
        congruence.
      * injection Hput as <-. rewrite Hr in Hreply.
        destruct Hreply as [Hok|[Hh Hp]]; [rewrite ok_409 in Hok by exact H409; discriminate|].
        split; [|exact Hp].
        rewrite forallb_app. cbn [forallb].
        rewrite (proj1 (forallb_harmless _ Hpre)), (proj1 (forallb_harmless _ Hh)).
        reflexivity.
      * apply forallb_In in Hpost. rewrite Hvu in Hpost. discriminate.
Qed.

(** Below 2^53 a number plus one is the next integer; at 2^53 the sum is
    the number itself. *)
Lemma number_add_one (v : Z) :
  (- 2 ^ 53 <= v < 2 ^ 53)%Z -> number_add v 1 = (v + 1)%Z.
Proof.
  intros Hv. unfold number_add, round_double. cbv zeta.
  change (2 ^ 53)%Z with 9007199254740992%Z in *.
  destruct (Z.ltb_spec (Z.abs (v + 1)) 9007199254740992) as [|Hbig]; [reflexivity|].
  assert (Hv1 : (v + 1)%Z = 9007199254740992%Z) by lia.
  rewrite Hv1. reflexivity.
Qed.

Example number_add_one_at_2_53 : number_add (2 ^ 53) 1 = (2 ^ 53)%Z.
Proof. reflexivity. Qed.

(** Beyond 2^53 the doubles are two apart, beyond 2^54 four; a sum half
    way between two of them is the one with the even significand. *)
Example round_double_ties :
  map round_double
    [2 ^ 53 + 1; 2 ^ 53 + 2; 2 ^ 53 + 3; - (2 ^ 53 + 1); 2 ^ 54 + 1; 2 ^ 54 + 2;
     2 ^ 54 + 6]%Z
  = [2 ^ 53; 2 ^ 53 + 2; 2 ^ 53 + 4; - 2 ^ 53; 2 ^ 54; 2 ^ 54; 2 ^ 54 + 8]%Z.
Proof. reflexivity. Qed.

(** C5, as amended.  Where [putVaultWithVersion] has a token and its upload
    is answered with a success, it reports success, has sent the one
    request, with the version of the state the closure was rendered with,
    and the version of the component is what it was plus one, a sum of
    doubles, whatever the response says: the body of the response is not
    read.  So where the component still has the version that was sent, the
    version becomes the expected version plus one if that is below 2^53,
    and at 2^53 stays as it is. *)
Theorem putVaultWithVersion_advances_version
  (s : AppState) (encryptedVault : string) (w w1 : World) (tok : JsAny) (res : Response) :
  getSessionToken w = (Ok tok, w1) -> truthy tok = true ->
  fetch_reply (log w) (upload_request tok s encryptedVault) = Reply res ->
  ok res = true ->
  let run := putVaultWithVersion s encryptedVault w in
  let n := vaultVersion s in
  fst run = Ok (mkPutResult true false) /\
  log (snd run) = log w ++ [Fetched (upload_request tok s encryptedVault)] /\
  req_body (upload_request tok s encryptedVault)
  = Some (JSON_stringify (JObj [("encrypted_vault", JStr encryptedVault);
                                ("vault_version", JNum n)])) /\
  vaultVersion (ui (snd run)) = number_add (vaultVersion (ui w)) 1 /\
  (vaultVersion (ui w) = n -> (- 2 ^ 53 <= n < 2 ^ 53)%Z ->
   vaultVersion (ui (snd run)) = (n + 1)%Z) /\
  (vaultVersion (ui w) = n -> n = (2 ^ 53)%Z -> vaultVersion (ui (snd run)) = n).
Proof.
  intros Ht Htok Hreply Hok run n. subst run n.
  destruct (getSessionToken_runs w) as (tok' & w1' & Ht' & (Hl1 & _ & Hu1)).
  rewrite Ht in Ht'. injection Ht' as <- <-.
  unfold putVaultWithVersion.
  rewrite (bind_ok _ _ _ _ _ Ht), Htok. cbn [negb].
  fold (upload_request tok s encryptedVault).
  rewrite run_bind, run_fetch, Hl1, Hreply.
  assert (H409 : (status res =? 409)%Z = false).
  { destruct (Z.eqb_spec (status res) 409) as [H|H]; [|reflexivity].
    rewrite ok_409 in Hok by exact H. discriminate. }
  rewrite H409, Hok. cbn [negb].
  unfold setVaultVersion. rewrite run_bind. cbn -[number_add Z.pow].
  rewrite Hl1, Hu1.
  split; [reflexivity|]. split; [reflexivity|]. split; [reflexivity|].
  split; [reflexivity|]. split.
  - intros Hn Hrange. rewrite Hn. now apply number_add_one.
  - intros Hn Hbig. rewrite Hn, Hbig. exact number_add_one_at_2_53.
Qed.
End RotationTheorems.

(** * The component on the platforms to compute with *)

(** C4 on a server where the upload meets a conflict: the vault is
    fetched, uploaded, fetched again, and the change is given up. *)
Example rotation_on_conflict :
  let w' := snd (handleChangePassword (json := Demo.compact_json) (date := Demo.engine 0)
                   (env := Demo.racing_server) (keyed := Demo.keyed)
                   Demo.rotating Demo.at_version_3) in
  Demo.summary w'
  = ["GET http://localhost:3000/api/v1/vault/";
     "PUT http://localhost:3000/api/v1/vault";
     "GET http://localhost:3000/api/v1/vault/";
     "Conflict detected while updating vault. Reloading latest vault.";
     "Conflict when updating vault during password change. Aborting."]
  /\ masterPassword (ui w') = "CorrectHorse9!".
Proof. vm_compute. split; reflexivity. Qed.

(** And on a server where it succeeds: the credential change follows the
    upload. *)
Example rotation_on_success :
  let w' := snd (handleChangePassword (json := Demo.compact_json) (date := Demo.engine 0)
                   (env := Demo.willing_server) (keyed := Demo.keyed)
                   Demo.rotating Demo.at_version_3) in
  Demo.summary w'
  = ["GET http://localhost:3000/api/v1/vault/";
     "PUT http://localhost:3000/api/v1/vault";
     "POST http://localhost:3000/api/v1/auth/change-password";
     "Password changed successfully. Vault re-encrypted locally and uploaded."]
  /\ masterPassword (ui w') = "Tr0ub4dor&3"
  /\ vaultVersion (ui w') = 4%Z.
Proof. vm_compute. repeat split. Qed.

(** C5, as amended, at a concrete input: from version 3 to version 4. *)
Lemma putVaultWithVersion_advances_version_witness :
  vaultVersion
    (ui (snd (putVaultWithVersion (json := Demo.compact_json) (date := Demo.engine 0)
                (env := Demo.willing_server) (keyed := Demo.keyed)
                Demo.rotating "blob" Demo.at_version_3)))
  = 4%Z.
Proof.
  destruct (@putVaultWithVersion_advances_version Demo.compact_json (Demo.engine 0)
              Demo.willing_server Demo.keyed Demo.rotating "blob" Demo.at_version_3
              (mkWorld (Some Demo.session_text) [] 1 Demo.rotating)
              (Some (JStr "t0"))
              (mkResponse 200 (Some (JObj [("vault_version", JNum 7)])) None))
    as (_ & _ & _ & _ & Hversion & _).
  - vm_compute. reflexivity.
  - reflexivity.
  - vm_compute. reflexivity.
  - reflexivity.
  - apply (Hversion eq_refl). cbn [vaultVersion Demo.rotating]. lia.
Defined.

(** The version is advanced from what the component holds, not from what
    was sent: a closure rendered at version 3, in a component that has
    moved on to version 10, sends 3 and leaves 11. *)
Example stale_closure_advances_current_version :
  let run := putVaultWithVersion (json := Demo.compact_json) (date := Demo.engine 0)
               (env := Demo.willing_server) (keyed := Demo.keyed)
               Demo.rotating "blob"
               (mkWorld (Some Demo.session_text) [] 0
                  (mkApp "a@b.com" "CorrectHorse9!" (JObj [("passwords", JArr [])]) 10
                     "CorrectHorse9!" "Tr0ub4dor&3")) in
  fst run = Ok (mkPutResult true false) /\
  vaultVersion Demo.rotating = 3%Z /\
  vaultVersion (ui (snd run)) = 11%Z.
Proof. vm_compute. repeat split. Qed.

(** C5 as the specification states it fails: the server echoes the version
    7 in its response to the upload of version 3, the upload is reported as
    a success, and the version of the component becomes 4. *)
Lemma echoed_version_not_read :
  let run := putVaultWithVersion (json := Demo.compact_json) (date := Demo.engine 0)
               (env := Demo.willing_server) (keyed := Demo.keyed)
               Demo.rotating "blob" Demo.at_version_3 in
  fetch_reply (Environment := Demo.willing_server) []
    (upload_request (json := Demo.compact_json) (Some (JStr "t0")) Demo.rotating "blob")
  = Reply (mkResponse 200 (Some (JObj [("vault_version", JNum 7)])) None) /\
  fst run = Ok (mkPutResult true false) /\
  vaultVersion (ui (snd run)) = 4%Z /\
  vaultVersion (ui (snd run)) <> 7%Z.
Proof. vm_compute. repeat split. discriminate. Qed.
(** ** Generated passwords *)

Example generatePassword_counting :
  fst (generatePassword (limits := Demo.v8) None Demo.counting) = Ok "abcdefghijklmnop".
Proof. reflexivity. Qed.

Lemma fold_left_append_ext {A} (g h : A -> string) (l : list A) (acc : string) :
  (forall x, In x l -> g x = h x) ->
  fold_left (fun p x => (p ++ g x)%string) l acc
  = fold_left (fun p x => (p ++ h x)%string) l acc.
Proof.
  revert acc. induction l as [|x l IH]; intros acc H; [reflexivity|].
  cbn [fold_left]. rewrite (H x (or_introl eq_refl)).
  apply IH. intros y Hy. apply H. now right.
Qed.

Lemma fold_left_seq_nth {A} (f : A -> string) (d : A) (l : list A) (acc : string) :
  fold_left (fun p i => (p ++ f (nth i l d))%string) (seq 0 (List.length l)) acc
  = fold_left (fun p x => (p ++ f x)%string) l acc.
Proof.
  revert acc. induction l as [|x l IH] using rev_ind; intros acc; [reflexivity|].
  rewrite length_app, seq_app, !fold_left_app. cbn [List.length seq fold_left Nat.add].
  rewrite nth_middle.
  rewrite (fold_left_append_ext (fun i => f (nth i (l ++ [x]) d)) (fun i => f (nth i l d))).
  - now rewrite IH.
  - intros i Hi. apply in_seq in Hi. now rewrite app_nth1 by lia.
Qed.

Lemma string_app_assoc (a b c : string) : ((a ++ b) ++ c = a ++ (b ++ c))%string.
Proof. induction a as [|x a IH]; [reflexivity|]. cbn. now rewrite IH. Qed.

Lemma fold_left_chars (f : byte -> ascii) (l : list byte) (acc : string) :
  fold_left (fun p x => (p ++ String (f x) "")%string) l acc
  = (acc ++ string_of_list_ascii (map f l))%string.
Proof.
  revert acc. induction l as [|x l IH]; intros acc.
  - cbn. induction acc as [|c acc IHa]; [reflexivity|]. cbn. now rewrite <- IHa.
  - cbn [fold_left map string_of_list_ascii]. rewrite IH. now rewrite string_app_assoc.
Qed.

Lemma char_at_charset (b : byte) :
  char_at charset (charset_index b) = String (password_char b) "" /\
  in_string (password_char b) charset = true.
Proof. destruct b; vm_compute; split; reflexivity. Qed.

Section PasswordFacts.

Context {limits : Limits}.

Lemma max_byte_length_room : (65536 <= max_byte_length)%Z.
Proof. apply Z.leb_le, byte_length_room. Qed.

(** A password is made character by character, each of its own byte. *)
Lemma generatePassword_chars (n : Z) (e : Entropy) :
  (0 <= n <= 65536)%Z ->
  generatePassword (Some n) e
  = (Ok (string_of_list_ascii (map password_char (map e (seq 0 (Z.to_nat n))))),
     fun i => e (Z.to_nat n + i)%nat).
Proof.
  intros Hn. pose proof max_byte_length_room as Hroom. unfold generatePassword.
  destruct (Z.ltb_spec n 0); [lia|]. destruct (Z.ltb_spec max_byte_length n); [lia|].
  cbn [orb].
  destruct (Z.ltb_spec 65536 n); [lia|].
  unfold getRandomValues.
  set (l := map e (seq 0 (Z.to_nat n))).
  replace (seq 0 (Z.to_nat n)) with (seq 0 (List.length l)) at 1
    by (unfold l; now rewrite length_map, length_seq).
  rewrite (fold_left_seq_nth (fun b => char_at charset (charset_index b))).
  rewrite (fold_left_append_ext _ (fun b => String (password_char b) ""))
    by (intros b _; apply char_at_charset).
  now rewrite fold_left_chars.
Qed.

Lemma length_string_of_list_ascii (l : list ascii) :
  String.length (string_of_list_ascii l) = List.length l.
Proof. induction l as [|c l IH]; [reflexivity|]. cbn. now rewrite IH. Qed.

(** [generatePassword] returns a password exactly for a length from 0 to
    65536: the password has that many characters, all of them of the
    charset, and that many random bytes were consumed.  For any other
    length it throws, and consumes nothing. *)
Theorem generatePassword_length_and_alphabet (n : Z) (e : Entropy) :
  match generatePassword (Some n) e with
  | (Ok s, e') =>
      (0 <= n <= 65536)%Z /\
      String.length s = Z.to_nat n /\
      Forall (fun c => In c (list_ascii_of_string charset)) (list_ascii_of_string s) /\
      e' = fun i => e (Z.to_nat n + i)%nat
  | (Err _, e') => ((n < 0)%Z \/ (65536 < n)%Z) /\ e' = e
  end.
Proof.
  destruct (Z.ltb_spec n 0) as [Hneg|Hpos].
  - unfold generatePassword. destruct (Z.ltb_spec n 0); [|lia]. split; [now left|reflexivity].
  - destruct (Z.ltb_spec 65536 n) as [Hbig|Hfit].
    + unfold generatePassword. destruct (Z.ltb_spec n 0); [lia|]. cbn [orb].
      destruct (Z.ltb_spec 65536 n); [|lia].
      destruct (max_byte_length <? n)%Z; split; (now right) || reflexivity.
    + rewrite generatePassword_chars by lia.
      split; [lia|]. split; [|split; [|reflexivity]].
      * now rewrite length_string_of_list_ascii, !length_map, length_seq.
      * rewrite list_ascii_of_string_of_list_ascii.
        apply Forall_forall. intros c Hc.
        apply in_map_iff in Hc. destruct Hc as (b & <- & _).
        destruct (char_at_charset b) as [_ Hin].
        apply existsb_exists in Hin. destruct Hin as (c' & Hc' & Heq).
        apply Ascii.eqb_eq in Heq. now rewrite Heq.
Qed.

(** The characters are not equally likely.  The charset has 88 characters
    and a random byte 256 values: each of the last eight characters of the
    charset is drawn for two values of the byte, each of the other eighty
    for three. *)
Theorem generatePassword_modulo_bias (c : ascii) :
  draws c = if in_string c "|;:,.<>?" then 2%nat
            else if in_string c charset then 3%nat
            else 0%nat.
Proof.
  unfold draws.
  rewrite (filter_ext _ (fun b => String.eqb (String (password_char b) "") (String c "")))
    by (intros b; now rewrite generatePassword_chars by lia).
  destruct c as [[] [] [] [] [] [] [] []]; vm_compute; reflexivity.
Qed.

End PasswordFacts.
(** * Further properties of the API module *)

(** ** The session store *)

Section SessionStoreFacts.

Context {json : Json} {date : DateApi} {env : Environment}.

Lemma run_loadSession (raw : string) (s : JsValue) (w : World) :
  storage w = Some raw -> raw <> "" -> JSON_parse raw = Some s ->
  loadSession w = (Ok s, w).
Proof.
  intros Hst Hne Hp. unfold loadSession, localStorage_getItem.
  rewrite run_bind, Hst. destruct (String.eqb_spec raw ""); [contradiction|].
  now rewrite Hp.
Qed.

(** What [saveSession] has stored, [loadSession] reads back: the token as
    it was given, unless it was [undefined], and the normalised expiry.
    Nothing is sent and nothing is thrown. *)
Theorem saveSession_loadSession (info : SessionInfo) (w : World) (e : string) :
  let stored := session_to_js (mkSession (token info) e) in
  fst (normalizeExpiresToISO (expires_at info) w) = Ok e ->
  JSON_stringify stored <> "" ->
  JSON_parse (JSON_stringify stored) = Some stored ->
  exists w1,
    saveSession info w = (Ok tt, w1) /\
    loadSession w1 = (Ok stored, w1) /\
    log w1 = log w /\ ui w1 = ui w.
Proof.
  intros stored He Hne Hp. unfold saveSession.
  destruct (normalize_runs (expires_at info) w) as (e' & w0 & Hn & (Hl & _ & Hu)).
  rewrite Hn in He. injection He as ->.
  rewrite (bind_ok _ _ _ _ _ Hn).
  eexists. split; [reflexivity|]. split; [|now split].
  now apply (run_loadSession (JSON_stringify stored)).
Qed.

Lemma get_member_truthy (s : JsValue) (k : string) :
  truthy (Some s) = true -> get_member (Some s) k = Ok (get_prop (Some s) k).
Proof. now destruct s. Qed.

Lemma run_isSessionExpired (s : JsValue) (w : World) :
  truthy (Some s) = true ->
  isSessionExpired s w
  = match Date_parse (js_String (get_prop (Some s) "expires_at")) with
    | None => (Ok true, w)
    | Some exp => (Ok (exp <? clock (ticks w))%Z, tick w)
    end.
Proof.
  intros Ht. unfold isSessionExpired.
  rewrite run_catch, run_bind, run_lift, (get_member_truthy _ _ Ht).
  now destruct (Date_parse _).
Qed.

(** The headers made of a stored session, by the reading of the clock. *)
Lemma run_authHeadersIfAvailable (raw : string) (s : JsValue) (exp : Z) (w : World) :
  storage w = Some raw -> raw <> "" -> JSON_parse raw = Some s ->
  truthy (Some s) = true ->
  Date_parse (js_String (get_prop (Some s) "expires_at")) = Some exp ->
  authHeadersIfAvailable w
  = (Ok (if (exp <? clock (ticks w))%Z then []
         else [("Authorization",
                ("Bearer " ++ js_String (get_prop (Some s) "token"))%string)]),
     tick w).
Proof.
  intros Hst Hne Hp Ht Hexp. unfold authHeadersIfAvailable.
  rewrite (bind_ok _ _ _ _ _ (run_loadSession raw s w Hst Hne Hp)), Ht. cbn [negb].
  rewrite run_bind, (run_isSessionExpired s w Ht), Hexp.
  now destruct (exp <? clock (ticks w))%Z.
Qed.

(** A stored session is in use up to and including the instant of its
    expiry, and no longer: [getSessionToken] returns its token, and
    [authHeadersIfAvailable] the header made of it, when the clock reads at
    most the expiry; after it, [null] and no header. *)
Theorem session_valid_until_expiry (raw : string) (s : JsValue) (exp : Z) (w : World) :
  storage w = Some raw -> raw <> "" -> JSON_parse raw = Some s ->
  truthy (Some s) = true ->
  Date_parse (js_String (get_prop (Some s) "expires_at")) = Some exp ->
  let expired := (exp <? clock (ticks w))%Z in
  getSessionToken w
  = (Ok (if expired then Some JNull else get_prop (Some s) "token"), tick w) /\
  authHeadersIfAvailable w
  = (Ok (if expired then []
         else [("Authorization",
                ("Bearer " ++ js_String (get_prop (Some s) "token"))%string)]),
     tick w).
Proof.
  intros Hst Hne Hp Ht Hexp expired. subst expired.
  pose proof (run_loadSession raw s w Hst Hne Hp) as Hl.
  unfold getSessionToken, authHeadersIfAvailable.
  rewrite !(bind_ok _ _ _ _ _ Hl), Ht. cbn [negb].
  rewrite !run_bind, (run_isSessionExpired s w Ht), Hexp.
  now destruct (exp <? clock (ticks w))%Z.
Qed.

(** Whether a stored text is of no use as a session: it is empty or not
    JSON, or it is JSON of which the engine reads no expiry. *)
Lemma no_session_check (w : World) :
  storage w = None \/
  (exists raw, storage w = Some raw /\
     (raw = "" \/ JSON_parse raw = None \/
      exists s, JSON_parse raw = Some s /\
                Date_parse (js_String (get_prop (Some s) "expires_at")) = None)) ->
  exists s,
    loadSession w = (Ok s, w) /\
    (if negb (truthy (Some s)) then ret true else isSessionExpired s) w = (Ok true, w).
Proof.
  intros [Hst|(raw & Hst & H)].
  - exists JNull. unfold loadSession, localStorage_getItem. now rewrite run_bind, Hst.
  - unfold loadSession, localStorage_getItem. rewrite run_bind, Hst.
    destruct (String.eqb_spec raw "") as [->|Hne]; [now exists JNull|].
    destruct H as [->|[Hp|(s & Hp & Hd)]]; [contradiction| |]; rewrite Hp.
    + now exists JNull.
    + exists s. split; [reflexivity|].
      destruct (truthy (Some s)) eqn:Ht; cbn [negb]; [|reflexivity].
      now rewrite (run_isSessionExpired s w Ht), Hd.
Qed.

(** Without a stored session of use (none is stored; or the stored text is
    empty, is not JSON, or has no expiry the engine can read) nothing is
    thrown on reading it: [getSessionToken] returns [null], no
    [Authorization] header is made, and [changePassword] throws "Not
    authenticated" before anything is sent. *)
Theorem no_session_no_credentials (currentPassword newPassword : string) (w : World) :
  storage w = None \/
  (exists raw, storage w = Some raw /\
     (raw = "" \/ JSON_parse raw = None \/
      exists s, JSON_parse raw = Some s /\
                Date_parse (js_String (get_prop (Some s) "expires_at")) = None)) ->
  getSessionToken w = (Ok (Some JNull), w) /\
  authHeadersIfAvailable w = (Ok [], w) /\
  changePassword currentPassword newPassword w = (Err (new_Error "Not authenticated"), w).
Proof.
  intros H. destruct (no_session_check w H) as (s & Hl & Hc).
  assert (Ha : authHeadersIfAvailable w = (Ok [], w)).
  { unfold authHeadersIfAvailable.
    now rewrite (bind_ok _ _ _ _ _ Hl), (bind_ok _ _ _ _ _ Hc). }
  split; [|split; [exact Ha|]].
  - unfold getSessionToken.
    now rewrite (bind_ok _ _ _ _ _ Hl), (bind_ok _ _ _ _ _ Hc).
  - unfold changePassword. now rewrite (bind_ok _ _ _ _ _ Ha).
Qed.

(** [changePassword] sends the two passwords exactly under a stored session
    that has not expired when the clock is read, whether or not the
    session has a token.  After the expiry it throws "Not authenticated"
    and sends nothing.  Up to the expiry it sends one POST to
    [/auth/change-password], with the two passwords as its body and the
    header [Authorization: Bearer <token>]; for a session that was stored
    without a token, which [createSessionForEmail] does not refuse to
    store, the header is "Bearer undefined", and the passwords are sent all
    the same.  A success returns the body of the response; a refusal is
    thrown with the code of the service or [http_<status>].  The stored
    session and the component are left as they are. *)
Theorem changePassword_sends_only_authenticated
  (currentPassword newPassword raw : string) (s : JsValue) (exp : Z) (w : World) :
  storage w = Some raw -> raw <> "" -> JSON_parse raw = Some s ->
  truthy (Some s) = true ->
  Date_parse (js_String (get_prop (Some s) "expires_at")) = Some exp ->
  let run := changePassword currentPassword newPassword w in
  let req :=
    mkRequest "POST" (API_BASE ++ "/auth/change-password")
      [("Authorization", ("Bearer " ++ js_String (get_prop (Some s) "token"))%string);
       ("Content-Type", "application/json")]
      (Some (JSON_stringify (JObj [("current_password", JStr currentPassword);
                                   ("new_password", JStr newPassword)]))) in
  storage (snd run) = storage w /\ ui (snd run) = ui w /\
  (if (exp <? clock (ticks w))%Z
   then run = (Err (new_Error "Not authenticated"), tick w)
   else
     log (snd run) = log w ++ [Fetched req] /\
     fst run = match fetch_reply (log w) req with
               | NetworkError => Err TypeError
               | Reply res =>
                   if ok res then or_throw (res_json res) SyntaxError
                   else Err (refusal res (Some (JStr "Failed to change password"))
                               ("http_" ++ string_of_Z (status res)))
               end) /\
  (get_prop (Some s) "token" = None ->
   req_headers req
   = [("Authorization", "Bearer undefined"); ("Content-Type", "application/json")]).
Proof.
  intros Hst Hne Hp Ht Hexp run req. subst run.
  pose proof (run_authHeadersIfAvailable raw s exp w Hst Hne Hp Ht Hexp) as Ha.
  assert (Hundefined :
            get_prop (Some s) "token" = None ->
            req_headers req
            = [("Authorization", "Bearer undefined"); ("Content-Type", "application/json")]).
  { intros Hnone. subst req. cbn [req_headers]. now rewrite Hnone. }
  unfold changePassword. rewrite (bind_ok _ _ _ _ _ Ha). unfold json_headers.
  destruct (exp <? clock (ticks w))%Z.
  - cbn [app header String.eqb Ascii.eqb Bool.eqb]. rewrite run_throw.
    cbn [snd tick storage ui]. repeat split. exact Hundefined.
  - cbn [app header String.eqb Ascii.eqb Bool.eqb].
    fold req. rewrite run_bind, run_fetch. cbn [tick log].
    destruct (fetch_reply (log w) req) as [|res].
    { cbn [fst snd after storage ui log tick fold_left add_event].
      repeat split. exact Hundefined. }
    destruct (ok res) eqn:Hok; cbn [negb].
    + rewrite run_lift. cbn [fst snd after storage ui log tick fold_left add_event].
      repeat split. exact Hundefined.
    + rewrite run_throw. cbn [fst snd after storage ui log tick fold_left add_event].
      unfold refusal, http_code. rewrite err_status_parse.
      repeat split. exact Hundefined.
Qed.

(** The expiry is normalised once for the result and once more on
    storing. *)
Lemma session_of_response_stores
  (res : Response) (w : World) (info : SessionInfo) (w' : World) :
  session_of_response res w = (Ok info, w') ->
  exists w1 e,
    fst (normalizeExpiresToISO (expires_at info) w1) = Ok e /\
    storage w' = Some (JSON_stringify (session_to_js (mkSession (token info) e))).
Proof.
  intros E. unfold session_of_response in E.
  destruct (ok res); cbn [negb] in E; [|rewrite run_throw in E; discriminate].
  step E; rewrite run_lift in Em; injection Em as Em <-; [|discriminate].
  step E; rewrite run_lift in Em0; injection Em0 as Em0 <-; [|discriminate].
  step E; rewrite run_lift in Em1; injection Em1 as Em1 <-; [|discriminate].
  destruct (normalize_runs (js_String a1) w) as (iso & w1 & Hn & Hq).
  rewrite (bind_ok _ _ _ _ _ Hn) in E.
  unfold saveSession in E. cbn [expires_at token] in E.
  destruct (normalize_runs iso w1) as (e & w2 & Hn2 & Hq2).
  rewrite run_bind, (bind_ok _ _ _ _ _ Hn2) in E.
  unfold localStorage_setItem in E. rewrite run_ret in E. done_run E.
  exists w1, e. cbn [expires_at token set_storage storage].
  split; [now rewrite Hn2|reflexivity].
Qed.

(** The session [createSessionForEmail] returns is the session it has
    stored, when the engine reads the returned expiry back as it was
    written: the second normalisation then leaves it as it is. *)
Theorem createSessionForEmail_stores_returned_session
  (email : string) (masterPassword : option string) (w : World)
  (info : SessionInfo) (w' : World) (t : Z) :
  createSessionForEmail email masterPassword w = (Ok info, w') ->
  expires_at info <> "" ->
  Date_parse (expires_at info) = Some t ->
  toISOString t = expires_at info ->
  storage w' = Some (JSON_stringify (session_to_js info)).
Proof.
  intros E Hne Hp Hiso.
  rewrite createSessionForEmail_first_found, run_bind in E.
  destruct (first_found _ _ _ w) as [[res|e0] w0]; [|discriminate].
  apply session_of_response_stores in E. destruct E as (w1 & e & He & Hst).
  rewrite (normalize_engine_reading _ t w1 Hne Hp), Hiso in He.
  injection He as <-. rewrite Hst. now destruct info.
Qed.

(** The message of a refused request is always the service's own: its
    [message] or [error], or else the JSON text of its body; for a response
    that is not JSON its text, or else "HTTP <status>".  It is never
    empty, so the messages the callers would put in its place ("Failed to
    update vault" and the like) are never used. *)
Theorem parseErrorResponse_message (res : Response) :
  (forall body, res_json res = Some body -> JSON_stringify body <> "") ->
  truthy (message (parseErrorResponse res)) = true /\
  forall (fallback : JsValue) (dflt : string),
    refusal res (Some fallback) dflt = refusal res None dflt.
Proof.
  intros Hne.
  assert (Ht : truthy (message (parseErrorResponse res)) = true).
  { unfold parseErrorResponse.
    destruct (res_json res) as [body|] eqn:Hb; cbn [message].
    - specialize (Hne body eq_refl). unfold js_or.
      destruct (truthy (get_prop (Some body) "message")) eqn:H1; [now rewrite H1|].
      destruct (truthy (get_prop (Some body) "error")) eqn:H2; [now rewrite H2|].
      cbn [truthy]. destruct (String.eqb_spec (JSON_stringify body) ""); [contradiction|].
      reflexivity.
    - unfold js_or. destruct (res_text res) as [[|c t]|]; reflexivity. }
  split; [exact Ht|]. intros fallback dflt. unfold refusal, js_or. now rewrite Ht.
Qed.

(** ** Requests under a stored session *)

(** [data?.encrypted_vault ?? null] *)
Lemma nullish_null (v : JsAny) :
  match js_nullish v (Some JNull) with
  | Some x => x
  | None => JNull
  end
  = match v with
    | Some x => x
    | None => JNull
    end.
Proof. now destruct v as [[]|]. Qed.

(** With a stored session that has not expired when [getVault] checks it,
    no session is created: the one request is the GET of the vault, and the
    stored session is left as it is.  The clock is read a second time for
    the headers, and the request carries the token only if the session has
    not expired by then either.  A success with a JSON body is returned as
    [encrypted_vault], [null] when the body has none, and [vault_version]
    when the body has a number there; a refusal is thrown with the code of
    the service or [http_<status>]. *)
Theorem getVault_reuses_session
  (email : string) (masterPassword : option string)
  (raw : string) (s : JsValue) (exp : Z) (w : World) :
  email <> "" ->
  storage w = Some raw -> raw <> "" -> JSON_parse raw = Some s ->
  truthy (Some s) = true ->
  Date_parse (js_String (get_prop (Some s) "expires_at")) = Some exp ->
  (clock (ticks w) <= exp)%Z ->
  let auth :=
    if (exp <? clock (S (ticks w)))%Z then []
    else [("Authorization", ("Bearer " ++ js_String (get_prop (Some s) "token"))%string)] in
  let req := mkRequest "GET" (API_BASE ++ "/vault/") (auth ++ json_headers) None in
  getVault email masterPassword w
  = (match fetch_reply (log w) req with
     | NetworkError => Err TypeError
     | Reply res =>
         if ok res then
           match res_json res with
           | Some data =>
               Ok (mkVaultData
                     (match get_prop (Some data) "encrypted_vault" with
                      | Some v => v
                      | None => JNull
                      end)
                     (number_or_undefined (get_prop (Some data) "vault_version")))
           | None => Err SyntaxError
           end
         else Err (refusal res None ("http_" ++ string_of_Z (status res)))
     end,
     after [Fetched req] (tick (tick w))).
Proof.
  intros Hemail Hst Hne Hp Ht Hexp Hnow auth req.
  unfold getVault. destruct (String.eqb_spec email ""); [contradiction|].
  assert (He : ensureSession email masterPassword w = (Ok s, tick w)).
  { unfold ensureSession.
    rewrite (bind_ok _ _ _ _ _ (run_loadSession raw s w Hst Hne Hp)), Ht. cbn [negb].
    rewrite run_bind, (run_isSessionExpired s w Ht), Hexp.
    destruct (Z.ltb_spec exp (clock (ticks w))); [lia|reflexivity]. }
  rewrite (bind_ok _ _ _ _ _ He).
  pose proof (run_authHeadersIfAvailable raw s exp (tick w) Hst Hne Hp Ht Hexp) as Ha.
  cbn [tick ticks] in Ha. rewrite (bind_ok _ _ _ _ _ Ha).
  fold auth. fold req. rewrite run_bind, run_fetch.
  cbn [tick ticks log].
  destruct (fetch_reply (log w) req) as [|res]; [reflexivity|].
  destruct (ok res); cbn [negb].
  - rewrite run_bind, run_lift. destruct (res_json res) as [data|]; [|reflexivity].
    cbn [or_throw]. now rewrite run_ret, nullish_null.
  - rewrite run_throw. unfold refusal, http_code. now rewrite err_status_parse.
Qed.

(** ** Arguments are checked before anything is done *)

(** The calls that need an email, and those that need a master password,
    throw without one (an empty one is none) before anything is sent, read
    or stored. *)
Theorem required_arguments_checked_first
  (c : ascii) (email encryptedVault : string) (blob masterPassword username : option string)
  (vault_version : option Z) (w : World) :
  getVault "" masterPassword w
  = (Err (new_Error "email is required to fetch vault"), w) /\
  updateVault "" encryptedVault masterPassword vault_version w
  = (Err (new_Error "email is required to update vault"), w) /\
  registerUser "" blob masterPassword username w
  = (Err (new_Error "email is required"), w) /\
  login "" masterPassword w
  = (Err (new_Error "email and masterPassword required for login"), w) /\
  (forall missing, In missing [None; Some ""] ->
   registerUser (String c email) blob missing username w
   = (Err (new_Error "masterPassword is required for registration"), w) /\
   login (String c email) missing w
   = (Err (new_Error "email and masterPassword required for login"), w)).
Proof.
  split; [reflexivity|]. split; [reflexivity|]. split; [reflexivity|].
  split; [reflexivity|].
  intros missing [<-|[<-|[]]]; split; reflexivity.
Qed.

End SessionStoreFacts.

(** ** The health checks *)

Section HealthFacts.

Context {env : Environment}.

Example health_urls :
  (replace "/api/v1" "" API_BASE ++ "/health")%string = "http://localhost:3000/health" /\
  (API_BASE ++ "/auth/health")%string = "http://localhost:3000/api/v1/auth/health".
Proof. split; reflexivity. Qed.

(** A health check is one GET, without headers and without a body, so
    that it carries no session token even when one is stored; the first
    goes to [/health] outside the versioned prefix, the second to
    [/api/v1/auth/health].  It returns the text of a response that is a
    success, and throws on every other, with the status in its message; the
    stored session and the component are left as they are. *)
Theorem health_checks_send_no_credentials (w : World) :
  let answer (what : string) (req : Request) : result string * World :=
    (match fetch_reply (log w) req with
     | NetworkError => Err TypeError
     | Reply res =>
         if ok res then or_throw (res_text res) TypeError
         else Err (new_Error (what ++ " failed: " ++ string_of_Z (status res) ++ " "
                              ++ match res_text res with Some t => t | None => "" end))
     end, after [Fetched req] w) in
  fetchHealth w
  = answer "Health check" (mkRequest "GET" "http://localhost:3000/health" [] None) /\
  fetchAuthHealth w
  = answer "Auth health check"
      (mkRequest "GET" "http://localhost:3000/api/v1/auth/health" [] None).
Proof.
  intros answer. subst answer. cbv beta.
  unfold fetchHealth, fetchAuthHealth, fetch_url.
  rewrite !run_bind, !run_fetch.
  destruct health_urls as [-> ->].
  split.
  - destruct (fetch_reply _ _) as [|res]; [reflexivity|].
    destruct (ok res); reflexivity.
  - destruct (fetch_reply _ _) as [|res]; [reflexivity|].
    destruct (ok res); reflexivity.
Qed.

End HealthFacts.
(** * The session store on the platforms to compute with *)

Example year_2099_parsed :
  Demo.parse_date 0 "2099-01-01T00:00:00Z" = Some Demo.year_2099 /\
  Demo.parse_iso 0 (Demo.iso_string Demo.year_2099) = Some Demo.year_2099.
Proof. vm_compute. split; reflexivity. Qed.

Lemma saveSession_loadSession_witness :
  exists w1,
    saveSession (json := Demo.compact_json) (date := Demo.engine 0)
      (env := Demo.legacy_server) Demo.granted Demo.fresh = (Ok tt, w1) /\
    loadSession (json := Demo.compact_json) w1
    = (Ok (JObj [("token", JStr "t1"); ("expires_at", JStr "2024-01-01T13:00:00.000Z")]),
       w1) /\
    log w1 = [] /\ ui w1 = Demo.no_state.
Proof.
  apply (@saveSession_loadSession Demo.compact_json (Demo.engine 0) Demo.legacy_server
           Demo.granted Demo.fresh "2024-01-01T13:00:00.000Z").
  - vm_compute. reflexivity.
  - vm_compute. discriminate.
  - vm_compute. reflexivity.
Defined.

Lemma session_valid_until_expiry_witness :
  getSessionToken (json := Demo.compact_json) (date := Demo.engine 0)
    (env := Demo.legacy_server) Demo.signed_in
  = (Ok (Some (JStr "t0")), tick Demo.signed_in) /\
  authHeadersIfAvailable (json := Demo.compact_json) (date := Demo.engine 0)
    (env := Demo.legacy_server) Demo.signed_in
  = (Ok [("Authorization", "Bearer t0")], tick Demo.signed_in).
Proof.
  apply (@session_valid_until_expiry Demo.compact_json (Demo.engine 0) Demo.legacy_server
           Demo.session_text
           (JObj [("token", JStr "t0"); ("expires_at", JStr "2099-01-01T00:00:00Z")])
           Demo.year_2099 Demo.signed_in).
  - reflexivity.
  - vm_compute. discriminate.
  - vm_compute. reflexivity.
  - reflexivity.
  - vm_compute. reflexivity.
Defined.

(** The same session a second after its expiry. *)
Example session_expired_after_expiry :
  fst (getSessionToken (json := Demo.compact_json) (date := Demo.engine 0)
         (env := Demo.late_server) Demo.signed_in) = Ok (Some JNull) /\
  fst (authHeadersIfAvailable (json := Demo.compact_json) (date := Demo.engine 0)
         (env := Demo.late_server) Demo.signed_in) = Ok [].
Proof. vm_compute. split; reflexivity. Qed.

Lemma no_session_no_credentials_witness :
  getSessionToken (json := Demo.compact_json) (date := Demo.engine 0)
    (env := Demo.willing_server) Demo.fresh = (Ok (Some JNull), Demo.fresh) /\
  authHeadersIfAvailable (json := Demo.compact_json) (date := Demo.engine 0)
    (env := Demo.willing_server) Demo.fresh = (Ok [], Demo.fresh) /\
  changePassword (json := Demo.compact_json) (date := Demo.engine 0)
    (env := Demo.willing_server) "CorrectHorse9!" "Tr0ub4dor&3" Demo.fresh
  = (Err (new_Error "Not authenticated"), Demo.fresh).
Proof.
  apply (@no_session_no_credentials Demo.compact_json (Demo.engine 0) Demo.willing_server
           "CorrectHorse9!" "Tr0ub4dor&3" Demo.fresh).
  left. reflexivity.
Defined.

(** A session stored without a token: the passwords go out under
    "Bearer undefined". *)
Lemma changePassword_sends_only_authenticated_witness :
  let stored := JObj [("expires_at", JStr "2099-01-01T00:00:00Z")] in
  let w := mkWorld (Some (Demo.print_json stored)) [] 0 Demo.no_state in
  log (snd (changePassword (json := Demo.compact_json) (date := Demo.engine 0)
              (env := Demo.willing_server) "CorrectHorse9!" "Tr0ub4dor&3" w))
  = [Fetched
       (mkRequest "POST" "http://localhost:3000/api/v1/auth/change-password"
          [("Authorization", "Bearer undefined"); ("Content-Type", "application/json")]
          (Some (Demo.print_json (JObj [("current_password", JStr "CorrectHorse9!");
                                        ("new_password", JStr "Tr0ub4dor&3")]))))].
Proof.
  intros stored w.
  assert (Hne : Demo.print_json stored <> "") by (vm_compute; discriminate).
  assert (Hp : JSON_parse (Json := Demo.compact_json) (Demo.print_json stored)
               = Some stored) by (vm_compute; reflexivity).
  assert (Hexp : Date_parse (DateApi := Demo.engine 0)
                   (js_String (get_prop (Some stored) "expires_at"))
                 = Some Demo.year_2099) by (vm_compute; reflexivity).
  pose proof (@changePassword_sends_only_authenticated Demo.compact_json (Demo.engine 0)
                Demo.willing_server "CorrectHorse9!" "Tr0ub4dor&3"
                (Demo.print_json stored) stored Demo.year_2099 w
                eq_refl Hne Hp eq_refl Hexp) as H.
  cbv zeta in H. destruct H as (_ & _ & H & _).
  change ((Demo.year_2099 <? clock (Environment := Demo.willing_server) (ticks w))%Z)
    with false in H.
  exact (proj1 H).
Defined.

Lemma createSessionForEmail_stores_returned_session_witness :
  storage (snd (createSessionForEmail (json := Demo.compact_json) (date := Demo.iso_engine 0)
                  (env := Demo.legacy_server) "a@b.com" (Some "CorrectHorse9!") Demo.fresh))
  = Some (JSON_stringify (Json := Demo.compact_json)
            (session_to_js (mkSession (Some (JStr "t1")) "2024-01-01T13:00:00.000Z"))).
Proof.
  apply (@createSessionForEmail_stores_returned_session Demo.compact_json (Demo.iso_engine 0)
           Demo.legacy_server "a@b.com" (Some "CorrectHorse9!") Demo.fresh
           (mkSession (Some (JStr "t1")) "2024-01-01T13:00:00.000Z")
           (snd (createSessionForEmail (json := Demo.compact_json) (date := Demo.iso_engine 0)
                   (env := Demo.legacy_server) "a@b.com" (Some "CorrectHorse9!") Demo.fresh))
           1704114000000%Z).
  - vm_compute. reflexivity.
  - discriminate.
  - vm_compute. reflexivity.
  - vm_compute. reflexivity.
Defined.

Lemma parseErrorResponse_message_witness :
  truthy (message (parseErrorResponse (json := Demo.compact_json)
                     (mkResponse 409 (Some (JObj [("code", JStr "stale")])) None))) = true /\
  forall (fallback : JsValue) (dflt : string),
    refusal (json := Demo.compact_json)
      (mkResponse 409 (Some (JObj [("code", JStr "stale")])) None) (Some fallback) dflt
    = refusal (json := Demo.compact_json)
        (mkResponse 409 (Some (JObj [("code", JStr "stale")])) None) None dflt.
Proof.
  apply (@parseErrorResponse_message Demo.compact_json).
  intros body Hbody. injection Hbody as <-. vm_compute. discriminate.
Defined.

(** The message of that response is the JSON text of its body. *)
Example message_of_body_without_message :
  message (parseErrorResponse (json := Demo.compact_json)
             (mkResponse 409 (Some (JObj [("code", JStr "stale")])) None))
  = Some (JStr (Demo.print_json (JObj [("code", JStr "stale")]))).
Proof. reflexivity. Qed.

Lemma getVault_reuses_session_witness :
  getVault (json := Demo.compact_json) (date := Demo.engine 0) (env := Demo.willing_server)
    "a@b.com" (Some "CorrectHorse9!") Demo.signed_in
  = (Ok (mkVaultData
           (JStr ("CorrectHorse9!:" ++ Demo.print_json (JObj [("passwords", JArr [])])))
           (Some 3%Z)),
     after [Fetched (mkRequest "GET" "http://localhost:3000/api/v1/vault/"
                       [("Authorization", "Bearer t0");
                        ("Content-Type", "application/json")] None)]
       (tick (tick Demo.signed_in))).
Proof.
  rewrite (@getVault_reuses_session Demo.compact_json (Demo.engine 0) Demo.willing_server
             "a@b.com" (Some "CorrectHorse9!") Demo.session_text
             (JObj [("token", JStr "t0"); ("expires_at", JStr "2099-01-01T00:00:00Z")])
             Demo.year_2099 Demo.signed_in).
  - vm_compute. reflexivity.
  - discriminate.
  - reflexivity.
  - vm_compute. discriminate.
  - vm_compute. reflexivity.
  - reflexivity.
  - vm_compute. reflexivity.
  - vm_compute. discriminate.
Defined.
(** * The earlier API module *)

Section EarlierFacts.

Context {json : Json} {date : DateApi} {env : Environment}.

(** A stored session with an expiry that the engine cannot read: the
    earlier module takes it to be valid at every time, since no instant
    compares as later than NaN, and goes on using its token; the current
    module takes it to be expired. *)
Theorem unreadable_expiry_never_expired_earlier
  (raw : string) (s : JsValue) (x : string) (w : World) :
  storage w = Some raw -> raw <> "" -> JSON_parse raw = Some s ->
  get_prop (Some s) "expires_at" = Some (JStr x) ->
  Date_parse x = None ->
  EarlierApi.getSessionToken w = (Ok (get_prop (Some s) "token"), tick w) /\
  EarlierApi.authHeadersIfAvailable w
  = (Ok [("Authorization", ("Bearer " ++ js_String (get_prop (Some s) "token"))%string)],
     tick w) /\
  getSessionToken w = (Ok (Some JNull), w) /\
  authHeadersIfAvailable w = (Ok [], w).
Proof.
  intros Hst Hne Hp Hx Hd.
  assert (Ht : truthy (Some s) = true) by (destruct s; try discriminate; reflexivity).
  pose proof (run_loadSession raw s w Hst Hne Hp) as Hl.
  assert (He : EarlierApi.isSessionExpired s w = (Ok false, tick w)).
  { unfold EarlierApi.isSessionExpired.
    rewrite run_catch, run_bind, run_lift, (get_member_truthy _ _ Ht), Hx.
    cbn [EarlierApi.new_Date]. now rewrite Hd. }
  assert (Hn : isSessionExpired s w = (Ok true, w)).
  { rewrite (run_isSessionExpired s w Ht), Hx. cbn [js_String value_to_string].
    now rewrite Hd. }
  unfold EarlierApi.getSessionToken, EarlierApi.authHeadersIfAvailable,
    getSessionToken, authHeadersIfAvailable.
  rewrite !(bind_ok _ _ _ _ _ Hl), Ht. cbn [negb].
  rewrite !(bind_ok _ _ _ _ _ He), !(bind_ok _ _ _ _ _ Hn).
  repeat split.
Qed.

End EarlierFacts.

Lemma unreadable_expiry_never_expired_earlier_witness :
  EarlierApi.getSessionToken (json := Demo.compact_json) (date := Demo.engine 0)
    (env := Demo.late_server) Demo.undated
  = (Ok (Some (JStr "t0")), tick Demo.undated) /\
  EarlierApi.authHeadersIfAvailable (json := Demo.compact_json) (date := Demo.engine 0)
    (env := Demo.late_server) Demo.undated
  = (Ok [("Authorization", "Bearer t0")], tick Demo.undated) /\
  getSessionToken (json := Demo.compact_json) (date := Demo.engine 0)
    (env := Demo.late_server) Demo.undated
  = (Ok (Some JNull), Demo.undated) /\
  authHeadersIfAvailable (json := Demo.compact_json) (date := Demo.engine 0)
    (env := Demo.late_server) Demo.undated
  = (Ok [], Demo.undated).
Proof.
  apply (@unreadable_expiry_never_expired_earlier Demo.compact_json (Demo.engine 0)
           Demo.late_server
           (Demo.print_json (JObj [("token", JStr "t0"); ("expires_at", JStr "soon")]))
           (JObj [("token", JStr "t0"); ("expires_at", JStr "soon")]) "soon" Demo.undated).
  - reflexivity.
  - vm_compute. discriminate.
  - vm_compute. reflexivity.
  - reflexivity.
  - reflexivity.
Defined.
(** * The other handlers of the earlier component *)

(** ** What a computation leaves as it is *)

Lemma keeps_ui_ret {A} (a : A) : keeps_ui (ret a).
Proof. intros w r w' E. rewrite run_ret in E. now done_run E. Qed.

Lemma keeps_ui_throw {A} (e : JsError) : keeps_ui (@throw A e).
Proof. intros w r w' E. rewrite run_throw in E. now done_run E. Qed.

Lemma keeps_ui_lift {A} (x : result A) : keeps_ui (lift x).
Proof. intros w r w' E. rewrite run_lift in E. now done_run E. Qed.

Lemma keeps_ui_bind {A B} (m : M A) (k : A -> M B) :
  keeps_ui m -> (forall a, keeps_ui (k a)) -> keeps_ui (bind m k).
Proof.
  intros Hm Hk w r w' E. step E.
  - rewrite (Hk _ _ _ _ E). exact (Hm _ _ _ Em).
  - done_run E. exact (Hm _ _ _ Em).
Qed.

Lemma keeps_ui_catch {A} (m : M A) (h : JsError -> M A) :
  keeps_ui m -> (forall e, keeps_ui (h e)) -> keeps_ui (catch m h).
Proof.
  intros Hm Hh w r w' E. rewrite run_catch in E.
  destruct (m w) as [[a|e] w1] eqn:Em.
  - done_run E. exact (Hm _ _ _ Em).
  - rewrite (Hh _ _ _ _ E). exact (Hm _ _ _ Em).
Qed.

Section KeepsUi.

Context {json : Json} {date : DateApi} {env : Environment} {keyed : KeyedCrypto}.

Lemma keeps_ui_fetch (req : Request) : keeps_ui (fetch req).
Proof. intros w r w' E. rewrite run_fetch in E. now injection E as _ <-. Qed.

Lemma keeps_ui_alert (msg : string) : keeps_ui (alert msg).
Proof. intros w r w' E. unfold alert in E. now done_run E. Qed.

Lemma keeps_ui_draw {A} (f : nat -> result A) : keeps_ui (draw f).
Proof. intros w r w' E. unfold draw in E. now done_run E. Qed.

Lemma keeps_ui_createSessionForEmail (email : string) (masterPassword : option string) :
  keeps_ui (createSessionForEmail email masterPassword).
Proof. intros w r w' E. now apply createSessionForEmail_runs in E. Qed.

Lemma keeps_ui_ensureSession (email : string) (masterPassword : option string) :
  keeps_ui (ensureSession email masterPassword).
Proof. intros w r w' E. now apply ensureSession_runs in E. Qed.

Lemma keeps_ui_authHeadersIfAvailable : keeps_ui authHeadersIfAvailable.
Proof.
  intros w r w' E.
  destruct (authHeadersIfAvailable_runs w) as (auth & w1 & Ha & (_ & _ & Hu)).
  rewrite Ha in E. now done_run E.
Qed.

Lemma keeps_ui_getSessionToken : keeps_ui getSessionToken.
Proof.
  intros w r w' E.
  destruct (getSessionToken_runs w) as (tok & w1 & Ha & (_ & _ & Hu)).
  rewrite Ha in E. now done_run E.
Qed.

Lemma keeps_ui_getVault (email : string) (masterPassword : option string) :
  keeps_ui (getVault email masterPassword).
Proof.
  unfold getVault. destruct (String.eqb email ""); [apply keeps_ui_throw|].
  apply keeps_ui_bind; [apply keeps_ui_ensureSession|intros _].
  apply keeps_ui_bind; [apply keeps_ui_authHeadersIfAvailable|intros auth].
  apply keeps_ui_bind; [apply keeps_ui_fetch|intros res].
  destruct (negb (ok res)); [apply keeps_ui_throw|].
  apply keeps_ui_bind; [apply keeps_ui_lift|intros data]. apply keeps_ui_ret.
Qed.

Lemma keeps_ui_login (email : string) (masterPassword : option string) :
  keeps_ui (login email masterPassword).
Proof.
  unfold login. destruct (_ || _); [apply keeps_ui_throw|].
  apply keeps_ui_createSessionForEmail.
Qed.

Lemma keeps_ui_registerUser (email : string) (blob masterPassword username : option string) :
  keeps_ui (registerUser email blob masterPassword username).
Proof.
  unfold registerUser. destruct (String.eqb email ""); [apply keeps_ui_throw|].
  destruct masterPassword as [p|]; [|apply keeps_ui_throw].
  destruct (String.eqb p ""); [apply keeps_ui_throw|].
  apply keeps_ui_bind; [apply keeps_ui_fetch|intros res].
  destruct (negb (ok res)); [apply keeps_ui_throw|].
  apply keeps_ui_bind; [apply keeps_ui_createSessionForEmail|intros _].
  apply keeps_ui_lift.
Qed.

Lemma keeps_ui_logout : keeps_ui logout.
Proof.
  unfold logout.
  apply keeps_ui_bind.
  - apply keeps_ui_catch; [|intros e; apply keeps_ui_ret].
    apply keeps_ui_bind; [apply keeps_ui_authHeadersIfAvailable|intros auth].
    destruct (header _ _); [|apply keeps_ui_ret].
    apply keeps_ui_bind; [apply keeps_ui_fetch|intros _; apply keeps_ui_ret].
  - intros _ w r w' E. unfold clearSession, localStorage_removeItem in E. now done_run E.
Qed.

Lemma emits_createSessionForEmail (email : string) (masterPassword : option string) :
  emits harmless (createSessionForEmail email masterPassword).
Proof.
  intros w r w' E. apply createSessionForEmail_runs in E.
  destruct E as (_ & (posts & Hi & Hl) & _).
  exists (sent (session_payload email masterPassword) posts).
  split; [exact Hl|]. now apply sent_harmless.
Qed.

Lemma emits_login (email : string) (masterPassword : option string) :
  emits any_event (login email masterPassword).
Proof.
  unfold login. destruct (_ || _); [apply emits_throw|].
  apply (emits_weaken harmless); [reflexivity|apply emits_createSessionForEmail].
Qed.

Lemma emits_registerUser (email : string) (blob masterPassword username : option string) :
  emits any_event (registerUser email blob masterPassword username).
Proof.
  unfold registerUser. destruct (String.eqb email ""); [apply emits_throw|].
  destruct masterPassword as [p|]; [|apply emits_throw].
  destruct (String.eqb p ""); [apply emits_throw|].
  apply emits_bind; [apply emits_fetch; reflexivity|intros res].
  destruct (negb (ok res)); [apply emits_throw|].
  apply emits_bind; [|intros _; apply emits_lift].
  apply (emits_weaken harmless); [reflexivity|apply emits_createSessionForEmail].
Qed.

Lemma emits_any_getVault (email : string) (masterPassword : option string) :
  emits any_event (getVault email masterPassword).
Proof. apply (emits_weaken harmless); [reflexivity|apply emits_getVault]. Qed.

End KeepsUi.

(** ** Login and registration *)

Section LoginFacts.

Context {json : Json} {date : DateApi} {env : Environment} {keyed : KeyedCrypto}.

Lemma run_draw {A} (f : nat -> result A) (w : World) : draw f w = (f (ticks w), tick w).
Proof. reflexivity. Qed.



(** ** Logout *)

Lemma logout_runs (w : World) :
  exists w1, logout w = (Ok tt, w1) /\ storage w1 = None.
Proof.
  unfold logout. rewrite run_bind, run_catch.
  destruct (authHeadersIfAvailable_runs w) as (auth & w0 & Ha & _).
  rewrite (bind_ok _ _ _ _ _ Ha).
  destruct (header "Authorization" (auth ++ json_headers));
    [|eexists; split; reflexivity].
  rewrite run_bind, run_fetch.
  destruct (fetch_reply _ _); eexists; split; reflexivity.
Qed.

(** [handleLogout] does not throw.  It leaves the component logged out,
    with the empty vault, no master password and version 0, and the page
    without a stored session, whatever the network answers; at most the one
    request to [/auth/logout] is sent, and "Logged out." is shown last.
    What was typed for a password change is not cleared. *)
Theorem handleLogout_wipes (s : AppState) (f : EarlierApp.FormState) (w : World) :
  exists w' evs,
    EarlierApp.handleLogout s f w = (Ok (EarlierApp.setLoggedIn false f), w') /\
    storage w' = None /\
    masterPassword (ui w') = "" /\
    vault (ui w') = EarlierApp.empty_vault /\
    vaultVersion (ui w') = 0%Z /\
    currentPasswordForChange (ui w') = currentPasswordForChange (ui w) /\
    newPasswordForChange (ui w') = newPasswordForChange (ui w) /\
    log w' = log w ++ evs ++ [Alerted "Logged out."] /\
    (evs = [] \/
     exists headers,
       evs = [Fetched (mkRequest "POST" (API_BASE ++ "/auth/logout") headers None)]).
Proof.
  unfold EarlierApp.handleLogout.
  destruct (logout_runs w) as (w1 & El & Hst).
  pose proof (keeps_ui_logout _ _ _ El) as Hu.
  assert (Hlog : exists evs,
             log w1 = log w ++ evs /\
             (evs = [] \/
              exists headers,
                evs = [Fetched (mkRequest "POST" (API_BASE ++ "/auth/logout") headers None)])).
  { unfold logout in El. rewrite run_bind, run_catch in El.
    destruct (authHeadersIfAvailable_runs w) as (auth & w2 & Ha & (Hl & _)).
    rewrite (bind_ok _ _ _ _ _ Ha) in El.
    destruct (header "Authorization" (auth ++ json_headers)).
    - rewrite run_bind, run_fetch in El.
      destruct (fetch_reply _ _); cbn in El; injection El as <-;
        (eexists; split; [cbn; rewrite Hl; reflexivity|right; eexists; reflexivity]).
    - cbn in El. injection El as <-. exists []. cbn. rewrite Hl, app_nil_r. split; [reflexivity|now left]. }
  destruct Hlog as (evs & Hl & Hevs).
  rewrite (bind_ok _ _ _ _ _ El).
  eexists _, evs. split; [reflexivity|]. cbn.
  rewrite Hst, Hu, Hl, app_assoc. repeat split. exact Hevs.
Qed.

(** ** Adding a password *)

(** The vault of the component after an upload is the one before it,
    unless a conflict was reported. *)
Lemma putVaultWithVersion_vault
  (s : AppState) (encryptedVault : string) (w : World) (r : result PutResult) (w' : World) :
  putVaultWithVersion s encryptedVault w = (r, w') ->
  exists evs,
    log w' = log w ++ evs /\
    (vault (ui w') = vault (ui w) \/ In conflict_alert evs).
Proof.
  intros E. unfold putVaultWithVersion in E.
  destruct (getSessionToken_runs w) as (tok & w1 & Ht & (Hl1 & _ & Hu1)).
  rewrite (bind_ok _ _ _ _ _ Ht) in E.
  destruct (truthy tok); cbn [negb] in E.
  2:{ rewrite run_throw in E. done_run E. exists []. rewrite app_nil_r, Hu1. now split; [|left]. }
  rewrite run_bind, run_fetch in E.
  destruct (fetch_reply (log w1) _) as [|res].
  { done_run E. eexists. cbn. rewrite Hl1, Hu1. split; [reflexivity|now left]. }
  destruct (status res =? 409)%Z.
  - step E as latest w2 Eg.
    2:{ done_run E. destruct (emits_any_getVault _ _ _ _ _ Eg) as (evs & Hl & _).
        rewrite (keeps_ui_getVault _ _ _ _ _ Eg). cbn.
        eexists. rewrite Hl. cbn. rewrite Hl1, Hu1, <- app_assoc.
        split; [reflexivity|now left]. }
    destruct (emits_any_getVault _ _ _ _ _ Eg) as (evs2 & Hl2 & _).
    rewrite run_bind in E. unfold alert at 1 in E. cbn iota beta in E.
    match type of E with
    | ?m ?w0 = _ => assert (He : emits any_event m)
    end.
    { apply emits_bind; [|intros _; apply emits_ret].
      destruct (truthy _); [|apply emits_ret].
      apply emits_bind; [apply emits_draw|intros key].
      apply emits_bind; [apply emits_draw|intros dec].
      apply emits_bind;
        [apply emits_quiet; intros w0 r0 w0' E0; unfold setVault in E0; now done_run E0|intros _].
      destruct (vault_version latest); [|apply emits_ret].
      apply emits_quiet. intros w0 r0 w0' E0. unfold setVaultVersion in E0. now done_run E0. }
    destruct (He _ _ _ E) as (evs3 & Hl3 & _).
    exists ([Fetched (upload_request tok s encryptedVault)] ++ evs2 ++ [conflict_alert] ++ evs3).
    split; [|right].
    + rewrite Hl3. cbn [add_event log]. rewrite Hl2. cbn [after log].
      rewrite Hl1. unfold upload_request, conflict_alert.
      repeat (rewrite <- app_assoc; cbn [app]). reflexivity.
    + apply in_or_app. right. apply in_or_app. right. apply in_or_app. left. now left.
  - destruct (negb (ok res)).
    + rewrite run_throw in E. done_run E. eexists. cbn. rewrite Hl1, Hu1.
      split; [reflexivity|now left].
    + unfold setVaultVersion in E. rewrite run_bind in E. cbn in E. done_run E.
      eexists. cbn. rewrite Hl1, Hu1. split; [reflexivity|now left].
Qed.

Section AddPassword.

Variable code_points : string -> list string.

(** [handleAddPassword] adds the entry to the vault of the component
    before it uploads anything, and does not take it back: when the keyed
    module has encrypted the new vault, the handler does not throw,
    clears the three fields of the form, and leaves the component with the
    new vault, uploaded or not, unless a conflict was reported (the vault is
    then the one the server has, if it could be read). *)
Theorem handleAddPassword_keeps_entry
  (s : AppState) (f : EarlierApp.FormState) (w : World)
  (items : list JsValue) (key : CryptoKey) (blob : string) :
  let newVault :=
    JObj [("passwords",
           JArr (items ++ [JObj [("site", JStr (EarlierApp.site f));
                                 ("username", JStr (EarlierApp.username f));
                                 ("password", JStr (EarlierApp.password f))]]))] in
  get_prop (Some (vault s)) "passwords" = Some (JArr items) ->
  generateKey (ticks w) (masterPassword s) = Ok key ->
  encryptVault_key (S (ticks w)) newVault key = Ok blob ->
  exists w' evs,
    EarlierApp.handleAddPassword code_points s f w = (Ok (EarlierApp.clear_fields f), w') /\
    log w' = log w ++ evs /\
    (vault (ui w') = newVault \/ In conflict_alert evs).
Proof.
  intros newVault Hitems Hkey Hblob. unfold EarlierApp.handleAddPassword.
  assert (Hm : get_member (Some (vault s)) "passwords" = Ok (Some (JArr items))).
  { destruct (vault s); try discriminate. exact (f_equal Ok Hitems). }
  rewrite run_bind, run_lift, Hm, run_bind, run_lift. cbn [EarlierApp.spread].
  fold newVault.
  rewrite run_bind. unfold setVault at 1. cbn iota beta.
  rewrite run_bind, run_draw. cbn [ticks set_ui]. rewrite Hkey.
  rewrite run_bind, run_draw. cbn [ticks tick set_ui]. rewrite Hblob.
  rewrite run_bind, run_catch, run_bind.
  match goal with
  | |- context [putVaultWithVersion s blob ?w0] =>
      destruct (putVaultWithVersion s blob w0) as [[r|err] w1] eqn:Ep;
      destruct (putVaultWithVersion_vault _ _ _ _ _ Ep) as (evs & Hl & Hv)
  end; cbn [log ui tick set_ui vault] in Hl, Hv.
  - rewrite !run_ret. exists w1, evs. now split.
  - unfold alert. rewrite run_ret.
    eexists _, (evs ++ [Alerted _]). split; [reflexivity|]. cbn [add_event log ui].
    split; [now rewrite Hl, app_assoc|].
    destruct Hv as [Hv|Hin]; [now left|right; apply in_or_app; now left].
Qed.

End AddPassword.

End LoginFacts.
(** * The handlers on the platforms to compute with *)

Lemma handleAddPassword_keeps_entry_witness :
  exists w' evs,
    EarlierApp.handleAddPassword (json := Demo.compact_json) (date := Demo.engine 0)
      (env := Demo.willing_server) (keyed := Demo.keyed) Demo.ascii_code_points
      Demo.rotating Demo.typed_entry Demo.at_version_3
    = (Ok (EarlierApp.mkForm true "" "" ""), w') /\
    log w' = log Demo.at_version_3 ++ evs /\
    (vault (ui w')
     = JObj [("passwords",
              JArr [JObj [("site", JStr "example.org"); ("username", JStr "ann");
                          ("password", JStr "s3cret")]])]
     \/ In conflict_alert evs).
Proof.
  apply (@handleAddPassword_keeps_entry Demo.compact_json (Demo.engine 0)
           Demo.willing_server Demo.keyed Demo.ascii_code_points
           Demo.rotating Demo.typed_entry Demo.at_version_3 [] "CorrectHorse9!"
           ("CorrectHorse9!:"
            ++ Demo.print_json
                 (JObj [("passwords",
                         JArr [JObj [("site", JStr "example.org"); ("username", JStr "ann");
                                     ("password", JStr "s3cret")]])]))%string).
  - reflexivity.
  - reflexivity.
  - vm_compute. reflexivity.
Defined.

(** The entry is added and uploaded; the version goes from 3 to 4. *)
Example add_password_uploaded :
  let w' := snd (EarlierApp.handleAddPassword (json := Demo.compact_json)
                   (date := Demo.engine 0) (env := Demo.willing_server)
                   (keyed := Demo.keyed) Demo.ascii_code_points
                   Demo.rotating Demo.typed_entry Demo.at_version_3) in
  Demo.summary w' = ["PUT http://localhost:3000/api/v1/vault"] /\
  vaultVersion (ui w') = 4%Z /\
  vault (ui w')
  = JObj [("passwords",
           JArr [JObj [("site", JStr "example.org"); ("username", JStr "ann");
                       ("password", JStr "s3cret")]])].
Proof. vm_compute. repeat split. Qed.

(** On a conflict the vault of the server takes the place of the new one:
    the entry is gone from the component, and the form is cleared all the
    same. *)
Example add_password_lost_on_conflict :
  let run := EarlierApp.handleAddPassword (json := Demo.compact_json)
               (date := Demo.engine 0) (env := Demo.racing_server)
               (keyed := Demo.keyed) Demo.ascii_code_points
               Demo.rotating Demo.typed_entry Demo.at_version_3 in
  fst run = Ok (EarlierApp.mkForm true "" "" "") /\
  Demo.summary (snd run)
  = ["PUT http://localhost:3000/api/v1/vault";
     "GET http://localhost:3000/api/v1/vault/";
     "Conflict detected while updating vault. Reloading latest vault."] /\
  vault (ui (snd run)) = JObj [("passwords", JArr [])].
Proof. vm_compute. repeat split. Qed.

(** A login on a server that grants sessions and has a vault at version
    3, and one on a server that knows no session endpoint. *)
Example login_succeeds :
  let run := EarlierApp.handleLogin (json := Demo.compact_json) (date := Demo.iso_engine 0)
               (env := Demo.full_server) (keyed := Demo.keyed)
               Demo.rotating (EarlierApp.mkForm false "" "" "") Demo.fresh in
  fst run = Ok (EarlierApp.mkForm true "" "" "") /\
  Demo.summary (snd run)
  = ["POST http://localhost:3000/api/v1/auth/session";
     "GET http://localhost:3000/api/v1/vault/"] /\
  vaultVersion (ui (snd run)) = 3%Z /\
  vault (ui (snd run)) = JObj [("passwords", JArr [])].
Proof. vm_compute. repeat split. Qed.

Example login_fails :
  let run := EarlierApp.handleLogin (json := Demo.compact_json) (date := Demo.iso_engine 0)
               (env := Demo.willing_server) (keyed := Demo.keyed)
               Demo.rotating (EarlierApp.mkForm false "" "" "") Demo.fresh in
  fst run = Ok (EarlierApp.mkForm false "" "" "") /\
  Demo.summary (snd run)
  = ["POST http://localhost:3000/api/v1/auth/session";
     "POST http://localhost:3000/api/v1/auth/login";
     "POST http://localhost:3000/auth/session";
     "POST http://localhost:3000/auth/login";
     "Login failed: HTTP 404"] /\
  ui (snd run) = Demo.no_state.
Proof. vm_compute. repeat split. Qed.

(** A logout with a session that is still valid. *)
Example logout_with_session :
  let run := EarlierApp.handleLogout (json := Demo.compact_json) (date := Demo.iso_engine 0)
               (env := Demo.willing_server)
               Demo.rotating Demo.typed_entry Demo.at_version_3 in
  Demo.summary (snd run)
  = ["POST http://localhost:3000/api/v1/auth/logout"; "Logged out."] /\
  storage (snd run) = None /\
  ui (snd run) = mkApp "a@b.com" "" (JObj [("passwords", JArr [])]) 0
                   "CorrectHorse9!" "Tr0ub4dor&3".
Proof. vm_compute. repeat split. Qed.
(** * The [Vault] component *)

Section VaultComponentFacts.

Import VaultComponent.

Context {crypto : WebCrypto} {text : TextCodec} {json : Json} {limits : Limits}.

Variable api_getVault : Outcome JsAny.
Variable api_updateVault : string -> Outcome unit.

(** ** Saving *)

(** What [saveVault] leaves: the new vault when the upload was accepted,
    the old one and the message of the failure when it was not, or when
    the vault could not be encrypted, in which case nothing was uploaded;
    in every case it is no longer saving. *)
Lemma saveVault_runs (updated : Vault) (rnd : Entropy) (st : Edit.State) :
  let st' := saveVault api_updateVault updated rnd st in
  Edit.saving st' = false /\
  Edit.masterPassword st' = Edit.masterPassword st /\
  Edit.editingEntry st' = Edit.editingEntry st /\
  Edit.entryForm st' = Edit.entryForm st /\
  Edit.dialogOpen st' = Edit.dialogOpen st /\
  match encryptVault updated (Edit.masterPassword st) rnd with
  | Ok blob =>
      match api_updateVault blob with
      | Resolved _ => Edit.vault st' = Some updated /\ Edit.error st' = ""
      | Rejected err =>
          Edit.vault st' = Edit.vault st /\
          Edit.error st' = message_or "Failed to save vault" err
      end
  | Err err => Edit.vault st' = Edit.vault st /\ Edit.error st' = err_message err
  end.
Proof.
  unfold saveVault. cbv zeta.
  destruct (encryptVault _ _ _) as [blob|err]; [|cbn; repeat split].
  destruct (api_updateVault _); cbn; repeat split.
Qed.
(** A deletion that was confirmed and uploaded leaves the entries that
    have another id, in their order, and nothing else; when the upload was
    refused, or the remaining vault could not be encrypted, the vault is as
    it was and the failure is shown.  A deletion that was not confirmed
    changes nothing. *)
Theorem handleDeleteEntry_removes_by_id
  (target : string) (rnd : Entropy) (st : Edit.State) (v : Vault) :
  Edit.vault st = Some v ->
  Edit.masterPassword st <> "" ->
  let kept := filter (fun x => negb (String.eqb (id x) target)) (entries v) in
  let st' := handleDeleteEntry api_updateVault target true rnd st in
  (forall x, In x kept <-> In x (entries v) /\ id x <> target) /\
  match encryptVault (mkVault kept) (Edit.masterPassword st) rnd with
  | Ok blob =>
      match api_updateVault blob with
      | Resolved _ => Edit.vault st' = Some (mkVault kept) /\ Edit.error st' = ""
      | Rejected err =>
          Edit.vault st' = Some v /\ Edit.error st' = message_or "Failed to save vault" err
      end
  | Err err => Edit.vault st' = Some v /\ Edit.error st' = err_message err
  end /\
  Edit.saving st' = false /\
  handleDeleteEntry api_updateVault target false rnd st = st.
Proof.
  intros Hv Hpw kept st'. subst st'. unfold handleDeleteEntry. rewrite Hv.
  destruct (String.eqb_spec (Edit.masterPassword st) ""); [contradiction|].
  cbn [negb orb]. fold kept.
  split.
  { intros x. unfold kept. rewrite filter_In.
    destruct (String.eqb_spec (id x) target); cbn; intuition congruence. }
  destruct (saveVault_runs (mkVault kept) rnd st) as (Hs & _ & _ & _ & _ & Hr).
  split; [|split; [exact Hs|reflexivity]].
  destruct (encryptVault _ _ _) as [blob|err]; [|now rewrite <- Hv].
  destruct (api_updateVault _); [exact Hr|]. now rewrite <- Hv.
Qed.

(** ** Editing and adding *)

Lemma newEntry_id_editing (now : Z) (st : Edit.State) (ed : VaultEntry) :
  Edit.editingEntry st = Some ed -> id ed <> "" -> id (newEntry now st) = id ed.
Proof.
  intros He Hid. unfold newEntry. rewrite He. cbn [id].
  now destruct (String.eqb_spec (id ed) "").
Qed.

(** Saving the dialog keeps the ids of the entries and their order.  An
    edit changes no id and adds no entry: the entries with the id of the
    edited one take the content of the form, the others are untouched.  An
    addition appends one entry, whose id is the decimal text of the clock
    reading, whether or not an entry has that id already. *)
Theorem handleSaveEntry_keeps_ids
  (now : Z) (rnd : Entropy) (st : Edit.State) (v v' : Vault) :
  Edit.vault st = Some v ->
  (forall ed, Edit.editingEntry st = Some ed -> id ed <> "") ->
  Edit.vault (handleSaveEntry api_updateVault now rnd st) = Some v' ->
  v' = v \/
  match Edit.editingEntry st with
  | Some ed =>
      map id (entries v') = map id (entries v) /\
      forall i x, nth_error (entries v) i = Some x ->
        nth_error (entries v') i
        = Some (if String.eqb (id x) (id ed) then newEntry now st else x)
  | None =>
      entries v' = entries v ++ [newEntry now st] /\
      id (newEntry now st) = string_of_Z now
  end.
Proof.
  intros Hv Hid Hv'. unfold handleSaveEntry in Hv'. rewrite Hv in Hv'.
  destruct (String.eqb (Edit.masterPassword st) "");
    [left; rewrite Hv in Hv'; now injection Hv'|].
  match type of Hv' with
  | context [saveVault _ ?u _ _] =>
      destruct (saveVault_runs u rnd st) as (_ & _ & _ & _ & _ & Hr);
      cbn [Edit.setDialogOpen Edit.vault] in Hv'
  end.
  destruct (encryptVault _ _ _) as [blob|err].
  2:{ left. destruct Hr as [Hr _]. rewrite Hr, Hv in Hv'. now injection Hv'. }
  destruct (api_updateVault _).
  2:{ left. destruct Hr as [Hr _]. rewrite Hr, Hv in Hv'. now injection Hv'. }
  destruct Hr as [Hr _]. rewrite Hr in Hv'. injection Hv' as <-. right.
  destruct (Edit.editingEntry st) as [ed|] eqn:He; cbn [entries].
  - specialize (Hid ed eq_refl). split.
    + rewrite map_map. apply map_ext_in. intros x _.
      destruct (String.eqb_spec (id x) (id ed)) as [Heq|]; [|reflexivity].
      now rewrite (newEntry_id_editing now st ed He Hid).
    + intros i x Hx. now rewrite nth_error_map, Hx.
  - split; [reflexivity|]. unfold newEntry. now rewrite He.
Qed.

(** Opening an entry in the dialog and saving it as it is gives the vault
    back as it was, for an entry that is tidy and alone in having its id. *)
Theorem edit_unchanged_roundtrip
  (entry : VaultEntry) (now : Z) (rnd : Entropy) (st : Edit.State) (v : Vault) :
  Edit.vault st = Some v ->
  Edit.masterPassword st <> "" ->
  tidy entry ->
  (forall x, In x (entries v) -> id x = id entry -> x = entry) ->
  let st' := handleSaveEntry api_updateVault now rnd (handleEditEntry entry st) in
  Edit.vault st' = Some v /\ Edit.dialogOpen st' = false.
Proof.
  intros Hv Hpw (Hid & Hu & Hp & Hurl & Hn) Hsame st'. subst st'.
  unfold handleSaveEntry, handleEditEntry.
  cbn [Edit.vault Edit.setDialogOpen Edit.setEntryForm Edit.setEditingEntry
       Edit.masterPassword Edit.editingEntry].
  rewrite Hv.
  destruct (String.eqb_spec (Edit.masterPassword st) ""); [contradiction|].
  assert (Hnew : forall st0, Edit.editingEntry st0 = Some entry ->
                   Edit.entryForm st0
                   = Form.mk (name entry) (or_empty (username entry))
                       (or_empty (password entry)) (or_empty (url entry))
                       (or_empty (notes entry)) ->
                   newEntry now st0 = entry).
  { intros st0 He Hf. unfold newEntry. rewrite He, Hf. cbn [Form.name Form.username
      Form.password Form.url Form.notes].
    destruct (String.eqb_spec (id entry) ""); [contradiction|].
    assert (Hopt : forall o, o <> Some "" -> or_undefined (or_empty o) = o).
    { intros [s|] Ho; [|reflexivity]. unfold or_empty, or_undefined.
      destruct (String.eqb_spec s ""); [congruence|reflexivity]. }
    rewrite !Hopt by assumption. now destruct entry. }
  match goal with
  | |- context [saveVault _ (mkVault ?l) _ ?st0] =>
      assert (Hl : l = entries v);
      [|rewrite Hl;
        destruct (saveVault_runs (mkVault (entries v)) rnd st0) as (_ & _ & _ & _ & _ & Hr)]
  end.
  { rewrite <- (map_id (entries v)) at 2. apply map_ext_in. intros x Hx.
    destruct (String.eqb_spec (id x) (id entry)) as [Heq|]; [|reflexivity].
    rewrite (Hsame x Hx Heq). now apply Hnew. }
  cbn [Edit.setDialogOpen Edit.vault Edit.dialogOpen]. split; [|reflexivity].
  destruct (encryptVault _ _ _) as [blob|err];
    [destruct (api_updateVault _)|]; destruct Hr as [Hr _]; rewrite Hr.
  - now destruct v.
  - exact Hv.
  - exact Hv.
Qed.

(** Without a master password typed, saving and deleting do nothing:
    nothing is encrypted or uploaded, no error is shown, and the dialog
    stays as it is.  So it is after [loadVault] has found no vault on the
    server: it unlocks the component, with an empty vault, without asking
    for the master password. *)
Theorem no_master_password_no_save
  (now : Z) (target : string) (confirmed : bool) (rnd : Entropy)
  (st : Edit.State) (lock : Lock.State) (blob : JsAny) :
  Edit.masterPassword st = "" ->
  handleSaveEntry api_updateVault now rnd st = st /\
  handleDeleteEntry api_updateVault target confirmed rnd st = st /\
  (truthy blob = false ->
   let lock' := fst (loadVault (Resolved blob) lock) in
   Lock.unlocked lock' = true /\
   Lock.vault lock' = Some (vault_to_js createEmptyVault) /\
   Lock.masterPassword lock' = Lock.masterPassword lock).
Proof.
  intros Hpw. unfold handleSaveEntry, handleDeleteEntry. rewrite Hpw. cbn [String.eqb orb].
  split; [now destruct (Edit.vault st)|]. split; [now destruct (Edit.vault st)|].
  intros Hb. unfold loadVault. rewrite Hb. cbn. repeat split.
Qed.

(** ** Unlocking *)

(** What the [try] block of [decryptVault] does with a blob, stage by
    stage. *)
Lemma decryptVault_stages (blob p : string) :
  decryptVault blob p =
  match atob blob with
  | None => Err DecryptionError
  | Some combined =>
      match aes_gcm_decrypt (deriveKey p (slice 0 16 combined)) (slice 16 28 combined)
              (slice_from 28 combined) with
      | None => Err DecryptionError
      | Some data =>
          match JSON_parse (utf8_decode data) with
          | None => Err DecryptionError
          | Some v => if entries_length_defined v then Ok v else Err DecryptionError
          end
      end
  end.
Proof.
  unfold decryptVault, decryptVault_try.
  destruct (atob blob) as [combined|]; [|reflexivity]. cbn [or_throw bind_result].
  destruct (aes_gcm_decrypt _ _ _) as [data|]; [|reflexivity]. cbn [or_throw bind_result].
  destruct (JSON_parse _) as [v|]; [|reflexivity]. cbn [or_throw bind_result].
  now destruct (entries_length_defined v).
Qed.

(** [handleUnlock] unlocks exactly with the vault that [decryptVault] has
    returned for the blob of the server and the master password typed.  In
    every other case the vault and the lock are as they were, and a message
    is shown: "No vault found" where the server has no blob, and one and the
    same message where the download has failed, where the blob is not
    base64 text, where AES-GCM rejects it under the key of the password
    typed (a wrong password, or a blob that was damaged), and where the
    plaintext is not the JSON text of a vault. *)
Theorem handleUnlock_fails_closed (lock : Lock.State) :
  let lock' := handleUnlock api_getVault lock in
  let pw := Lock.masterPassword lock in
  let refused := Lock.setError "Failed to unlock vault. Wrong password?" lock in
  let wrong_key (combined : list byte) :=
    aes_gcm_decrypt (deriveKey pw (slice 0 16 combined)) (slice 16 28 combined)
      (slice_from 28 combined) = None in
  (forall err, api_getVault = Rejected err -> lock' = refused) /\
  (forall blob, api_getVault = Resolved blob ->
     (truthy blob = false -> lock' = Lock.setError "No vault found" lock) /\
     (truthy blob = true ->
      (forall v, decryptVault (js_String blob) pw = Ok v ->
         lock' = Lock.setUnlocked true (Lock.setVault (Some v) (Lock.setError "" lock))) /\
      (forall e, decryptVault (js_String blob) pw = Err e -> lock' = refused) /\
      (atob (js_String blob) = None -> lock' = refused) /\
      (forall combined, atob (js_String blob) = Some combined -> wrong_key combined ->
         lock' = refused))) /\
  (lock' <> refused -> lock' <> Lock.setError "No vault found" lock ->
   exists blob v,
     api_getVault = Resolved blob /\ truthy blob = true /\
     decryptVault (js_String blob) pw = Ok v /\
     lock' = Lock.setUnlocked true (Lock.setVault (Some v) (Lock.setError "" lock))).
Proof.
  intros lock' pw refused wrong_key. subst lock'. unfold handleUnlock. cbv zeta.
  destruct api_getVault as [blob|err].
  2:{ split; [intros ? _; reflexivity|]. split; [discriminate|].
      intros H. now contradiction H. }
  split; [discriminate|].
  destruct (truthy blob) eqn:Ht; cbn [negb].
  2:{ split.
      - intros b Hb. injection Hb as <-. rewrite Ht. split; [reflexivity|discriminate].
      - intros _ H. now contradiction H. }
  fold pw.
  assert (Hfail : forall e, decryptVault (js_String blob) pw = Err e ->
            match decryptVault (js_String blob) pw with
            | Ok decrypted =>
                Lock.setUnlocked true (Lock.setVault (Some decrypted) (Lock.setError "" lock))
            | Err _ =>
                Lock.setError "Failed to unlock vault. Wrong password?" (Lock.setError "" lock)
            end = refused).
  { intros e He. now rewrite He. }
  split.
  - intros b Hb. injection Hb as <-. rewrite Ht. split; [discriminate|]. intros _.
    split; [intros v Hv; now rewrite Hv|].
    split; [exact Hfail|].
    split.
    + intros Ha. apply (Hfail DecryptionError). now rewrite decryptVault_stages, Ha.
    + intros combined Ha Hw. apply (Hfail DecryptionError).
      rewrite decryptVault_stages, Ha. unfold wrong_key in Hw. now rewrite Hw.
  - intros Hr _. destruct (decryptVault (js_String blob) pw) as [v|e] eqn:Hd.
    + exists blob, v. repeat split; assumption || reflexivity.
    + now contradiction Hr.
Qed.

Lemma encryptVault_not_empty (v : Vault) (p : string) (rnd : Entropy) (blob : string) :
  encryptVault v p rnd = Ok blob -> blob <> "".
Proof.
  intros Hblob. apply encryptVault_blob in Hblob. destruct Hblob as [-> _].
  unfold combined_of, salt_of, btoa, Base64.encode.
  cbn [getRandomValues map seq fst snd app Base64.sextets string_of_list_ascii].
  discriminate.
Qed.

(** What was saved can be unlocked: when [saveVault] has encrypted the
    vault, the server has accepted the upload and serves the blob again,
    [handleUnlock] with the same master password shows the vault that the
    component showed after the save.  The platform is asked for what it
    promises, as for the round trip of the codec. *)
Theorem saved_vault_unlocks
  (updated : Vault) (rnd : Entropy) (st : Edit.State) (lock : Lock.State) (u : unit)
  (blob : string) :
  (forall k iv data, aes_gcm_decrypt k iv (aes_gcm_encrypt k iv data) = Some data) ->
  utf8_decode (utf8_encode (JSON_stringify (vault_to_js updated)))
    = JSON_stringify (vault_to_js updated) ->
  JSON_parse (JSON_stringify (vault_to_js updated)) = Some (vault_to_js updated) ->
  encryptVault updated (Edit.masterPassword st) rnd = Ok blob ->
  api_updateVault blob = Resolved u ->
  Lock.masterPassword lock = Edit.masterPassword st ->
  Edit.vault (saveVault api_updateVault updated rnd st) = Some updated /\
  handleUnlock (Resolved (Some (JStr blob))) lock
  = Lock.setUnlocked true
      (Lock.setVault (Some (vault_to_js updated)) (Lock.setError "" lock)).
Proof.
  intros Haead Htext Hjson Hblob Hup Hpw.
  split.
  - destruct (saveVault_runs updated rnd st) as (_ & _ & _ & _ & _ & Hr).
    rewrite Hblob, Hup in Hr. exact (proj1 Hr).
  - unfold handleUnlock. cbv zeta. cbn [truthy js_String value_to_string].
    destruct (String.eqb_spec blob "") as [Hempty|_];
      [now apply encryptVault_not_empty in Hblob|].
    cbn [negb]. rewrite Hpw.
    now rewrite (same_key_accepted updated _ _ rnd blob Haead Htext Hjson eq_refl Hblob).
Qed.
(** A password generated for the form has 16 characters of the charset;
    the other fields of the form are kept. *)
Lemma handleGeneratePassword_fills (rnd : Entropy) (st : Edit.State) :
  exists generated,
    handleGeneratePassword rnd st
    = Ok (Edit.setEntryForm
            (Form.mk (Form.name (Edit.entryForm st)) (Form.username (Edit.entryForm st))
               generated (Form.url (Edit.entryForm st)) (Form.notes (Edit.entryForm st)))
            st) /\
    String.length generated = 16%nat.
Proof.
  unfold handleGeneratePassword. rewrite generatePassword_chars by lia.
  eexists. split; [reflexivity|].
  now rewrite length_string_of_list_ascii, !length_map, length_seq.
Qed.

End VaultComponentFacts.
(** * The [Vault] component on the platforms to compute with *)

Section VaultComponentDemo.

Import VaultComponent.

Let deleteEntry :=
  handleDeleteEntry (crypto := Demo.plain_crypto) (text := Demo.byte_text)
    (json := Demo.compact_json) (limits := Demo.v8).

Let saveEntry :=
  handleSaveEntry (crypto := Demo.plain_crypto) (text := Demo.byte_text)
    (json := Demo.compact_json) (limits := Demo.v8).


Lemma handleDeleteEntry_removes_by_id_witness :
  Edit.vault (deleteEntry Demo.accepting "1" true Demo.counting Demo.unlocked_page)
  = Some (mkVault [Demo.bank]) /\
  Edit.vault (deleteEntry Demo.refusing "1" true Demo.counting Demo.unlocked_page)
  = Some Demo.two_entries /\
  Edit.error (deleteEntry Demo.refusing "1" true Demo.counting Demo.unlocked_page)
  = "Session expired".
Proof.
  pose proof (@handleDeleteEntry_removes_by_id Demo.plain_crypto Demo.byte_text
                Demo.compact_json Demo.v8 Demo.accepting "1" Demo.counting
                Demo.unlocked_page Demo.two_entries eq_refl ltac:(discriminate))
    as (_ & Ha & _).
  pose proof (@handleDeleteEntry_removes_by_id Demo.plain_crypto Demo.byte_text
                Demo.compact_json Demo.v8 Demo.refusing "1" Demo.counting
                Demo.unlocked_page Demo.two_entries eq_refl ltac:(discriminate))
    as (_ & Hr & _).
  destruct (small_vault_encrypted (mkVault [Demo.bank]) "CorrectHorse9!" eq_refl)
    as [blob Hblob].
  cbv zeta in Ha, Hr. cbn [filter entries Demo.two_entries id Demo.bank String.eqb
    Ascii.eqb Bool.eqb negb Edit.masterPassword Demo.unlocked_page] in Ha, Hr.
  rewrite Hblob in Ha, Hr.
  split; [exact (proj1 Ha)|exact Hr].
Defined.

Lemma handleSaveEntry_keeps_ids_witness :
  let st := Edit.setEntryForm (Form.mk "Shop" "ann" "" "" "") Demo.unlocked_page in
  let added := mkEntry "1704110400000" "Shop" (Some "ann") None None None in
  let v' := mkVault (entries Demo.two_entries ++ [added]) in
  Edit.vault (saveEntry Demo.accepting Demo.noon Demo.counting st) = Some v' /\
  (v' = Demo.two_entries \/
   entries v' = entries Demo.two_entries ++ [newEntry Demo.noon st] /\
   id (newEntry Demo.noon st) = string_of_Z Demo.noon).
Proof.
  intros st added v'. split; [reflexivity|].
  apply (@handleSaveEntry_keeps_ids Demo.plain_crypto Demo.byte_text Demo.compact_json
           Demo.v8 Demo.accepting Demo.noon Demo.counting st Demo.two_entries v').
  - reflexivity.
  - intros ed Hed. discriminate Hed.
  - reflexivity.
Defined.

(** An edit of the second entry: its id and its place are kept. *)
Example edit_in_place :
  let st := Edit.setEntryForm (Form.mk "Bank" "ann" "z" "" "")
              (Edit.setEditingEntry (Some Demo.bank) Demo.unlocked_page) in
  Edit.vault (saveEntry Demo.accepting Demo.noon Demo.counting st)
  = Some (mkVault [mkEntry "1" "Mail" (Some "a@b.com") (Some "x") None None;
                   mkEntry "2" "Bank" (Some "ann") (Some "z") None None]).
Proof. reflexivity. Qed.

Lemma edit_unchanged_roundtrip_witness :
  Edit.vault (saveEntry Demo.accepting Demo.noon Demo.counting
                (handleEditEntry Demo.bank Demo.unlocked_page))
  = Some Demo.two_entries /\
  Edit.dialogOpen (saveEntry Demo.accepting Demo.noon Demo.counting
                     (handleEditEntry Demo.bank Demo.unlocked_page))
  = false.
Proof.
  apply (@edit_unchanged_roundtrip Demo.plain_crypto Demo.byte_text Demo.compact_json
           Demo.v8 Demo.accepting Demo.bank Demo.noon Demo.counting Demo.unlocked_page
           Demo.two_entries).
  - reflexivity.
  - discriminate.
  - repeat split; discriminate.
  - intros x [<-|[<-|[]]] Hid; [discriminate Hid|reflexivity].
Defined.

(** An entry with a field that is present and empty does not come back as
    it was: the field is gone. *)
Example edit_drops_empty_field :
  Edit.vault (saveEntry Demo.accepting Demo.noon Demo.counting
                (handleEditEntry (mkEntry "3" "Wiki" (Some "") None None None)
                   (Edit.setVault
                      (Some (mkVault [mkEntry "3" "Wiki" (Some "") None None None]))
                      Demo.unlocked_page)))
  = Some (mkVault [mkEntry "3" "Wiki" None None None None]).
Proof. reflexivity. Qed.

Lemma no_master_password_no_save_witness :
  let st := Edit.mkState (Some createEmptyVault) false "" "" None true
              (Form.mk "Shop" "ann" "" "" "") in
  saveEntry Demo.accepting Demo.noon Demo.counting st = st /\
  deleteEntry Demo.accepting "1" true Demo.counting st = st /\
  (truthy (Some JNull) = false ->
   let lock' := fst (loadVault (Resolved (Some JNull))
                       (Lock.mkState None true "" "" false)) in
   Lock.unlocked lock' = true /\
   Lock.vault lock' = Some (vault_to_js createEmptyVault) /\
   Lock.masterPassword lock' = "").
Proof.
  intros st.
  apply (@no_master_password_no_save Demo.plain_crypto Demo.byte_text Demo.compact_json
           Demo.v8 Demo.accepting Demo.noon "1" true Demo.counting st
           (Lock.mkState None true "" "" false) (Some JNull)).
  reflexivity.
Defined.

(** A vault too large for the engine is not saved: nothing is uploaded,
    the vault of the page is as it was, and the message of the RangeError
    is shown. *)
Example archive_not_saved :
  let st := saveVault (crypto := Demo.plain_crypto) (text := Demo.byte_text)
              (json := Demo.compact_json) (limits := Demo.v8)
              Demo.accepting Demo.archive_vault Demo.counting Demo.unlocked_page in
  Edit.vault st = Some Demo.two_entries /\
  Edit.error st = "Maximum call stack size exceeded" /\
  Edit.saving st = false.
Proof.
  intros st. subst st. unfold saveVault. cbv zeta.
  cbn [Edit.masterPassword Demo.unlocked_page]. rewrite archive_vault_refused.
  repeat split.
Qed.

Lemma saved_vault_unlocks_witness :
  exists blob,
    encryptVault (crypto := Demo.plain_crypto) (text := Demo.byte_text)
      (json := Demo.compact_json) (limits := Demo.v8) Demo.two_entries "CorrectHorse9!"
      Demo.counting = Ok blob /\
    Edit.vault (saveVault (crypto := Demo.plain_crypto) (text := Demo.byte_text)
                  (json := Demo.compact_json) (limits := Demo.v8) Demo.accepting
                  Demo.two_entries Demo.counting Demo.unlocked_page)
    = Some Demo.two_entries /\
    handleUnlock (crypto := Demo.plain_crypto) (text := Demo.byte_text)
      (json := Demo.compact_json) (Resolved (Some (JStr blob))) Demo.locked_page
    = Lock.mkState (Some (vault_to_js Demo.two_entries)) false "" "CorrectHorse9!" true.
Proof.
  assert (Hjson : JSON_parse (Json := Demo.compact_json)
                    (JSON_stringify (Json := Demo.compact_json)
                       (vault_to_js Demo.two_entries))
                  = Some (vault_to_js Demo.two_entries)) by (vm_compute; reflexivity).
  destruct (small_vault_encrypted Demo.two_entries "CorrectHorse9!" eq_refl)
    as [blob Hblob].
  exists blob. split; [exact Hblob|].
  apply (@saved_vault_unlocks Demo.plain_crypto Demo.byte_text Demo.compact_json
           Demo.v8 Demo.accepting Demo.two_entries Demo.counting Demo.unlocked_page
           Demo.locked_page tt).
  - exact unseal_seal.
  - reflexivity.
  - exact Hjson.
  - exact Hblob.
  - reflexivity.
  - reflexivity.
Defined.
(** With another master password the same blob does not unlock. *)
Example wrong_password_stays_locked :
  match encryptVault (crypto := Demo.plain_crypto) (text := Demo.byte_text)
          (json := Demo.compact_json) (limits := Demo.v8)
          Demo.two_entries "Tr0ub4dor&3" Demo.counting with
  | Ok blob =>
      handleUnlock (crypto := Demo.plain_crypto) (text := Demo.byte_text)
        (json := Demo.compact_json) (Resolved (Some (JStr blob))) Demo.locked_page
      = Lock.mkState None false "Failed to unlock vault. Wrong password?"
          "CorrectHorse9!" false
  | Err _ => False
  end.
Proof. vm_compute. reflexivity. Qed.
End VaultComponentDemo.
(** * Registration, settings and routes *)

(** ** The strength of a password *)

Section StrengthFacts.

Import RegisterComponent.

Lemma test_append (class : ascii -> bool) (a b : string) :
  test class a = true -> test class (a ++ b) = true.
Proof.
  unfold test.
  assert (Hl : list_ascii_of_string (a ++ b)
               = list_ascii_of_string a ++ list_ascii_of_string b).
  { induction a as [|c a IH]; [reflexivity|].
    cbn [String.append list_ascii_of_string app]. now f_equal. }
  intros H.
  rewrite Hl, existsb_app, H. reflexivity.
Qed.

Lemma rank_getPasswordStrength (p : string) :
  rank (getPasswordStrength p)
  = if (String.length p <? 8)%nat then 0%nat
    else if (16 <=? String.length p)%nat && test upper p && test digit p && test other p
    then 2%nat else 1%nat.
Proof.
  unfold getPasswordStrength.
  destruct (Nat.ltb_spec (String.length p) 8); [reflexivity|].
  destruct (Nat.ltb_spec (String.length p) 12).
  - destruct (Nat.leb_spec 16 (String.length p)); [lia|reflexivity].
  - now destruct (_ && _).
Qed.

(** The rating of a password: "Weak" is fewer than 8 code units; "Strong"
    is at least 16 with an upper-case letter, a digit and a code unit that
    is neither letter nor digit among them; every other password is
    "Medium".  Typing on never lowers the rating. *)
Theorem getPasswordStrength_grows (pwd more : string) :
  (rank (getPasswordStrength pwd) = 0%nat <-> (String.length pwd < 8)%nat) /\
  (rank (getPasswordStrength pwd) = 2%nat <->
   (16 <= String.length pwd)%nat /\ test upper pwd = true /\ test digit pwd = true
   /\ test other pwd = true) /\
  (rank (getPasswordStrength pwd) <= rank (getPasswordStrength (pwd ++ more)))%nat.
Proof.
  rewrite !rank_getPasswordStrength. split; [|split].
  - destruct (Nat.ltb_spec (String.length pwd) 8); [tauto|].
    destruct (_ && _); split; (discriminate || lia).
  - destruct (Nat.ltb_spec (String.length pwd) 8).
    + split; [discriminate|lia].
    + destruct (Nat.leb_spec 16 (String.length pwd)); cbn [andb].
      * destruct (test upper pwd), (test digit pwd), (test other pwd); cbn;
          split; intros Hx;
          (discriminate || tauto || (destruct Hx as (_ & ? & ? & ?); discriminate)).
      * split; [discriminate|lia].
  - pose proof (length_append pwd more) as Hlen.
    destruct (Nat.ltb_spec (String.length pwd) 8); [lia|].
    destruct (Nat.ltb_spec (String.length (pwd ++ more)) 8); [lia|].
    destruct (Nat.leb_spec 16 (String.length pwd)); cbn [andb];
      [|destruct (_ && _); lia].
    destruct (Nat.leb_spec 16 (String.length (pwd ++ more))); [|lia]. cbn [andb].
    destruct (test upper pwd) eqn:Hu; cbn [andb]; [|destruct (_ && _); lia].
    destruct (test digit pwd) eqn:Hd; cbn [andb]; [|destruct (_ && _); lia].
    destruct (test other pwd) eqn:Ho; cbn [andb]; [|destruct (_ && _); lia].
    now rewrite !test_append.
Qed.

End StrengthFacts.

(** ** Registration *)

Section RegisterFacts2.

Import VaultComponent RegisterComponent.

Context {crypto : WebCrypto} {text : TextCodec} {json : Json} {limits : Limits}.

Variable api_register : Registration -> Outcome unit.
Variable api_login : string -> string -> Outcome unit.

(** [onRegisterSuccess] is called only for a password that was typed
    twice alike, has at least 8 code units, so that it is not rated "Weak",
    and for which registration and login have both succeeded.  What was
    registered then is the blob [encryptVault] made of the empty vault under
    that password: it decrypts, under that password, to the empty vault.
    In every case the fields of the form are left as they were typed. *)
Theorem handleSubmit_registers_empty_vault (rnd : Entropy) (st : State) :
  (forall k iv data, aes_gcm_decrypt k iv (aes_gcm_encrypt k iv data) = Some data) ->
  utf8_decode (utf8_encode (JSON_stringify (vault_to_js createEmptyVault)))
    = JSON_stringify (vault_to_js createEmptyVault) ->
  JSON_parse (JSON_stringify (vault_to_js createEmptyVault))
    = Some (vault_to_js createEmptyVault) ->
  let st' := fst (handleSubmit api_register api_login rnd st) in
  (username st', email st', password st', confirmPassword st')
  = (username st, email st, password st, confirmPassword st) /\
  (snd (handleSubmit api_register api_login rnd st) = true ->
   password st = confirmPassword st /\
   (8 <= String.length (password st))%nat /\
   (1 <= rank (getPasswordStrength (password st)))%nat /\
   (exists blob,
      encryptVault createEmptyVault (password st) rnd = Ok blob /\
      (exists u, api_register (mkRegistration (or_undefined (username st)) (email st)
                                 (password st) blob) = Resolved u) /\
      decryptVault blob (password st) = Ok (vault_to_js createEmptyVault)) /\
   (exists u, api_login (email st) (password st) = Resolved u) /\
   loading st' = false /\ error st' = "").
Proof.
  intros Haead Htext Hjson st'. subst st'. unfold handleSubmit. cbv zeta.
  destruct (String.eqb_spec (password st) (confirmPassword st)) as [Heq|];
    cbn [negb]; [|split; [reflexivity|discriminate]].
  destruct (Nat.ltb_spec (String.length (password st)) 8) as [|Hlen];
    [split; [reflexivity|discriminate]|].
  destruct (encryptVault createEmptyVault (password st) rnd) as [blob|err] eqn:Hblob;
    [|split; [reflexivity|discriminate]].
  destruct (api_register _) as [u|err] eqn:Hr; [|split; [reflexivity|discriminate]].
  destruct (api_login _ _) as [u'|err] eqn:Hl; [|split; [reflexivity|discriminate]].
  split; [reflexivity|]. intros _.
  split; [exact Heq|]. split; [exact Hlen|].
  split.
  { rewrite rank_getPasswordStrength.
    destruct (Nat.ltb_spec (String.length (password st)) 8); [lia|].
    destruct (_ && _); lia. }
  split.
  { exists blob. split; [reflexivity|]. split; [now exists u|].
    now apply (same_key_accepted createEmptyVault (password st) (password st) rnd). }
  split; [now exists u'|]. split; reflexivity.
Qed.
End RegisterFacts2.

(** ** Settings *)

Section SettingsFacts.

Import VaultComponent SettingsComponent.

Variable api_changePassword : string -> string -> Outcome unit.

(** The password change of the settings asks the server only for a new
    password that was typed twice alike and has at least 8 code units.
    The logout is scheduled exactly when the server has accepted the
    change; the three passwords are then cleared from the form.  On a
    failure they are kept, and no success is shown. *)
Theorem settings_change_validated (st : State) :
  let st' := fst (handleChangePassword api_changePassword st) in
  let scheduled := snd (handleChangePassword api_changePassword st) in
  (scheduled = true <->
   newPassword st = confirmPassword st /\
   (8 <= String.length (newPassword st))%nat /\
   exists u, api_changePassword (currentPassword st) (newPassword st) = Resolved u) /\
  (scheduled = true ->
   st' = mkState "" "" "" false ""
           "Password changed successfully! Please log in again.") /\
  (scheduled = false ->
   (currentPassword st', newPassword st', confirmPassword st')
   = (currentPassword st, newPassword st, confirmPassword st) /\
   success st' = "").
Proof.
  unfold handleChangePassword. cbv zeta.
  destruct (String.eqb_spec (newPassword st) (confirmPassword st)) as [Heq|Hne];
    cbn [negb fst snd].
  2:{ split; [split; [discriminate|tauto]|]. split; [discriminate|]. now split. }
  destruct (Nat.ltb_spec (String.length (newPassword st)) 8) as [Hshort|Hlen];
    cbn [fst snd].
  { split; [split; [discriminate|lia]|]. split; [discriminate|]. now split. }
  destruct (api_changePassword _ _) as [u|err]; cbn [fst snd].
  - split; [split; [intros _; split; [exact Heq|split; [exact Hlen|now exists u]]|reflexivity]|].
    split; [reflexivity|discriminate].
  - split; [split; [discriminate|intros (_ & _ & u & Hu); discriminate]|].
    split; [discriminate|]. now split.
Qed.

End SettingsFacts.

(** ** Routes *)

Example route_paths_are : route_paths = ["/login"; "/register"; "/vault"; "/settings"; "/"].
Proof. reflexivity. Qed.

(** At every route, rendering settles after at most one redirection, on
    a page that shows the vault or the settings exactly when the user is
    authenticated.  After [handleLogout] that page is the login, and after
    [handleLoginSuccess] the vault. *)
Theorem routes_guard_pages (isAuthenticated : bool) (st : bool * string) :
  Forall (fun path =>
            exists final page,
              AppRoutes.settle 2 isAuthenticated path = Some (final, page) /\
              protected page = isAuthenticated)
         route_paths /\
  (let (auth, location) := AppRoutes.handleLogout st in
   AppRoutes.settle 2 auth location = Some ("/login", AppRoutes.LoginPage)) /\
  (let (auth, location) := AppRoutes.handleLoginSuccess st in
   AppRoutes.settle 2 auth location = Some ("/vault", AppRoutes.VaultPage)).
Proof.
  split; [|split; reflexivity].
  destruct isAuthenticated; repeat constructor; eexists _, _; split; reflexivity.
Qed.

(** ** On the platforms to compute with *)

Lemma handleSubmit_registers_empty_vault_witness :
  let st := RegisterComponent.mkState "" "a@b.com" "CorrectHorse9!" "CorrectHorse9!"
              false "" in
  let run := RegisterComponent.handleSubmit (crypto := Demo.plain_crypto)
               (text := Demo.byte_text) (json := Demo.compact_json) (limits := Demo.v8)
               (fun _ => VaultComponent.Resolved tt)
               (fun _ _ => VaultComponent.Resolved tt) Demo.counting st in
  snd run = true /\
  fst run = st /\
  exists blob,
    encryptVault (crypto := Demo.plain_crypto) (text := Demo.byte_text)
      (json := Demo.compact_json) (limits := Demo.v8)
      createEmptyVault "CorrectHorse9!" Demo.counting = Ok blob /\
    decryptVault (crypto := Demo.plain_crypto) (text := Demo.byte_text)
      (json := Demo.compact_json) blob "CorrectHorse9!"
    = Ok (JObj [("entries", JArr [])]).
Proof.
  intros st run.
  destruct (small_vault_encrypted createEmptyVault "CorrectHorse9!" eq_refl)
    as [blob0 Hblob].
  assert (Hrun : run = (st, true)).
  { subst run st. unfold RegisterComponent.handleSubmit. cbv zeta.
    cbn [RegisterComponent.password RegisterComponent.confirmPassword String.eqb
         Ascii.eqb Bool.eqb negb String.length Nat.ltb Nat.leb].
    rewrite Hblob. reflexivity. }
  destruct (@handleSubmit_registers_empty_vault Demo.plain_crypto Demo.byte_text
              Demo.compact_json Demo.v8 (fun _ => VaultComponent.Resolved tt)
              (fun _ _ => VaultComponent.Resolved tt) Demo.counting st
              unseal_seal eq_refl eq_refl) as (_ & H).
  fold run in H. rewrite Hrun in H.
  destruct (H eq_refl) as (_ & _ & _ & (blob & Hb & _ & Hd) & _).
  split; [now rewrite Hrun|]. split; [now rewrite Hrun|].
  exists blob. split; [exact Hb|exact Hd].
Defined.
(** A password of 7 code units is refused, and one that was not typed
    twice alike. *)
Example handleSubmit_refuses :
  let submit st :=
    RegisterComponent.handleSubmit (crypto := Demo.plain_crypto)
      (text := Demo.byte_text) (json := Demo.compact_json) (limits := Demo.v8)
      (fun _ => VaultComponent.Resolved tt)
      (fun _ _ => VaultComponent.Resolved tt) Demo.counting st in
  submit (RegisterComponent.mkState "" "a@b.com" "Horse9!" "Horse9!" false "")
  = (RegisterComponent.mkState "" "a@b.com" "Horse9!" "Horse9!" false
       "Password must be at least 8 characters long", false) /\
  submit (RegisterComponent.mkState "" "a@b.com" "CorrectHorse9!" "CorrectHorse9" false "")
  = (RegisterComponent.mkState "" "a@b.com" "CorrectHorse9!" "CorrectHorse9" false
       "Passwords do not match", false).
Proof. split; reflexivity. Qed.

Example strength_examples :
  map (fun p => RegisterComponent.strength (RegisterComponent.getPasswordStrength p))
      ["Horse9!"; "CorrectHorse9!"; "correct horse battery staple";
       "Correct horse 9 battery"]
  = ["Weak"; "Medium"; "Medium"; "Strong"].
Proof. reflexivity. Qed.
(** * Further properties of the codec and of the upload *)

Section ShortBlobs.

Context {crypto : WebCrypto} {text : TextCodec} {json : Json}.

(** A blob that is not base64 text, or that holds fewer than the 44 bytes
    of a salt, a nonce and a tag, the empty blob among them, is refused
    with the one error of [decryptVault]: nothing of it is parsed.  AES-GCM
    is asked for what it promises, to reject data that is shorter than its
    tag. *)
Theorem decryptVault_rejects_short_blob (blob p : string) :
  (forall k iv data, (List.length data < 16)%nat -> aes_gcm_decrypt k iv data = None) ->
  match atob blob with
  | Some combined => (List.length combined < 44)%nat
  | None => True
  end ->
  decryptVault blob p = Err DecryptionError.
Proof.
  intros Hshort Hblob. unfold decryptVault, decryptVault_try.
  destruct (atob blob) as [combined|]; [|reflexivity].
  cbn [or_throw bind_result].
  rewrite Hshort; [reflexivity|].
  unfold slice_from. rewrite length_skipn. lia.
Qed.

End ShortBlobs.

Lemma unseal_short (k iv data : list byte) :
  (List.length data < 16)%nat -> Demo.unseal k iv data = None.
Proof.
  intros H. unfold Demo.unseal.
  destruct (Nat.leb_spec 16 (List.length data)); [lia|reflexivity].
Qed.

Lemma decryptVault_rejects_short_blob_witness :
  decryptVault (crypto := Demo.plain_crypto) (text := Demo.byte_text)
    (json := Demo.compact_json) "" "CorrectHorse9!" = Err DecryptionError /\
  decryptVault (crypto := Demo.plain_crypto) (text := Demo.byte_text)
    (json := Demo.compact_json) "not base64!" "CorrectHorse9!" = Err DecryptionError.
Proof.
  split;
    apply (@decryptVault_rejects_short_blob Demo.plain_crypto Demo.byte_text
             Demo.compact_json); try exact unseal_short; vm_compute; (lia || exact I).
Defined.

Section UploadOnce.

Context {json : Json} {date : DateApi} {env : Environment} {keyed : KeyedCrypto}.

(** [putVaultWithVersion] uploads at most once and does not retry.
    Without a session token, as [getSessionToken] returns it, it throws
    before anything is sent.  With one, the upload is the first thing sent,
    under that token, and nothing that follows is another upload or a
    change of the credential.  It reports a success exactly for an upload
    that was answered with a success, and has sent nothing else then; after
    an answer 409 it reports a conflict or throws; it throws on every other
    answer and when no answer came, having sent nothing else. *)
Theorem putVaultWithVersion_uploads_once (s : AppState) (encryptedVault : string) (w : World) :
  let run := putVaultWithVersion s encryptedVault w in
  exists tok w1,
    getSessionToken w = (Ok tok, w1) /\
    if truthy tok then
      let upload := upload_request tok s encryptedVault in
      exists post,
        log (snd run) = log w ++ Fetched upload :: post /\
        forallb harmless post = true /\
        match fetch_reply (log w) upload with
        | NetworkError => fst run = Err TypeError /\ post = []
        | Reply res =>
            if (status res =? 409)%Z then
              fst run = Ok (mkPutResult false true) \/ exists e, fst run = Err e
            else if ok res then fst run = Ok (mkPutResult true false) /\ post = []
            else
              fst run
              = Err (new_Error ("Failed to update vault: " ++ string_of_Z (status res)
                                ++ " " ++ match res_text res with
                                          | Some t => t
                                          | None => ""
                                          end)) /\
              post = []
        end
    else
      run = (Err (new_Error "No active session. Please login again."), w1) /\
      log w1 = log w.
Proof.
  intros run. subst run.
  destruct (getSessionToken_runs w) as (tok & w1 & Ht & (Hl1 & _ & Hu1)).
  exists tok, w1. split; [exact Ht|].
  unfold putVaultWithVersion. rewrite (bind_ok _ _ _ _ _ Ht).
  destruct (truthy tok); cbn [negb].
  2:{ rewrite run_throw. split; [reflexivity|exact Hl1]. }
  cbv zeta. fold (upload_request tok s encryptedVault).
  rewrite run_bind, run_fetch, Hl1.
  destruct (fetch_reply (log w) (upload_request tok s encryptedVault)) as [|res].
  { exists []. cbn. rewrite Hl1. now repeat split. }
  destruct (status res =? 409)%Z.
  - destruct (conflict_branch_runs s) as (Hemits & _ & Hresult).
    cbv zeta in Hemits, Hresult.
    match goal with
    | |- context [log (snd (?m ?w0))] => destruct (m w0) as [r w'] eqn:E
    end.
    destruct (Hemits _ _ _ E) as (post & Hpost & Hharmless).
    exists post. cbn [fst snd].
    split; [rewrite Hpost; cbn; rewrite Hl1, <- app_assoc; reflexivity|].
    split; [exact Hharmless|]. exact (Hresult _ _ _ E).
  - exists []. destruct (ok res); cbn [negb].
    + unfold setVaultVersion. rewrite run_bind.
      cbn -[number_add]. rewrite Hl1. now repeat split.
    + rewrite run_throw. cbn -[string_of_Z]. rewrite Hl1. now repeat split.
Qed.
End UploadOnce.

(** ** The password change, by its last alert *)

Lemma keeps_secrets_ui {A} (m : M A) : keeps_ui m -> keeps_secrets m.
Proof. intros H w r w' E. now rewrite (H _ _ _ E). Qed.

Lemma keeps_secrets_bind {A B} (m : M A) (k : A -> M B) :
  keeps_secrets m -> (forall a, keeps_secrets (k a)) -> keeps_secrets (bind m k).
Proof.
  intros Hm Hk w r w' E. step E.
  - rewrite (Hk _ _ _ _ E). exact (Hm _ _ _ Em).
  - done_run E. exact (Hm _ _ _ Em).
Qed.

Section PasswordChange.

Context {json : Json} {date : DateApi} {env : Environment} {keyed : KeyedCrypto}.

Lemma keeps_ui_changePassword (currentPassword newPassword : string) :
  keeps_ui (changePassword currentPassword newPassword).
Proof.
  unfold changePassword.
  apply keeps_ui_bind; [apply keeps_ui_authHeadersIfAvailable|intros auth].
  destruct (header _ _); [|apply keeps_ui_throw].
  apply keeps_ui_bind; [apply keeps_ui_fetch|intros res].
  destruct (negb (ok res)); [apply keeps_ui_throw|apply keeps_ui_lift].
Qed.

Lemma keeps_secrets_setVault (v : JsValue) : keeps_secrets (setVault v).
Proof. intros w r w' E. unfold setVault in E. now done_run E. Qed.

Lemma keeps_secrets_setVaultVersion (f : Z -> Z) : keeps_secrets (setVaultVersion f).
Proof. intros w r w' E. unfold setVaultVersion in E. now done_run E. Qed.

Lemma keeps_secrets_putVaultWithVersion (s : AppState) (encryptedVault : string) :
  keeps_secrets (putVaultWithVersion s encryptedVault).
Proof.
  unfold putVaultWithVersion.
  apply keeps_secrets_bind;
    [apply keeps_secrets_ui, keeps_ui_getSessionToken|intros tok].
  destruct (negb (truthy tok)); [apply keeps_secrets_ui, keeps_ui_throw|].
  apply keeps_secrets_bind; [apply keeps_secrets_ui, keeps_ui_fetch|intros res].
  destruct (status res =? 409)%Z.
  - apply keeps_secrets_bind; [apply keeps_secrets_ui, keeps_ui_getVault|intros latest].
    apply keeps_secrets_bind; [apply keeps_secrets_ui, keeps_ui_alert|intros _].
    apply keeps_secrets_bind; [|intros _; apply keeps_secrets_ui, keeps_ui_ret].
    destruct (truthy _); [|apply keeps_secrets_ui, keeps_ui_ret].
    apply keeps_secrets_bind; [apply keeps_secrets_ui, keeps_ui_draw|intros key].
    apply keeps_secrets_bind; [apply keeps_secrets_ui, keeps_ui_draw|intros dec].
    apply keeps_secrets_bind; [apply keeps_secrets_setVault|intros _].
    destruct (vault_version latest);
      [apply keeps_secrets_setVaultVersion|apply keeps_secrets_ui, keeps_ui_ret].
  - destruct (negb (ok res)); [apply keeps_secrets_ui, keeps_ui_throw|].
    apply keeps_secrets_bind; [apply keeps_secrets_setVaultVersion|intros _].
    apply keeps_secrets_ui, keeps_ui_ret.
Qed.

Lemma emits_putVaultWithVersion (s : AppState) (encryptedVault : string) :
  emits any_event (putVaultWithVersion s encryptedVault).
Proof.
  intros w r w' E. destruct (putVaultWithVersion_vault _ _ _ _ _ E) as (evs & Hl & _).
  exists evs. split; [exact Hl|]. now apply forallb_forall.
Qed.

(** One step of a run that keeps the passwords. *)
Lemma secrets_step {A} (m : M A) (w : World) (r : result A) (w' : World) :
  keeps_secrets m -> emits any_event m -> m w = (r, w') ->
  secrets (ui w') = secrets (ui w) /\ exists evs, log w' = log w ++ evs.
Proof.
  intros Hk He E. split; [exact (Hk _ _ _ E)|].
  destruct (He _ _ _ E) as (evs & Hl & _). now exists evs.
Qed.

(** A computation that, where it throws, has kept the passwords. *)
Lemma throws_keeping_bind {A B} (m : M A) (k : A -> M B) (w : World) (e : JsError)
  (w' : World) :
  keeps_secrets m -> emits any_event m ->
  (forall a w1, k a w1 = (Err e, w') ->
     secrets (ui w') = secrets (ui w1) /\ exists evs, log w' = log w1 ++ evs) ->
  bind m k w = (Err e, w') ->
  secrets (ui w') = secrets (ui w) /\ exists evs, log w' = log w ++ evs.
Proof.
  intros Hk He Hrest E. step E.
  - destruct (secrets_step _ _ _ _ Hk He Em) as (Hs1 & evs1 & Hl1).
    destruct (Hrest _ _ E) as (Hs2 & evs2 & Hl2).
    split; [congruence|]. exists (evs1 ++ evs2). now rewrite Hl2, Hl1, app_assoc.
  - done_run E. exact (secrets_step _ _ _ _ Hk He Em).
Qed.

(** [handleChangePassword] does not throw, and the last thing it shows is
    an alert that tells how it ended.  The passwords the component holds
    change exactly in a run that ends with the alert of success: the master
    password is then the new one, and the two fields of the form are
    empty.  In every other run the three are as they were. *)
Theorem handleChangePassword_ends_with_alert (s : AppState) (w : World) :
  let run := handleChangePassword s w in
  exists evs msg,
    fst run = Ok tt /\
    log (snd run) = log w ++ evs ++ [Alerted msg] /\
    secrets (ui (snd run))
    = if String.eqb msg changed_alert then (newPasswordForChange s, "", "")
      else secrets (ui w).
Proof.
  intros run. subst run. unfold handleChangePassword.
  destruct (_ || _).
  { exists [], "Please provide both current and new passwords.". now repeat split. }
  rewrite run_catch.
  match goal with
  | |- context [match ?body w with (r, w1) => _ end] =>
      destruct (body w) as [[u|err] w9] eqn:E
  end.
  2:{ assert (H : secrets (ui w9) = secrets (ui w) /\ exists evs, log w9 = log w ++ evs).
      { revert E. apply throws_keeping_bind;
          [apply keeps_secrets_ui, keeps_ui_getVault|apply emits_any_getVault|].
        intros data w1. apply throws_keeping_bind.
        { destruct (truthy _); [|apply keeps_secrets_ui, keeps_ui_ret].
          apply keeps_secrets_bind; [apply keeps_secrets_ui, keeps_ui_draw|intros k].
          apply keeps_secrets_ui, keeps_ui_draw. }
        { destruct (truthy _); [|apply emits_ret].
          apply emits_bind; [apply emits_draw|intros k]. apply emits_draw. }
        intros dec w2. apply throws_keeping_bind;
          [apply keeps_secrets_ui, keeps_ui_draw|apply emits_draw|].
        intros k w3. apply throws_keeping_bind;
          [apply keeps_secrets_ui, keeps_ui_draw|apply emits_draw|].
        intros blob w4. apply throws_keeping_bind;
          [apply keeps_secrets_putVaultWithVersion|apply emits_putVaultWithVersion|].
        intros res w5. destruct (conflict res); [intros E0; discriminate E0|].
        apply throws_keeping_bind;
          [apply keeps_secrets_ui, keeps_ui_changePassword
          |apply (emits_weaken (fun ev => negb (vault_upload ev)));
             [reflexivity|apply emits_changePassword]|].
        intros body w6 E0. cbn in E0. discriminate E0. }
      destruct H as (Hs & evs & Hl).
      exists evs, ("Failed to change password: " ++ error_text err)%string.
      split; [reflexivity|]. cbn [alert snd add_event log ui].
      split; [now rewrite Hl, app_assoc|exact Hs]. }
  destruct u.
  step E as data w1 E1; [|discriminate].
  destruct (secrets_step _ _ _ _ (keeps_secrets_ui _ (keeps_ui_getVault _ _))
              (emits_any_getVault _ _) E1) as (Hs1 & evs1 & Hl1).
  step E as dec w2 E2; [|discriminate].
  assert (H2 : secrets (ui w2) = secrets (ui w1) /\ exists evs, log w2 = log w1 ++ evs).
  { revert E2. apply secrets_step.
    - destruct (truthy _); [|apply keeps_secrets_ui, keeps_ui_ret].
      apply keeps_secrets_bind; [apply keeps_secrets_ui, keeps_ui_draw|intros k].
      apply keeps_secrets_ui, keeps_ui_draw.
    - destruct (truthy _); [|apply emits_ret].
      apply emits_bind; [apply emits_draw|intros k]. apply emits_draw. }
  destruct H2 as (Hs2 & evs2 & Hl2).
  step E as keyNew w3 E3; [|discriminate].
  rewrite run_draw in E3. injection E3 as _ <-.
  step E as blob w4 E4; [|discriminate].
  rewrite run_draw in E4. injection E4 as _ <-.
  step E as res w5 E5; [|discriminate].
  destruct (secrets_step _ _ _ _ (keeps_secrets_putVaultWithVersion _ _)
              (emits_putVaultWithVersion _ _) E5) as (Hs5 & evs5 & Hl5).
  cbn [tick ui log] in Hs5, Hl5.
  destruct (conflict res).
  - unfold alert in E. injection E as <-.
    exists (evs1 ++ evs2 ++ evs5),
      "Conflict when updating vault during password change. Aborting.".
    split; [reflexivity|]. cbn [snd add_event log ui].
    split; [rewrite Hl5, Hl2, Hl1; now rewrite <- !app_assoc|].
    cbn [String.eqb]. now rewrite Hs5, Hs2, Hs1.
  - step E as body w6 E6; [|discriminate].
    destruct (secrets_step _ _ _ _ (keeps_secrets_ui _ (keeps_ui_changePassword _ _))
                (emits_weaken (fun ev => negb (vault_upload ev)) any_event _
                   (fun _ _ => eq_refl) (emits_changePassword _ _)) E6)
      as (Hs6 & evs6 & Hl6).
    cbn in E. injection E as <-.
    exists (evs1 ++ evs2 ++ evs5 ++ evs6), changed_alert.
    split; [reflexivity|]. cbn [snd set_ui add_event log ui].
    split; [rewrite Hl6, Hl5, Hl2, Hl1; now rewrite <- !app_assoc|].
    reflexivity.
Qed.

End PasswordChange.
(** * Signing in on demand *)

Section SignIn.

Context {json : Json} {date : DateApi} {env : Environment}.

Lemma ok_not_404 (res : Response) : ok res = true -> (status res =? 404)%Z = false.
Proof.
  unfold ok. intros H. apply andb_prop in H. destruct H as [_ H].
  apply Z.leb_le in H. apply Z.eqb_neq. lia.
Qed.

(** Without a stored session [getVault] signs in first, and then fetches
    under the session it has just stored.  When the primary endpoint
    grants a session, with a token and an expiry that the engine reads and
    the clock has not passed, two requests are sent: the POST to
    [/auth/session] and the GET of the vault, which carries the new token.
    The session is stored with the expiry as ISO text.  The engine is asked
    to read its own ISO text back, and [JSON.parse] to read back what
    [JSON.stringify] wrote of the session. *)
Theorem getVault_signs_in_first
  (email : string) (masterPassword : option string) (w : World)
  (res : Response) (data : JsValue) (tok x : string) (t : Z) :
  let post := post_request (session_payload email masterPassword)
                (API_BASE ++ "/auth/session") in
  let iso := toISOString t in
  let stored := session_to_js (mkSession (Some (JStr tok)) iso) in
  let get := mkRequest "GET" (API_BASE ++ "/vault/")
               ([("Authorization", ("Bearer " ++ tok)%string)] ++ json_headers) None in
  email <> "" ->
  storage w = None ->
  fetch_reply (log w) post = Reply res -> ok res = true -> res_json res = Some data ->
  get_prop (Some data) "session_token" = Some (JStr tok) ->
  get_prop (Some data) "expires_at" = Some (JStr x) ->
  x <> "" -> Date_parse x = Some t ->
  iso <> "" -> Date_parse iso = Some t ->
  JSON_stringify stored <> "" -> JSON_parse (JSON_stringify stored) = Some stored ->
  (clock (ticks w) <= t)%Z ->
  log (snd (getVault email masterPassword w)) = log w ++ [Fetched post; Fetched get] /\
  storage (snd (getVault email masterPassword w)) = Some (JSON_stringify stored).
Proof.
  intros post iso stored get Hemail Hnone Hreply Hok Hjson Htok Hexp Hx Hpx Hiso Hpiso
    Hne Hparse Hclock.
  assert (Hdata : forall k, get_member (Some data) k = Ok (get_prop (Some data) k)).
  { intros k. destruct data; try discriminate; reflexivity. }
  set (w1 := after [Fetched post] w).
  set (w2 := set_storage (Some (JSON_stringify stored)) w1).
  assert (Hcreate : createSessionForEmail email masterPassword w
                    = (Ok (mkSession (Some (JStr tok)) iso), w2)).
  { unfold createSessionForEmail.
    rewrite run_bind, run_tryPostJson. fold post. rewrite Hreply. fold w1.
    do 3 (rewrite run_bind, (ok_not_404 res Hok), run_ret).
    unfold session_of_response. rewrite Hok. cbn [negb].
    rewrite run_bind, run_lift, Hjson. cbn [or_throw].
    rewrite run_bind, run_lift, Hdata, Htok.
    rewrite run_bind, run_lift, Hdata, Hexp. cbn [js_String value_to_string].
    rewrite run_bind, (normalize_engine_reading x t w1 Hx Hpx). fold iso.
    rewrite run_bind. unfold saveSession. cbn [expires_at token].
    rewrite run_bind, (normalize_engine_reading iso t w1 Hiso Hpiso). fold iso.
    reflexivity. }
  assert (Hensure : ensureSession email masterPassword w = (Ok stored, w2)).
  { unfold ensureSession, loadSession, localStorage_getItem.
    rewrite !run_bind, Hnone. cbn [ret truthy negb].
    rewrite run_bind, run_ret, (bind_ok _ _ _ _ _ Hcreate). reflexivity. }
  unfold getVault. destruct (String.eqb_spec email ""); [contradiction|].
  rewrite (bind_ok _ _ _ _ _ Hensure).
  assert (Hauth : authHeadersIfAvailable w2
                  = (Ok [("Authorization", ("Bearer " ++ tok)%string)], tick w2)).
  { rewrite (run_authHeadersIfAvailable (JSON_stringify stored) stored t w2
               eq_refl Hne Hparse eq_refl Hpiso).
    cbn [ticks w2 w1 after set_storage].
    destruct (Z.ltb_spec t (clock (ticks w))); [lia|reflexivity]. }
  rewrite (bind_ok _ _ _ _ _ Hauth). fold get.
  rewrite run_bind, run_fetch.
  assert (Hend : forall r : result VaultData * World,
             snd r = after [Fetched get] (tick w2) ->
             log (snd r) = log w ++ [Fetched post; Fetched get] /\
             storage (snd r) = Some (JSON_stringify stored)).
  { intros r ->. cbn. now rewrite <- app_assoc. }
  destruct (fetch_reply (log (tick w2)) get) as [|vres]; [apply Hend; reflexivity|].
  destruct (negb (ok vres)); [apply Hend; reflexivity|].
  rewrite run_bind, run_lift.
  destruct (res_json vres); apply Hend; reflexivity.
Qed.

End SignIn.

Lemma getVault_signs_in_first_witness :
  let run := getVault (json := Demo.compact_json) (date := Demo.iso_engine 0)
               (env := Demo.full_server) "a@b.com" (Some "CorrectHorse9!") Demo.fresh in
  Demo.summary (snd run)
  = ["POST http://localhost:3000/api/v1/auth/session";
     "GET http://localhost:3000/api/v1/vault/"] /\
  storage (snd run)
  = Some (Demo.print_json (JObj [("token", JStr "t1");
                                 ("expires_at", JStr "2024-01-01T13:00:00.000Z")])).
Proof.
  intros run.
  pose proof (@getVault_signs_in_first Demo.compact_json (Demo.iso_engine 0)
                Demo.full_server "a@b.com" (Some "CorrectHorse9!") Demo.fresh
                (mkResponse 200
                   (Some (JObj [("session_token", JStr "t1");
                                ("expires_at", JStr "2024-01-01T13:00:00Z")])) None)
                (JObj [("session_token", JStr "t1");
                       ("expires_at", JStr "2024-01-01T13:00:00Z")])
                "t1" "2024-01-01T13:00:00Z" 1704114000000%Z) as H.
  cbv zeta in H.
  assert (Hemail : "a@b.com" <> "") by discriminate.
  specialize (H Hemail eq_refl).
  assert (Hreply : fetch_reply (Environment := Demo.full_server) (log Demo.fresh)
                     (post_request (json := Demo.compact_json)
                        (session_payload "a@b.com" (Some "CorrectHorse9!"))
                        (API_BASE ++ "/auth/session"))
                   = Reply (mkResponse 200
                              (Some (JObj [("session_token", JStr "t1");
                                           ("expires_at", JStr "2024-01-01T13:00:00Z")]))
                              None))
    by (vm_compute; reflexivity).
  specialize (H Hreply eq_refl eq_refl eq_refl eq_refl).
  assert (Hx : "2024-01-01T13:00:00Z" <> "") by discriminate.
  assert (Hpx : Date_parse (DateApi := Demo.iso_engine 0) "2024-01-01T13:00:00Z"
                = Some 1704114000000%Z) by (vm_compute; reflexivity).
  specialize (H Hx Hpx).
  assert (Hiso : toISOString (DateApi := Demo.iso_engine 0) 1704114000000 <> "")
    by (vm_compute; discriminate).
  assert (Hpiso : Date_parse (DateApi := Demo.iso_engine 0)
                    (toISOString (DateApi := Demo.iso_engine 0) 1704114000000)
                  = Some 1704114000000%Z) by (vm_compute; reflexivity).
  specialize (H Hiso Hpiso).
  assert (Hne : JSON_stringify (Json := Demo.compact_json)
                  (session_to_js
                     (mkSession (Some (JStr "t1"))
                        (toISOString (DateApi := Demo.iso_engine 0) 1704114000000)))
                <> "") by (vm_compute; discriminate).
  assert (Hparse : JSON_parse (Json := Demo.compact_json)
                     (JSON_stringify (Json := Demo.compact_json)
                        (session_to_js
                           (mkSession (Some (JStr "t1"))
                              (toISOString (DateApi := Demo.iso_engine 0) 1704114000000))))
                   = Some (session_to_js
                             (mkSession (Some (JStr "t1"))
                                (toISOString (DateApi := Demo.iso_engine 0)
                                   1704114000000))))
    by (vm_compute; reflexivity).
  assert (Hclock : (clock (Environment := Demo.full_server) (ticks Demo.fresh)
                    <= 1704114000000)%Z) by (vm_compute; discriminate).
  destruct (H Hne Hparse Hclock) as [Hlog Hst].
  split.
  - unfold Demo.summary. subst run. rewrite Hlog. reflexivity.
  - subst run. rewrite Hst. vm_compute. reflexivity.
Defined.
